(** * MallocLab: implicit free list allocator (mm_backup.c)

    A shallow embedding of the allocator of [src/mm_backup.c]: boundary-tagged
    blocks, first-fit search, splitting and boundary-tag coalescing.

    The source targets the 32-bit layout drawn in its header comment
    (bits 31..0 of a header word, [WSIZE = 4], a pointer cast to [int]):
    [size_t] is an unsigned 32-bit integer, modelled as a [Z] with its
    wrap-around written out; [int] is its signed reading.  Addresses are
    unbounded [Z]; the heap is a byte-addressed memory. *)

From Stdlib Require Import ZArith Lia List Bool Ascii String.
Import ListNotations.
Local Open Scope Z_scope.

(** ** Machine integers *)

Module Word.

Definition modulus : Z := 2 ^ 32.

(** conversion of an integer to [size_t] *)
Definition to_size_t (x : Z) : Z := x mod modulus.

(** conversion of a [size_t] to [int] (two's complement) *)
Definition to_int (x : Z) : Z :=
  let r := x mod modulus in
  if r <? 2 ^ 31 then r else r - modulus.

Definition add (a b : Z) : Z := to_size_t (a + b).
Definition sub (a b : Z) : Z := to_size_t (a - b).
Definition mul (a b : Z) : Z := to_size_t (a * b).

End Word.

(** ** Constants and macros of the source *)

Definition WSIZE : Z := 4.        (* word size (bytes) *)
Definition DSIZE : Z := 8.        (* doubleword size (bytes) *)
Definition CHUNKSIZE : Z := Z.shiftl 1 12.  (* initial heap size (bytes) *)
Definition OVERHEAD : Z := 8.     (* overhead of header and footer (bytes) *)

(** [static inline int MAX(int x, int y)]: both arguments are [int]s. *)
Definition MAX (x y : Z) : Z := if x >? y then x else y.

(** [PACK(size, alloc)]: [size | (alloc & 0x1)] *)
Definition PACK (size alloc : Z) : Z := Z.lor size (Z.land alloc 1).

(** The two decoders of the source read a word through a pointer; the word
    level part of [GET_SIZE] and [GET_ALLOC] is named here. *)
Definition size_of (w : Z) : Z := Z.land w (Z.lnot 7).
Definition allocated_of (w : Z) : Z := Z.land w 1.

(** ** Byte-addressed memory *)

Definition mem := Z -> Z.

Definition byte_at (m : mem) (a : Z) : Z := m a mod 256.

(** [GET(p)]: the 32-bit word stored at [p] (little endian). *)
Definition GET (m : mem) (p : Z) : Z :=
  byte_at m p + 256 * byte_at m (p + 1)
  + 65536 * byte_at m (p + 2) + 16777216 * byte_at m (p + 3).

(** [PUT(p, val)]: store the 32-bit word [val] at [p]. *)
Definition PUT (m : mem) (p : Z) (val : Z) : mem :=
  fun a =>
    if a =? p then val mod 256
    else if a =? p + 1 then (val / 256) mod 256
    else if a =? p + 2 then (val / 65536) mod 256
    else if a =? p + 3 then (val / 16777216) mod 256
    else m a.

Definition GET_SIZE (m : mem) (p : Z) : Z := size_of (GET m p).
Definition GET_ALLOC (m : mem) (p : Z) : Z := allocated_of (GET m p).

Definition HDRP (bp : Z) : Z := bp - WSIZE.
Definition FTRP (m : mem) (bp : Z) : Z := bp + GET_SIZE m (HDRP bp) - DSIZE.
Definition NEXT_BLKP (m : mem) (bp : Z) : Z := bp + GET_SIZE m (bp - WSIZE).
Definition PREV_BLKP (m : mem) (bp : Z) : Z := bp - GET_SIZE m (bp - DSIZE).

(** [memcpy(dst, src, n)]: the [n] bytes at [src] are read before any byte
    of [dst] is written (the two regions do not overlap in a defined call). *)
Definition memcpy (m : mem) (dst src n : Z) : mem :=
  fun a => if (dst <=? a) && (a <? dst + n) then m (src + (a - dst)) else m a.

(** ** Allocator state and results *)

Record state : Type := mkState {
  heap : mem;                 (* the bytes of the address space *)
  heap_listp : Z;             (* static char *heap_listp *)
  mem_brk : Z;                (* growth primitive: first byte past the heap *)
  mem_max_addr : Z;           (* growth primitive: limit of the heap *)
  output : list string        (* lines printed so far *)
}.

Definition set_heap (st : state) (m : mem) : state :=
  mkState m (heap_listp st) (mem_brk st) (mem_max_addr st) (output st).

Definition set_heap_listp (st : state) (p : Z) : state :=
  mkState (heap st) p (mem_brk st) (mem_max_addr st) (output st).

Definition set_brk (st : state) (b : Z) : state :=
  mkState (heap st) (heap_listp st) b (mem_max_addr st) (output st).

Definition print (st : state) (line : string) : state :=
  mkState (heap st) (heap_listp st) (mem_brk st) (mem_max_addr st)
          (output st ++ [line]).

(** Outcome of a public operation: it returns a value, the process exits
    ([exit(1)] in [mm_realloc]), or the search loop has not finished within
    the given number of iterations. *)
Inductive result (A : Type) : Type :=
| Ret (a : A) (st : state)
| Exited (code : Z) (st : state)
| OutOfFuel.
Arguments Ret {A} a st.
Arguments Exited {A} code st.
Arguments OutOfFuel {A}.

Definition bind {A B : Type} (r : result A) (k : A -> state -> result B) : result B :=
  match r with
  | Ret a st => k a st
  | Exited c st => Exited c st
  | OutOfFuel => OutOfFuel
  end.

Notation "'do' ( x , s ) <- r ; k" := (bind r (fun x s => k))
  (at level 10, x name, s name, r at level 100, k at level 200).

(** Modelled from the spec: the heap-growth primitive [mem_sbrk] (memlib.c is
    not among the sources): a synchronous, append-only request for [incr] more
    bytes that either returns the base of the newly appended region or signals
    exhaustion.  Its parameter is an [int]; a negative request cannot be
    served by an append-only heap.  The failure signal is [None]; the source
    tests the returned pointer as [== NULL] in [mm_init] and as [(int)bp < 0]
    in [extend_heap], and both tests are applied to a returned base as well. *)
Definition mem_sbrk (incr : Z) (st : state) : option Z * state :=
  if (incr <? 0) || (mem_max_addr st <? mem_brk st + incr)
  then (None, st)
  else (Some (mem_brk st), set_brk st (mem_brk st + incr)).

(** ** The allocator *)

(** [coalesce]: boundary tag coalescing; returns the coalesced block. *)
Definition coalesce (m : mem) (bp : Z) : Z * mem :=
  let prev_alloc := GET_ALLOC m (FTRP m (PREV_BLKP m bp)) in
  let next_alloc := GET_ALLOC m (HDRP (NEXT_BLKP m bp)) in
  let size := GET_SIZE m (HDRP bp) in
  if negb (prev_alloc =? 0) && negb (next_alloc =? 0) then
    (bp, m)
  else if negb (prev_alloc =? 0) && (next_alloc =? 0) then
    let size := Word.add size (GET_SIZE m (HDRP (NEXT_BLKP m bp))) in
    let m1 := PUT m (HDRP bp) (PACK size 0) in
    let m2 := PUT m1 (FTRP m1 bp) (PACK size 0) in
    (bp, m2)
  else if (prev_alloc =? 0) && negb (next_alloc =? 0) then
    let size := Word.add size (GET_SIZE m (HDRP (PREV_BLKP m bp))) in
    let m1 := PUT m (FTRP m bp) (PACK size 0) in
    let m2 := PUT m1 (HDRP (PREV_BLKP m1 bp)) (PACK size 0) in
    (PREV_BLKP m2 bp, m2)
  else
    (* size =+ GET_SIZE(HDRP(PREV_BLKP(bp))) + GET_SIZE(FTRP(NEXT_BLKP(bp))):
       an assignment of the sum, the old value of size is not read *)
    let size := Word.add (GET_SIZE m (HDRP (PREV_BLKP m bp)))
                         (GET_SIZE m (FTRP m (NEXT_BLKP m bp))) in
    let m1 := PUT m (HDRP (PREV_BLKP m bp)) (PACK size 0) in
    let m2 := PUT m1 (FTRP m1 (NEXT_BLKP m1 bp)) (PACK size 0) in
    (PREV_BLKP m2 bp, m2).

(** [extend_heap]: extend the heap with a free block. *)
Definition extend_heap (words : Z) (st : state) : option Z * state :=
  let size := if negb (words mod 2 =? 0)
              then Word.mul (Word.add words 1) WSIZE
              else Word.mul words WSIZE in
  match mem_sbrk (Word.to_int size) st with
  | (None, st1) => (None, st1)
  | (Some bp, st1) =>
      if Word.to_int bp <? 0 then (None, st1)
      else
        let m1 := PUT (heap st1) (HDRP bp) (PACK size 0) in
        let m2 := PUT m1 (FTRP m1 bp) (PACK size 0) in
        let m3 := PUT m2 (HDRP (NEXT_BLKP m2 bp)) (PACK 0 1) in
        let (r, m4) := coalesce m3 bp in
        (Some r, set_heap st1 m4)
  end.

(** [mm_init]: returns 0, or -1 when the heap cannot grow. *)
Definition mm_init (st : state) : Z * state :=
  match mem_sbrk (4 * WSIZE) st with
  | (None, st1) => (-1, set_heap_listp st1 0)
  | (Some p, st1) =>
      if p =? 0 then (-1, set_heap_listp st1 0)
      else
        let m1 := PUT (heap st1) p 0 in
        let m2 := PUT m1 (p + WSIZE) (PACK OVERHEAD 1) in
        let m3 := PUT m2 (p + DSIZE) (PACK OVERHEAD 1) in
        let m4 := PUT m3 (p + WSIZE + DSIZE) (PACK 0 1) in
        let st2 := set_heap_listp (set_heap st1 m4) (p + DSIZE) in
        match extend_heap (CHUNKSIZE / WSIZE) st2 with
        | (None, st3) => (-1, st3)
        | (Some _, st3) => (0, st3)
        end
  end.

(** [find_fit]: the [for] loop, one iteration per unit of fuel;
    [None] when the fuel runs out, [Some None] for [NULL] (no fit). *)
Fixpoint find_fit_loop (fuel : nat) (m : mem) (bp adjsize : Z) : option (option Z) :=
  match fuel with
  | O => None
  | S fuel' =>
      if GET_SIZE m (HDRP bp) >? 0 then
        if (GET_ALLOC m (HDRP bp) =? 0) && (adjsize <=? GET_SIZE m (HDRP bp))
        then Some (Some bp)
        else find_fit_loop fuel' m (NEXT_BLKP m bp) adjsize
      else Some None
  end.

Definition find_fit (fuel : nat) (st : state) (adjsize : Z) : option (option Z) :=
  find_fit_loop fuel (heap st) (heap_listp st) adjsize.

(** [place]: place a block of [adjsize] bytes at the start of free block [bp]. *)
Definition place (m : mem) (bp adjsize : Z) : mem :=
  let chunksize := GET_SIZE m (HDRP bp) in
  if Word.sub chunksize adjsize >=? DSIZE + OVERHEAD then
    let m1 := PUT m (HDRP bp) (PACK adjsize 1) in
    let m2 := PUT m1 (FTRP m1 bp) (PACK adjsize 1) in
    let bp' := NEXT_BLKP m2 bp in
    let m3 := PUT m2 (HDRP bp') (PACK (Word.sub chunksize adjsize) 0) in
    PUT m3 (FTRP m3 bp') (PACK (Word.sub chunksize adjsize) 0)
  else
    let m1 := PUT m (HDRP bp) (PACK chunksize 1) in
    PUT m1 (FTRP m1 bp) (PACK chunksize 1).

(** The adjusted block size computed by [mm_malloc] from a request that
    passed the [size <= 0] test. *)
Definition adjust_size (size : Z) : Z :=
  if size <=? DSIZE then DSIZE + OVERHEAD
  else Word.mul DSIZE (Word.add (Word.add size OVERHEAD) (DSIZE - 1) / DSIZE).

(** [mm_malloc]: [size] is a [size_t]. *)
Definition mm_malloc (fuel : nat) (size : Z) (st : state) : result (option Z) :=
  if size <=? 0 then Ret None st
  else
    let adjsize := adjust_size size in
    match find_fit fuel st adjsize with
    | None => OutOfFuel
    | Some (Some bp) =>
        Ret (Some bp) (set_heap st (place (heap st) bp adjsize))
    | Some None =>
        let extendsize := Word.to_size_t (MAX (Word.to_int adjsize) CHUNKSIZE) in
        match extend_heap (extendsize / WSIZE) st with
        | (None, st1) => Ret None st1
        | (Some bp, st1) =>
            Ret (Some bp) (set_heap st1 (place (heap st1) bp adjsize))
        end
    end.

(** [mm_free] *)
Definition mm_free (bp : Z) (st : state) : state :=
  let size := GET_SIZE (heap st) (HDRP bp) in
  let m1 := PUT (heap st) (HDRP bp) (PACK size 0) in
  let m2 := PUT m1 (FTRP m1 bp) (PACK size 0) in
  set_heap st (snd (coalesce m2 bp)).

Definition newline : string := String (Ascii.ascii_of_nat 10) EmptyString.

Definition realloc_error : string :=
  ("ERROR: mm_malloc failed in mm_realloc" ++ newline)%string.

(** The byte count handed to [memcpy] by [mm_realloc]. *)
Definition realloc_copySize (m : mem) (ptr size : Z) : Z :=
  let copySize := GET_SIZE m (HDRP ptr) in
  if size <? copySize then size else copySize.

(** [mm_realloc] *)
Definition mm_realloc (fuel : nat) (ptr size : Z) (st : state) : result Z :=
  do (newp, st1) <- mm_malloc fuel size st;
  match newp with
  | None => Exited 1 (print st1 realloc_error)
  | Some newp =>
      let copySize := realloc_copySize (heap st1) ptr size in
      let st2 := set_heap st1 (memcpy (heap st1) newp ptr copySize) in
      Ret newp (mm_free ptr st2)
  end.

(** [checkblock]: the header/footer comparison of the consistency checker
    ([true] when the block passes). *)
Definition header_matches_footer (m : mem) (bp : Z) : bool :=
  GET m (HDRP bp) =? GET m (FTRP m bp).

(** ** Reading a result *)

Definition returned {A : Type} (r : result A) : option A :=
  match r with Ret a _ => Some a | _ => None end.

Definition final_state {A : Type} (r : result A) : option state :=
  match r with Ret _ st | Exited _ st => Some st | OutOfFuel => None end.

Definition exit_code {A : Type} (r : result A) : option Z :=
  match r with Exited c _ => Some c | _ => None end.

(** ** Specification-level notions *)

(** The least multiple of [d] that is at least [x]. *)
Definition round_up (x d : Z) : Z := d * ((x + d - 1) / d).

(** The minimum block size: overhead plus one alignment unit. *)
Definition MIN_BLOCK : Z := OVERHEAD + DSIZE.

(** The blocks met by following next-block links from [bp] up to the
    epilogue (a header of size 0), the epilogue excluded; [None] when no
    epilogue is met within [fuel] blocks. *)
Fixpoint blocks_from (fuel : nat) (m : mem) (bp : Z) : option (list Z) :=
  match fuel with
  | O => None
  | S fuel' =>
      if GET_SIZE m (HDRP bp) =? 0 then Some []
      else option_map (cons bp) (blocks_from fuel' m (NEXT_BLKP m bp))
  end.

Definition is_free (m : mem) (bp : Z) : bool := GET_ALLOC m (HDRP bp) =? 0.

(** A block fits a request when it is free and large enough. *)
Definition fits (m : mem) (adjsize bp : Z) : bool :=
  is_free m bp && (adjsize <=? GET_SIZE m (HDRP bp)).

(** The first real block: the one after the prologue. *)
Definition first_block (st : state) : Z := heap_listp st + DSIZE.

(** Header and footer of a block written one after the other, the footer
    located through the header just written: the pattern of [place],
    [mm_free], [extend_heap] and [coalesce]. *)
Definition write_block (m : mem) (bp v : Z) : mem :=
  let m1 := PUT m (HDRP bp) v in PUT m1 (FTRP m1 bp) v.

(** ** Well-formed heaps *)

(** A block of the implicit list, as its header and footer describe it. *)
Record block : Type := mkBlock { blk_size : Z; blk_alloc : bool }.

Definition flag (al : bool) : Z := if al then 1 else 0.

Definition tag (b : block) : Z := PACK (blk_size b) (flag (blk_alloc b)).

(** Invariant I2 for one block. *)
Definition block_ok (b : block) : Prop :=
  MIN_BLOCK <= blk_size b /\ blk_size b mod 8 = 0.

Fixpoint total (bs : list block) : Z :=
  match bs with
  | [] => 0
  | b :: bs' => blk_size b + total bs'
  end.

(** The payload address of each block when [bs] starts at [bp]. *)
Fixpoint positions (bp : Z) (bs : list block) : list (Z * block) :=
  match bs with
  | [] => []
  | b :: bs' => (bp, b) :: positions (bp + blk_size b) bs'
  end.

(** [chain m bp bs]: the blocks [bs] lie one after the other from [bp],
    each with matching header and footer (invariants I1 and I2). *)
Fixpoint chain (m : mem) (bp : Z) (bs : list block) : Prop :=
  match bs with
  | [] => True
  | b :: bs' =>
      block_ok b /\
      GET m (HDRP bp) = tag b /\
      GET m (bp + blk_size b - DSIZE) = tag b /\
      chain m (bp + blk_size b) bs'
  end.

(** The bytes of a block: header, payload and footer. *)
Definition in_block (p : Z) (b : block) (x : Z) : Prop :=
  HDRP p <= x < HDRP p + blk_size b.

(** A heap made of the prologue, the blocks [bs] and the epilogue header at
    the top of the heap (invariant I4), inside a 32-bit address space that
    starts at address 0 (the padding word and the prologue header lie below
    [heap_listp]). *)
Definition well_formed (st : state) (bs : list block) : Prop :=
  GET (heap st) (HDRP (heap_listp st)) = PACK OVERHEAD 1 /\
  GET (heap st) (heap_listp st) = PACK OVERHEAD 1 /\
  chain (heap st) (first_block st) bs /\
  first_block st + total bs = mem_brk st /\
  GET (heap st) (HDRP (mem_brk st)) = PACK 0 1 /\
  DSIZE <= heap_listp st /\
  mem_brk st <= mem_max_addr st /\
  mem_max_addr st <= Word.modulus.

(** [ptr] is the payload address of a live allocated block of size [sz]. *)
Definition live (st : state) (bs : list block) (ptr sz : Z) : Prop :=
  In (ptr, mkBlock sz true) (positions (first_block st) bs).

(** ** A concrete run

    A heap served by a growth primitive whose region starts at address 4096
    and may grow to one megabyte; all bytes are zero before [mm_init]. *)
Module Run.

Definition fresh : state :=
  mkState (fun _ => 0) 0 4096 (4096 + 1048576) [].

Definition after_init : state := snd (mm_init fresh).

Definition state_of {A : Type} (r : result A) : state :=
  match final_state r with Some st => st | None => fresh end.

Definition pointer_of (r : result (option Z)) : Z :=
  match returned r with Some (Some p) => p | _ => 0 end.

(* a = malloc(8); b = malloc(8); c = malloc(8); d = malloc(8) *)
Definition r_a := mm_malloc 16 8 after_init.
Definition r_b := mm_malloc 16 8 (state_of r_a).
Definition r_c := mm_malloc 16 8 (state_of r_b).
Definition r_d := mm_malloc 16 8 (state_of r_c).
Definition a : Z := pointer_of r_a.
Definition b : Z := pointer_of r_b.
Definition c : Z := pointer_of r_c.
Definition d : Z := pointer_of r_d.
Definition four_blocks : state := state_of r_d.
Definition four_blocks_layout : list block :=
  [mkBlock 16 true; mkBlock 16 true; mkBlock 16 true; mkBlock 16 true;
   mkBlock 4032 false].

(* realloc(a, 100) on the heap of the four blocks *)
Definition r_realloc : result Z := mm_realloc 16 a 100 four_blocks.
Definition after_realloc_malloc : state := state_of (mm_malloc 16 100 four_blocks).
Definition after_realloc : state := state_of r_realloc.

(* free(a); free(c) *)
Definition two_freed : state := mm_free c (mm_free a four_blocks).

(* free(b): both neighbours of b are free *)
Definition three_freed : state := mm_free b two_freed.

(* a heap that cannot grow past its first chunk: after one malloc(8), a
   request of 8000 bytes finds no fit and the growth primitive refuses *)
Definition tight : state :=
  mkState (fun _ => 0) 0 4096 (4096 + 16 + 4096) [].
Definition tight_one_block : state :=
  state_of (mm_malloc 16 8 (snd (mm_init tight))).

(* the heap inside free(b), when coalesce is called: b is marked free *)
Definition b_marked_free : mem :=
  write_block (heap two_freed) b
              (PACK (GET_SIZE (heap two_freed) (HDRP b)) 0).

End Run.

(** ** The consistency checker *)

(** One constructor per [printf] of [mm_checkheap], [printblock] and
    [checkblock], carrying the arguments of the format string. *)
Inductive message : Type :=
| Heap_line (p : Z)               (* "Heap (%p):\n" *)
| Bad_prologue                    (* "Bad prologue header\n" *)
| Bad_epilogue                    (* "Bad epilogue header\n" *)
| Not_aligned (p : Z)             (* "Error: %p is not doubleword aligned\n" *)
| Header_footer_mismatch          (* "Error: header does not match footer\n" *)
| EOL_line (p : Z)                (* "%p: EOL\n" *)
| Block_line (p hsize : Z) (halloc : Ascii.ascii) (fsize : Z) (falloc : Ascii.ascii).
                                  (* "%p: header: [%d:%c] footer: [%d:%c]\n" *)

Definition alloc_char (al : Z) : Ascii.ascii :=
  if negb (al =? 0) then "a"%char else "f"%char.

(** [printblock] *)
Definition printblock (m : mem) (bp : Z) : list message :=
  let hsize := GET_SIZE m (HDRP bp) in
  let halloc := GET_ALLOC m (HDRP bp) in
  let fsize := GET_SIZE m (FTRP m bp) in
  let falloc := GET_ALLOC m (FTRP m bp) in
  if hsize =? 0 then [EOL_line bp]
  else [Block_line bp (Word.to_int hsize) (alloc_char halloc)
                   (Word.to_int fsize) (alloc_char falloc)].

(** [checkblock] *)
Definition checkblock (m : mem) (bp : Z) : list message :=
  (if negb (Word.to_size_t bp mod 8 =? 0) then [Not_aligned bp] else [])
  ++ (if negb (GET m (HDRP bp) =? GET m (FTRP m bp))
      then [Header_footer_mismatch] else []).

(** The [for] loop of [mm_checkheap]: the lines printed and the block
    pointer the loop stops at; [None] when the fuel runs out. *)
Fixpoint checkheap_loop (fuel : nat) (verbose : Z) (m : mem) (bp : Z)
  : option (list message * Z) :=
  match fuel with
  | O => None
  | S fuel' =>
      if GET_SIZE m (HDRP bp) >? 0 then
        match checkheap_loop fuel' verbose m (NEXT_BLKP m bp) with
        | Some (out, stop) =>
            Some ((if negb (verbose =? 0) then printblock m bp else [])
                  ++ checkblock m bp ++ out, stop)
        | None => None
        end
      else Some ([], bp)
  end.

(** [mm_checkheap]: the lines it prints; the heap is only read. *)
Definition mm_checkheap (fuel : nat) (verbose : Z) (st : state)
  : option (list message) :=
  let m := heap st in
  let hl := heap_listp st in
  let heading := if negb (verbose =? 0) then [Heap_line hl] else [] in
  let prologue :=
    if negb (GET_SIZE m (HDRP hl) =? DSIZE) || (GET_ALLOC m (HDRP hl) =? 0)
    then [Bad_prologue] else [] in
  let first := checkblock m hl in
  match checkheap_loop fuel verbose m hl with
  | None => None
  | Some (body, bp) =>
      let last := if negb (verbose =? 0) then printblock m bp else [] in
      let epilogue :=
        if negb (GET_SIZE m (HDRP bp) =? 0) || (GET_ALLOC m (HDRP bp) =? 0)
        then [Bad_epilogue] else [] in
      Some (heading ++ prologue ++ first ++ body ++ last ++ epilogue)
  end.

(** The line [printblock] prints for a block whose header and footer both
    hold the tag of [b]. *)
Definition block_line (pb : Z * block) : message :=
  let c := if blk_alloc (snd pb) then "a"%char else "f"%char in
  Block_line (fst pb) (Word.to_int (blk_size (snd pb))) c
             (Word.to_int (blk_size (snd pb))) c.

(** The verbose listing of a heap made of the prologue, the blocks [bs] and
    the epilogue. *)
Definition listing (st : state) (bs : list block) : list message :=
  Heap_line (heap_listp st)
  :: block_line (heap_listp st, mkBlock DSIZE true)
  :: map block_line (positions (first_block st) bs)
  ++ [EOL_line (mem_brk st)].

(** ** The allocator on block lists

    What the operations are meant to do to the list of blocks, stated on
    lists alone; the heap operations are compared with these. *)

(** Placing [a] bytes in a free block of [c] bytes. *)
Definition placed (c a : Z) : list block :=
  if c - a <? MIN_BLOCK then [mkBlock c true]
  else [mkBlock a true; mkBlock (c - a) false].

(** First fit: the offset of the chosen block from the first block, and the
    list after placement; [None] when no free block is large enough. *)
Fixpoint first_fit (a : Z) (bs : list block) : option (Z * list block) :=
  match bs with
  | [] => None
  | b :: bs' =>
      if negb (blk_alloc b) && (a <=? blk_size b)
      then Some (0, placed (blk_size b) a ++ bs')
      else match first_fit a bs' with
           | Some (off, l) => Some (blk_size b + off, b :: l)
           | None => None
           end
  end.

(** Growing the heap by [size] bytes: a new free block at the end, merged
    with the last block when that one is free. *)
Fixpoint grown (size : Z) (bs : list block) : list block :=
  match bs with
  | [] => [mkBlock size false]
  | [b] => if blk_alloc b then [b; mkBlock size false]
           else [mkBlock (blk_size b + size) false]
  | b :: bs' => b :: grown size bs'
  end.

(** Allocation of an adjusted size [adj]: first fit, and when nothing fits,
    first fit again after growing by the larger of [adj] and a chunk. *)
Definition malloc_blocks (adj : Z) (bs : list block) : option (Z * list block) :=
  match first_fit adj bs with
  | Some r => Some r
  | None => first_fit adj (grown (Z.max adj CHUNKSIZE) bs)
  end.

(** Whether a list ends, or starts, with a free block. *)
Fixpoint last_free (l : list block) : bool :=
  match l with
  | [] => false
  | [b] => negb (blk_alloc b)
  | _ :: l' => last_free l'
  end.

Definition head_free (l : list block) : bool :=
  match l with
  | [] => false
  | b :: _ => negb (blk_alloc b)
  end.

(** Freeing the block of size [sz] that lies between [pre] and [post],
    merging it with the free neighbours. *)
Definition freed (pre : list block) (sz : Z) (post : list block) : list block :=
  let dummy := mkBlock 0 true in
  let sz1 := if head_free post then sz + blk_size (hd dummy post) else sz in
  let post' := if head_free post then tl post else post in
  if last_free pre
  then removelast pre ++ mkBlock (sz1 + blk_size (last pre dummy)) false :: post'
  else pre ++ mkBlock sz1 false :: post'.

(** Invariant I3 on a block list: no two neighbours are both free. *)
Fixpoint no_adjacent_free (bs : list block) : bool :=
  match bs with
  | b :: ((b' :: _) as bs') =>
      (blk_alloc b || blk_alloc b') && no_adjacent_free bs'
  | _ => true
  end.

(** Doubleword alignment of a payload pointer. *)
Definition aligned (p : Z) : Prop := p mod 8 = 0.

(** * Properties *)

(** ** Word and memory lemmas *)

Lemma to_size_t_small x : 0 <= x < Word.modulus -> Word.to_size_t x = x.
Proof. intros H. unfold Word.to_size_t. now apply Z.mod_small. Qed.

Lemma to_int_small x : 0 <= x < 2 ^ 31 -> Word.to_int x = x.
Proof.
  intros H. unfold Word.to_int, Word.modulus.
  rewrite Z.mod_small by lia.
  destruct (Z.ltb_spec x (2 ^ 31)); lia.
Qed.

Lemma size_of_eq w : size_of w = 8 * (w / 8).
Proof.
  unfold size_of.
  change (Z.lnot 7) with (Z.lnot (Z.ones 3)).
  rewrite <- Z.ldiff_land, Z.ldiff_ones_r by lia.
  rewrite Z.shiftr_div_pow2, Z.shiftl_mul_pow2 by lia.
  change (2 ^ 3) with 8. lia.
Qed.

Lemma allocated_of_eq w : allocated_of w = w mod 2.
Proof.
  unfold allocated_of. change 1 with (Z.ones 1).
  now rewrite Z.land_ones by lia.
Qed.

Lemma lor_low (k b : Z) : 0 <= b < 8 -> Z.lor (8 * k) b = 8 * k + b.
Proof.
  intros Hb.
  assert (Hl : Z.land (8 * k) b = 0).
  { apply Z.bits_inj'. intros n Hn.
    rewrite Z.land_spec, Z.bits_0.
    destruct (Z.ltb_spec n 3) as [Hlt | Hge].
    - replace (8 * k) with (k * 2 ^ 3) by (change (2 ^ 3) with 8; lia).
      rewrite Z.mul_pow2_bits_low by lia. reflexivity.
    - rewrite (Z.bits_above_log2 b n), andb_false_r; try lia; trivial.
      destruct (Z.eq_dec b 0) as [-> | Hnz]; [simpl; lia |].
      apply Z.log2_lt_pow2; [lia |].
      apply Z.lt_le_trans with (2 ^ 3); [change (2 ^ 3) with 8; lia |].
      apply Z.pow_le_mono_r; lia. }
  pose proof (Z.add_lor_land (8 * k) b) as H.
  rewrite Hl in H. lia.
Qed.

Lemma PACK_eq (s a : Z) : s mod 8 = 0 -> PACK s a = s + a mod 2.
Proof.
  intros Hs. unfold PACK.
  fold (allocated_of a). rewrite allocated_of_eq.
  assert (Hk : s = 8 * (s / 8)) by (pose proof (Z.div_mod s 8); lia).
  rewrite Hk at 1. rewrite lor_low.
  - lia.
  - pose proof (Z.mod_pos_bound a 2); lia.
Qed.

Lemma size_of_PACK (s a : Z) : s mod 8 = 0 -> size_of (PACK s a) = s.
Proof.
  intros Hs. rewrite PACK_eq, size_of_eq by assumption.
  pose proof (Z.mod_pos_bound a 2 ltac:(lia)).
  pose proof (Z.div_mod s 8 ltac:(lia)).
  assert ((s + a mod 2) / 8 = s / 8); [| lia].
  symmetry. apply Z.div_unique with (r := a mod 2); lia.
Qed.

Lemma allocated_of_PACK (s a : Z) : s mod 8 = 0 -> allocated_of (PACK s a) = a mod 2.
Proof.
  intros Hs. rewrite PACK_eq, allocated_of_eq by assumption.
  pose proof (Z.div_mod s 8 ltac:(lia)).
  replace (s + a mod 2) with (a mod 2 + (4 * (s / 8)) * 2) by lia.
  rewrite Z.mod_add by lia. apply Z.mod_mod. lia.
Qed.


Lemma byte_at_range m a : 0 <= byte_at m a < 256.
Proof. unfold byte_at. apply Z.mod_pos_bound. lia. Qed.

Lemma GET_range m p : 0 <= GET m p < Word.modulus.
Proof.
  unfold GET, Word.modulus.
  pose proof (byte_at_range m p). pose proof (byte_at_range m (p + 1)).
  pose proof (byte_at_range m (p + 2)). pose proof (byte_at_range m (p + 3)).
  change (2 ^ 32) with 4294967296. lia.
Qed.

Lemma word_bytes v :
  v mod 256 + 256 * ((v / 256) mod 256) + 65536 * ((v / 65536) mod 256)
  + 16777216 * ((v / 16777216) mod 256) = v mod 4294967296.
Proof.
  pose proof (Z.div_mod v 256 ltac:(lia)) as H0.
  pose proof (Z.div_mod (v / 256) 256 ltac:(lia)) as H1.
  pose proof (Z.div_mod (v / 65536) 256 ltac:(lia)) as H2.
  pose proof (Z.div_mod (v / 16777216) 256 ltac:(lia)) as H3.
  replace (v / 65536) with (v / 256 / 256) in *
    by (rewrite Z.div_div by lia; reflexivity).
  replace (v / 16777216) with (v / 256 / 256 / 256) in *
    by (rewrite !Z.div_div by lia; reflexivity).
  pose proof (Z.mod_pos_bound v 256 ltac:(lia)).
  pose proof (Z.mod_pos_bound (v / 256) 256 ltac:(lia)).
  pose proof (Z.mod_pos_bound (v / 256 / 256) 256 ltac:(lia)).
  pose proof (Z.mod_pos_bound (v / 256 / 256 / 256) 256 ltac:(lia)).
  apply Z.mod_unique with (q := v / 256 / 256 / 256 / 256); lia.
Qed.

Lemma PUT_other m p v a : a < p \/ p + 4 <= a -> PUT m p v a = m a.
Proof.
  intros H. unfold PUT.
  destruct (Z.eqb_spec a p); [lia |].
  destruct (Z.eqb_spec a (p + 1)); [lia |].
  destruct (Z.eqb_spec a (p + 2)); [lia |].
  destruct (Z.eqb_spec a (p + 3)); [lia |].
  reflexivity.
Qed.

Lemma GET_ext m1 m2 p :
  (forall a, p <= a < p + 4 -> m1 a = m2 a) -> GET m1 p = GET m2 p.
Proof.
  intros H. unfold GET, byte_at.
  rewrite (H p), (H (p + 1)), (H (p + 2)), (H (p + 3)) by lia.
  reflexivity.
Qed.

Lemma GET_PUT_other m p v q :
  q + 4 <= p \/ p + 4 <= q -> GET (PUT m p v) q = GET m q.
Proof.
  intros H. apply GET_ext. intros a Ha. apply PUT_other. lia.
Qed.

Lemma GET_PUT_same m p v : GET (PUT m p v) p = Word.to_size_t v.
Proof.
  unfold GET, byte_at, PUT, Word.to_size_t, Word.modulus.
  rewrite Z.eqb_refl.
  destruct (Z.eqb_spec (p + 1) p); [lia |].
  destruct (Z.eqb_spec (p + 2) p); [lia |].
  destruct (Z.eqb_spec (p + 3) p); [lia |].
  rewrite Z.eqb_refl.
  destruct (Z.eqb_spec (p + 2) (p + 1)); [lia |].
  destruct (Z.eqb_spec (p + 3) (p + 1)); [lia |].
  rewrite Z.eqb_refl.
  destruct (Z.eqb_spec (p + 3) (p + 2)); [lia |].
  rewrite Z.eqb_refl.
  rewrite !Z.mod_mod by lia.
  apply word_bytes.
Qed.

Lemma GET_PUT_small m p v : 0 <= v < Word.modulus -> GET (PUT m p v) p = v.
Proof. intros H. rewrite GET_PUT_same. now apply to_size_t_small. Qed.

Lemma PACK_range s a :
  s mod 8 = 0 -> 0 <= s < Word.modulus -> 0 <= PACK s a < Word.modulus.
Proof.
  intros Hs Hr. rewrite PACK_eq by assumption.
  pose proof (Z.mod_pos_bound a 2 ltac:(lia)).
  pose proof (Z.div_mod s 8 ltac:(lia)).
  unfold Word.modulus in *. change (2 ^ 32) with 4294967296 in *. lia.
Qed.

Lemma GET_SIZE_PUT_PACK m p s a :
  s mod 8 = 0 -> 0 <= s < Word.modulus -> GET_SIZE (PUT m p (PACK s a)) p = s.
Proof.
  intros Hs Hr. unfold GET_SIZE.
  rewrite GET_PUT_small by (now apply PACK_range).
  now apply size_of_PACK.
Qed.

Lemma GET_ALLOC_PUT_PACK m p s a :
  s mod 8 = 0 -> 0 <= s < Word.modulus ->
  GET_ALLOC (PUT m p (PACK s a)) p = a mod 2.
Proof.
  intros Hs Hr. unfold GET_ALLOC.
  rewrite GET_PUT_small by (now apply PACK_range).
  now apply allocated_of_PACK.
Qed.

Lemma GET_SIZE_PUT_other m p v q :
  q + 4 <= p \/ p + 4 <= q -> GET_SIZE (PUT m p v) q = GET_SIZE m q.
Proof. intros H. unfold GET_SIZE. now rewrite GET_PUT_other. Qed.

Lemma GET_SIZE_range m p : 0 <= GET_SIZE m p < Word.modulus.
Proof.
  unfold GET_SIZE. rewrite size_of_eq.
  pose proof (GET_range m p) as H.
  pose proof (Z.div_mod (GET m p) 8 ltac:(lia)).
  pose proof (Z.mod_pos_bound (GET m p) 8 ltac:(lia)).
  split; [| lia].
  assert (0 <= GET m p / 8) by (apply Z.div_pos; lia). lia.
Qed.

Lemma GET_SIZE_mod8 m p : GET_SIZE m p mod 8 = 0.
Proof.
  unfold GET_SIZE. rewrite size_of_eq.
  rewrite Z.mul_comm. apply Z.mod_mul. lia.
Qed.

(** ** The block codec *)

(** C10: for a size [s] that is a multiple of 8, the packed word decodes to
    [s] and to the flag [a mod 2], and its bits 1 and 2 are zero; when [s] is
    a [size_t] value the same holds for the word written to and read back
    from the heap. *)
Theorem PACK_roundtrip (s a : Z) :
  0 <= s -> s mod 8 = 0 ->
  size_of (PACK s a) = s /\
  allocated_of (PACK s a) = a mod 2 /\
  Z.testbit (PACK s a) 1 = false /\
  Z.testbit (PACK s a) 2 = false /\
  (s < Word.modulus -> forall m p,
      GET_SIZE (PUT m p (PACK s a)) p = s /\
      GET_ALLOC (PUT m p (PACK s a)) p = a mod 2).
Proof.
  intros Hpos Hs.
  assert (Hbit : forall n, 1 <= n < 3 -> Z.testbit (PACK s a) n = false).
  { intros n Hn. unfold PACK.
    rewrite Z.lor_spec.
    assert (Hk : s = (s / 8) * 2 ^ 3)
      by (change (2 ^ 3) with 8; pose proof (Z.div_mod s 8); lia).
    rewrite Hk, Z.mul_pow2_bits_low by lia.
    change 1 with (Z.ones 1) at 1.
    rewrite Z.land_spec, Z.ones_spec_high by lia.
    now rewrite andb_false_r. }
  repeat split.
  - now apply size_of_PACK.
  - now apply allocated_of_PACK.
  - apply Hbit; lia.
  - apply Hbit; lia.
  - apply GET_SIZE_PUT_PACK; lia.
  - apply GET_ALLOC_PUT_PACK; lia.
Qed.

Lemma PACK_roundtrip_witness :
  size_of (PACK 24 1) = 24 /\ allocated_of (PACK 24 1) = 1 mod 2.
Proof.
  destruct (PACK_roundtrip 24 1) as (H1 & H2 & _); [lia | reflexivity |].
  split; [exact H1 | exact H2].
Defined.

(** ** Requests: adjusted size, invalid requests, reallocation failure *)

Lemma round_up_least (x d : Z) :
  0 < d ->
  x <= round_up x d /\ round_up x d mod d = 0 /\
  (forall y, x <= y -> y mod d = 0 -> round_up x d <= y).
Proof.
  intros Hd. unfold round_up.
  pose proof (Z.div_mod (x + d - 1) d ltac:(lia)) as Hdm.
  pose proof (Z.mod_pos_bound (x + d - 1) d Hd) as Hb.
  repeat split.
  - lia.
  - rewrite Z.mul_comm. apply Z.mod_mul. lia.
  - intros y Hy Hm.
    pose proof (Z.div_mod y d ltac:(lia)) as Hy'. rewrite Hm in Hy'.
    assert ((x + d - 1) / d < y / d + 1); [| nia].
    apply Z.div_lt_upper_bound; [lia |]. nia.
Qed.

(** C5 (amended): for a request [n] with [0 < n] whose sum [n + 15] does not
    wrap around in [size_t] arithmetic, the adjusted size of [mm_malloc] is
    the larger of the minimum block size (16) and [n + 8] rounded up to a
    multiple of 8. *)
Theorem adjust_size_spec (n : Z) :
  0 < n -> n + OVERHEAD + (DSIZE - 1) < Word.modulus ->
  MIN_BLOCK = 16 /\ OVERHEAD = 8 /\
  adjust_size n = Z.max MIN_BLOCK (round_up (n + OVERHEAD) DSIZE).
Proof.
  intros Hn Hw.
  split; [reflexivity |]. split; [reflexivity |].
  unfold adjust_size, round_up, MIN_BLOCK, OVERHEAD, DSIZE in *.
  unfold Word.mul, Word.add.
  unfold Word.modulus in Hw. change (2 ^ 32) with 4294967296 in Hw.
  destruct (Z.leb_spec n 8) as [Hle | Hgt].
  - assert (H : (n + 8 + 8 - 1) / 8 <= 2)
      by (apply Z.lt_succ_r, Z.div_lt_upper_bound; lia).
    lia.
  - rewrite (to_size_t_small (n + 8))
      by (unfold Word.modulus; change (2 ^ 32) with 4294967296; lia).
    rewrite (to_size_t_small (n + 8 + (8 - 1)))
      by (unfold Word.modulus; change (2 ^ 32) with 4294967296; lia).
    pose proof (Z.div_mod (n + 8 + (8 - 1)) 8 ltac:(lia)).
    pose proof (Z.mod_pos_bound (n + 8 + (8 - 1)) 8 ltac:(lia)).
    assert (3 <= (n + 8 + (8 - 1)) / 8)
      by (apply Z.div_le_lower_bound; lia).
    rewrite to_size_t_small
      by (unfold Word.modulus; change (2 ^ 32) with 4294967296; lia).
    replace (n + 8 + 8 - 1) with (n + 8 + (8 - 1)) by lia.
    lia.
Qed.

Lemma adjust_size_spec_witness :
  adjust_size 100 = Z.max MIN_BLOCK (round_up (100 + OVERHEAD) DSIZE).
Proof.
  apply (adjust_size_spec 100); [lia | vm_compute; reflexivity].
Defined.

(** The claim as written, for every [n > 0], fails at the largest [size_t]:
    the sum wraps around and the adjusted size is 8, below the minimum. *)
Lemma adjust_size_wraps :
  0 < 4294967295 /\
  adjust_size 4294967295 = 8 /\
  adjust_size 4294967295
    <> Z.max MIN_BLOCK (round_up (4294967295 + OVERHEAD) DSIZE).
Proof. repeat split; vm_compute; congruence. Qed.

(** C8 (amended): a request whose [size_t] value satisfies [size <= 0],
    which only 0 does, returns [NULL] and leaves the whole state, heap and
    printed output included, unchanged. *)
Theorem mm_malloc_invalid_request (fuel : nat) (size : Z) (st : state) :
  0 <= size < Word.modulus -> size <= 0 ->
  mm_malloc fuel size st = Ret None st /\ size = 0.
Proof.
  intros Hrange Hle.
  assert (E : size = 0) by lia. subst size.
  unfold mm_malloc. cbn [Z.leb Z.compare].
  split; reflexivity.
Qed.

Lemma mm_malloc_invalid_request_witness :
  mm_malloc 16 0 Run.after_init = Ret None Run.after_init.
Proof.
  destruct (mm_malloc_invalid_request 16 0 Run.after_init) as [H _].
  - vm_compute. split; congruence.
  - lia.
  - exact H.
Defined.

(** A negative signed size reaches [mm_malloc] as a [size_t]: -1 is
    4294967295, which passes the [size <= 0] test; on the initialised heap
    the call does not fail: it returns a block and rewrites the first
    header. *)
Lemma mm_malloc_negative_size :
  -1 <= 0 /\
  mm_malloc 16 (Word.to_size_t (-1)) Run.after_init <> Ret None Run.after_init /\
  returned (mm_malloc 16 (Word.to_size_t (-1)) Run.after_init)
    = Some (Some 4112) /\
  GET (heap Run.after_init) (HDRP 4112) = PACK 4096 0 /\
  GET (heap (Run.state_of (mm_malloc 16 (Word.to_size_t (-1)) Run.after_init)))
      (HDRP 4112) = PACK 8 1.
Proof.
  split; [lia |]. split.
  - intros H. apply (f_equal returned) in H. vm_compute in H. discriminate.
  - repeat split; vm_compute; congruence.
Qed.

(** C9: when the allocation made by [mm_realloc] fails, the process exits
    with status 1 after printing the error line; no value is returned. *)
Theorem mm_realloc_exits (fuel : nat) (ptr size : Z) (st st1 : state) :
  mm_malloc fuel size st = Ret None st1 ->
  mm_realloc fuel ptr size st = Exited 1 (print st1 realloc_error) /\
  returned (mm_realloc fuel ptr size st) = None /\
  exit_code (mm_realloc fuel ptr size st) = Some 1.
Proof.
  intros H. unfold mm_realloc. rewrite H. simpl. repeat split.
Qed.

Lemma mm_realloc_exits_witness :
  mm_realloc 16 4112 8000 Run.tight_one_block
    = Exited 1 (print Run.tight_one_block realloc_error) /\
  returned (mm_realloc 16 4112 8000 Run.tight_one_block) = None /\
  exit_code (mm_realloc 16 4112 8000 Run.tight_one_block) = Some 1.
Proof.
  apply (mm_realloc_exits 16 4112 8000 Run.tight_one_block Run.tight_one_block).
  vm_compute. reflexivity.
Defined.

(** ** First-fit search *)

Lemma GET_SIZE_pos_iff m p : (GET_SIZE m p >? 0) = negb (GET_SIZE m p =? 0).
Proof.
  pose proof (GET_SIZE_range m p).
  destruct (Z.gtb_spec (GET_SIZE m p) 0), (Z.eqb_spec (GET_SIZE m p) 0);
    simpl; trivial; lia.
Qed.

Lemma find_fit_loop_blocks (m : mem) (adjsize : Z) :
  forall fuel bp blocks,
    blocks_from fuel m bp = Some blocks ->
    forall fuel', (fuel <= fuel')%nat ->
      find_fit_loop fuel' m bp adjsize = Some (find (fits m adjsize) blocks).
Proof.
  induction fuel as [| fuel IH]; intros bp blocks Hb fuel' Hle; [discriminate |].
  destruct fuel' as [| fuel']; [lia |].
  simpl in Hb |- *. rewrite GET_SIZE_pos_iff.
  destruct (GET_SIZE m (HDRP bp) =? 0) eqn:Hz; simpl.
  - injection Hb as <-. reflexivity.
  - destruct (blocks_from fuel m (NEXT_BLKP m bp)) as [rest |] eqn:Hrest;
      [| discriminate].
    injection Hb as <-. simpl. unfold fits at 1, is_free.
    destruct ((GET_ALLOC m (HDRP bp) =? 0) && (adjsize <=? GET_SIZE m (HDRP bp)));
      [reflexivity |].
    apply (IH _ _ Hrest). lia.
Qed.

Lemma find_first {A : Type} (f : A -> bool) (l : list A) :
  match find f l with
  | Some x => exists pre post,
      l = pre ++ x :: post /\ f x = true /\ forallb (fun y => negb (f y)) pre = true
  | None => forallb (fun y => negb (f y)) l = true
  end.
Proof.
  induction l as [| y l IH]; simpl; [reflexivity |].
  destruct (f y) eqn:Hy.
  - exists [], l. auto.
  - destruct (find f l) as [x |].
    + destruct IH as (pre & post & -> & Hx & Hpre).
      exists (y :: pre), post. simpl. rewrite Hy. auto.
    + simpl. exact IH.
Qed.

(** C7: with the prologue header as [mm_init] writes it, and the blocks from
    the first real block to the epilogue being [blocks], [find_fit] (given
    more fuel than there are blocks) returns the first block of [blocks] that
    is free and of size at least [adjsize], every block before it failing the
    test, and [NULL] when no block of [blocks] passes it. *)
Theorem find_fit_first_fit (fuel fuel' : nat) (st : state) (adjsize : Z)
        (blocks : list Z) :
  GET (heap st) (HDRP (heap_listp st)) = PACK OVERHEAD 1 ->
  blocks_from fuel (heap st) (first_block st) = Some blocks ->
  (fuel < fuel')%nat ->
  exists r, find_fit fuel' st adjsize = Some r /\
    match r with
    | Some bp => exists pre post,
        blocks = pre ++ bp :: post /\
        GET_ALLOC (heap st) (HDRP bp) = 0 /\
        adjsize <= GET_SIZE (heap st) (HDRP bp) /\
        forallb (fun b => negb (fits (heap st) adjsize b)) pre = true
    | None => forallb (fun b => negb (fits (heap st) adjsize b)) blocks = true
    end.
Proof.
  intros Hpro Hblocks Hfuel.
  exists (find (fits (heap st) adjsize) blocks). split.
  - destruct fuel' as [| fuel'']; [lia |].
    unfold find_fit. simpl.
    assert (Hs : GET_SIZE (heap st) (HDRP (heap_listp st)) = 8)
      by (unfold GET_SIZE; rewrite Hpro; reflexivity).
    assert (Ha : GET_ALLOC (heap st) (HDRP (heap_listp st)) = 1)
      by (unfold GET_ALLOC; rewrite Hpro; reflexivity).
    assert (Hn : NEXT_BLKP (heap st) (heap_listp st) = first_block st)
      by (unfold NEXT_BLKP, first_block; fold (HDRP (heap_listp st));
          rewrite Hs; reflexivity).
    rewrite Hs, Ha, Hn. simpl.
    apply (find_fit_loop_blocks _ _ _ _ _ Hblocks). lia.
  - pose proof (find_first (fits (heap st) adjsize) blocks) as H.
    destruct (find (fits (heap st) adjsize) blocks) as [bp |]; [| exact H].
    destruct H as (pre & post & Heq & Hfit & Hpre).
    exists pre, post. unfold fits, is_free in Hfit.
    apply andb_true_iff in Hfit. destruct Hfit as [Hf Hsz].
    repeat split; trivial; [now apply Z.eqb_eq | now apply Z.leb_le].
Qed.

Lemma find_fit_first_fit_witness :
  exists r, find_fit 8 Run.two_freed 24 = Some r /\
    match r with
    | Some bp => exists pre post,
        [4112; 4128; 4144; 4160; 4176] = pre ++ bp :: post /\
        GET_ALLOC (heap Run.two_freed) (HDRP bp) = 0 /\
        24 <= GET_SIZE (heap Run.two_freed) (HDRP bp) /\
        forallb (fun b => negb (fits (heap Run.two_freed) 24 b)) pre = true
    | None =>
        forallb (fun b => negb (fits (heap Run.two_freed) 24 b))
                [4112; 4128; 4144; 4160; 4176] = true
    end.
Proof.
  apply (find_fit_first_fit 6 8 Run.two_freed 24 [4112; 4128; 4144; 4160; 4176]).
  - vm_compute; reflexivity.
  - vm_compute; reflexivity.
  - lia.
Defined.

(** On that heap a request of 24 bytes skips the two free blocks of 16 bytes
    and lands on the fifth block. *)
Lemma find_fit_skips_small_blocks :
  find_fit 8 Run.two_freed 24 = Some (Some 4176) /\
  find_fit 8 Run.two_freed 16 = Some (Some 4112) /\
  find_fit 8 Run.two_freed 8000 = Some None.
Proof. repeat split; vm_compute; reflexivity. Qed.

(** ** Writing a block's tags; placement *)

Ltac word_range :=
  unfold Word.modulus in *; change (2 ^ 32) with 4294967296 in *;
  unfold in_block, HDRP, MIN_BLOCK, OVERHEAD, DSIZE, WSIZE in *; lia.

Lemma write_block_spec (m : mem) (bp s al : Z) :
  s mod 8 = 0 -> 8 <= s < Word.modulus ->
  let m' := write_block m bp (PACK s al) in
  GET m' (HDRP bp) = PACK s al /\
  GET m' (bp + s - DSIZE) = PACK s al /\
  FTRP (PUT m (HDRP bp) (PACK s al)) bp = bp + s - DSIZE /\
  (forall a, ~ bp - WSIZE <= a < bp ->
             ~ bp + s - DSIZE <= a < bp + s - WSIZE -> m' a = m a).
Proof.
  intros Hs Hr m'.
  assert (Hf : FTRP (PUT m (HDRP bp) (PACK s al)) bp = bp + s - DSIZE).
  { unfold FTRP. rewrite GET_SIZE_PUT_PACK by word_range. reflexivity. }
  subst m'. unfold write_block. rewrite Hf.
  unfold HDRP, DSIZE, WSIZE in *.
  repeat split.
  - rewrite GET_PUT_other by lia.
    apply GET_PUT_small, PACK_range; word_range.
  - apply GET_PUT_small, PACK_range; word_range.
  - intros a H1 H2. rewrite !PUT_other by lia. reflexivity.
Qed.

Lemma GET_SIZE_of_tag m p s al :
  s mod 8 = 0 -> GET m p = PACK s al -> GET_SIZE m p = s.
Proof. intros Hs H. unfold GET_SIZE. rewrite H. now apply size_of_PACK. Qed.

Lemma GET_ALLOC_of_tag m p s al :
  s mod 8 = 0 -> GET m p = PACK s al -> GET_ALLOC m p = al mod 2.
Proof. intros Hs H. unfold GET_ALLOC. rewrite H. now apply allocated_of_PACK. Qed.

Lemma place_unfold (m : mem) (bp adjsize : Z) :
  place m bp adjsize =
  let chunksize := GET_SIZE m (HDRP bp) in
  if Word.sub chunksize adjsize >=? DSIZE + OVERHEAD then
    let m2 := write_block m bp (PACK adjsize 1) in
    write_block m2 (NEXT_BLKP m2 bp) (PACK (Word.sub chunksize adjsize) 0)
  else write_block m bp (PACK chunksize 1).
Proof. reflexivity. Qed.

(** C6: for a block of size [c] and an adjusted size [a] (a positive
    multiple of 8) with [a <= c], [place] splits exactly when
    [c - a >= 16]: the block at [bp] gets an allocated header and footer of
    size [a], and the block right after it, at [bp + a], a free header and
    footer of size [c - a], ending where the original block ended;
    otherwise the whole block is marked allocated at size [c].  In both
    cases no byte outside the original block is touched. *)
Theorem place_spec (m : mem) (bp a : Z) :
  let c := GET_SIZE m (HDRP bp) in
  let m' := place m bp a in
  0 < a -> a mod 8 = 0 -> a <= c ->
  (MIN_BLOCK <= c - a ->
     GET m' (HDRP bp) = PACK a 1 /\
     GET m' (FTRP m' bp) = PACK a 1 /\
     NEXT_BLKP m' bp = bp + a /\
     GET m' (HDRP (bp + a)) = PACK (c - a) 0 /\
     GET m' (FTRP m' (bp + a)) = PACK (c - a) 0 /\
     FTRP m' (bp + a) = bp + c - DSIZE) /\
  (c - a < MIN_BLOCK ->
     GET m' (HDRP bp) = PACK c 1 /\
     GET m' (FTRP m' bp) = PACK c 1 /\
     FTRP m' bp = bp + c - DSIZE) /\
  (forall x, ~ HDRP bp <= x < HDRP bp + c -> m' x = m x).
Proof.
  intros c m' Hpos Ha Hle.
  pose proof (GET_SIZE_range m (HDRP bp)) as Hc. fold c in Hc.
  pose proof (GET_SIZE_mod8 m (HDRP bp)) as Hc8. fold c in Hc8.
  assert (Ha8 : 8 <= a).
  { pose proof (Z.div_mod a 8 ltac:(lia)) as Hd. rewrite Ha in Hd.
    assert (0 < a / 8) by lia. lia. }
  assert (Hsub : Word.sub c a = c - a)
    by (unfold Word.sub; apply to_size_t_small; word_range).
  assert (Hrem8 : (c - a) mod 8 = 0).
  { pose proof (Z.div_mod a 8 ltac:(lia)) as Hd1.
    pose proof (Z.div_mod c 8 ltac:(lia)) as Hd2.
    rewrite Ha in Hd1. rewrite Hc8 in Hd2.
    replace (c - a) with ((c / 8 - a / 8) * 8) by lia.
    apply Z.mod_mul. lia. }
  subst m'. rewrite place_unfold. fold c. cbv zeta. rewrite Hsub.
  change (DSIZE + OVERHEAD) with MIN_BLOCK.
  destruct (Z.geb_spec (c - a) MIN_BLOCK) as [Hsplit | Hwhole].
  - (* split *)
    destruct (write_block_spec m bp a 1 Ha ltac:(word_range))
      as (Hh1 & Hf1 & _ & Hfr1).
    set (m2 := write_block m bp (PACK a 1)) in *.
    assert (Hnext : NEXT_BLKP m2 bp = bp + a).
    { unfold NEXT_BLKP. fold (HDRP bp).
      rewrite (GET_SIZE_of_tag _ _ _ _ Ha Hh1). reflexivity. }
    rewrite Hnext.
    destruct (write_block_spec m2 (bp + a) (c - a) 0 Hrem8 ltac:(word_range))
      as (Hh2 & Hf2 & _ & Hfr2).
    set (m3 := write_block m2 (bp + a) (PACK (c - a) 0)) in *.
    assert (Hh3 : GET m3 (HDRP bp) = PACK a 1).
    { rewrite <- Hh1. apply GET_ext. intros x Hx. apply Hfr2;
        unfold HDRP, MIN_BLOCK, OVERHEAD, DSIZE, WSIZE in *; lia. }
    assert (Hsz3 : GET_SIZE m3 (HDRP bp) = a)
      by (apply (GET_SIZE_of_tag _ _ _ _ Ha Hh3)).
    assert (Hsz4 : GET_SIZE m3 (HDRP (bp + a)) = c - a)
      by (apply (GET_SIZE_of_tag _ _ _ _ Hrem8 Hh2)).
    split; [| split].
    + intros _. unfold FTRP, NEXT_BLKP. fold (HDRP bp).
      rewrite Hsz3, Hsz4.
      repeat split; trivial.
      * rewrite <- Hf1. apply GET_ext. intros x Hx. apply Hfr2;
          unfold HDRP, MIN_BLOCK, OVERHEAD, DSIZE, WSIZE in *; lia.
      * lia.
    + intros Hlt. lia.
    + intros x Hx. rewrite Hfr2, Hfr1; trivial;
        unfold HDRP, MIN_BLOCK, OVERHEAD, DSIZE, WSIZE in *; lia.
  - (* no split *)
    destruct (write_block_spec m bp c 1 Hc8 ltac:(word_range))
      as (Hh1 & Hf1 & _ & Hfr1).
    set (m2 := write_block m bp (PACK c 1)) in *.
    assert (Hsz : GET_SIZE m2 (HDRP bp) = c)
      by (apply (GET_SIZE_of_tag _ _ _ _ Hc8 Hh1)).
    split; [| split].
    + intros Hge. lia.
    + intros _. unfold FTRP. rewrite Hsz. auto.
    + intros x Hx. rewrite Hfr1; trivial;
        unfold HDRP, MIN_BLOCK, OVERHEAD, DSIZE, WSIZE in *; lia.
Qed.

Lemma place_spec_witness :
  GET (place (heap Run.after_init) 4112 16) (HDRP 4112) = PACK 16 1 /\
  GET (place (heap Run.after_init) 4112 16) (HDRP (4112 + 16)) = PACK 4080 0.
Proof.
  destruct (place_spec (heap Run.after_init) 4112 16) as (H & _).
  - lia.
  - reflexivity.
  - vm_compute; congruence.
  - destruct H as (H1 & _ & _ & H4 & _); [vm_compute; congruence |].
    split; [exact H1 | exact H4].
Defined.

(** ** Coalescing *)

Section CoalesceBothFree.

Variables (m : mem) (bp P B N : Z).

Hypothesis HP8 : P mod 8 = 0.
Hypothesis HB8 : B mod 8 = 0.
Hypothesis HN8 : N mod 8 = 0.
Hypothesis HPmin : MIN_BLOCK <= P.
Hypothesis HBmin : MIN_BLOCK <= B.
Hypothesis HNmin : MIN_BLOCK <= N.
Hypothesis Hsum : P + B + N < Word.modulus.
(* previous block: free, size P *)
Hypothesis Hprev_hdr : GET m (HDRP (bp - P)) = PACK P 0.
Hypothesis Hprev_ftr : GET m (bp - DSIZE) = PACK P 0.
(* the block itself: just marked free, size B *)
Hypothesis Hown_hdr : GET m (HDRP bp) = PACK B 0.
(* next block: free, size N *)
Hypothesis Hnext_hdr : GET m (HDRP (bp + B)) = PACK N 0.
Hypothesis Hnext_ftr : GET m (bp + B + N - DSIZE) = PACK N 0.

Lemma both_free_prev : PREV_BLKP m bp = bp - P.
Proof.
  unfold PREV_BLKP. now rewrite (GET_SIZE_of_tag _ _ _ _ HP8 Hprev_ftr).
Qed.

Lemma both_free_next : NEXT_BLKP m bp = bp + B.
Proof.
  unfold NEXT_BLKP. fold (HDRP bp).
  now rewrite (GET_SIZE_of_tag _ _ _ _ HB8 Hown_hdr).
Qed.

Lemma both_free_flags :
  GET_ALLOC m (FTRP m (PREV_BLKP m bp)) = 0 /\
  GET_ALLOC m (HDRP (NEXT_BLKP m bp)) = 0.
Proof.
  rewrite both_free_prev, both_free_next. split.
  - unfold FTRP. rewrite (GET_SIZE_of_tag _ _ _ _ HP8 Hprev_hdr).
    replace (bp - P + P - DSIZE) with (bp - DSIZE) by lia.
    now rewrite (GET_ALLOC_of_tag _ _ _ _ HP8 Hprev_ftr).
  - now rewrite (GET_ALLOC_of_tag _ _ _ _ HN8 Hnext_hdr).
Qed.

(** C1, as the code has it: with both neighbours free, [coalesce] returns
    the previous block's position and writes the merged tag at the previous
    block's header and at the next block's old footer, but the size in that
    tag is previous + next: the size [B] of the block being freed is left
    out, so the merged block is not of size [P + B + N]. *)
Theorem coalesce_both_free_drops_own_size :
  fst (coalesce m bp) = bp - P /\
  GET (snd (coalesce m bp)) (HDRP (bp - P)) = PACK (P + N) 0 /\
  GET (snd (coalesce m bp)) (bp + B + N - DSIZE) = PACK (P + N) 0 /\
  GET_SIZE (snd (coalesce m bp)) (HDRP (fst (coalesce m bp))) = P + N /\
  GET_SIZE (snd (coalesce m bp)) (HDRP (fst (coalesce m bp))) <> P + B + N.
Proof.
  destruct both_free_flags as [Fp Fn].
  pose proof both_free_prev as Ep. pose proof both_free_next as En.
  assert (Efn : FTRP m (bp + B) = bp + B + N - DSIZE).
  { unfold FTRP. now rewrite (GET_SIZE_of_tag _ _ _ _ HN8 Hnext_hdr). }
  assert (Esz : Word.add (GET_SIZE m (HDRP (bp - P)))
                         (GET_SIZE m (bp + B + N - DSIZE)) = P + N).
  { rewrite (GET_SIZE_of_tag _ _ _ _ HP8 Hprev_hdr).
    rewrite (GET_SIZE_of_tag _ _ _ _ HN8 Hnext_ftr).
    unfold Word.add. apply to_size_t_small. word_range. }
  assert (HPN8 : (P + N) mod 8 = 0).
  { rewrite Z.add_mod, HP8, HN8 by lia. reflexivity. }
  unfold coalesce. rewrite Fp, Fn. simpl.
  rewrite Ep, En, Efn, Esz.
  set (v := PACK (P + N) 0).
  assert (Hv : 0 <= v < Word.modulus) by (apply PACK_range; word_range).
  set (m1 := PUT m (HDRP (bp - P)) v).
  assert (En1 : NEXT_BLKP m1 bp = bp + B).
  { rewrite <- En. unfold NEXT_BLKP, m1. f_equal.
    apply GET_SIZE_PUT_other. unfold HDRP; word_range. }
  assert (Ef1 : FTRP m1 (bp + B) = bp + B + N - DSIZE).
  { rewrite <- Efn. unfold FTRP, m1. do 2 f_equal.
    apply GET_SIZE_PUT_other. unfold HDRP; word_range. }
  rewrite En1, Ef1.
  set (m2 := PUT m1 (bp + B + N - DSIZE) v).
  assert (Ep2 : PREV_BLKP m2 bp = bp - P).
  { rewrite <- Ep. unfold PREV_BLKP, m2, m1. f_equal.
    rewrite !GET_SIZE_PUT_other; trivial; unfold HDRP; word_range. }
  rewrite Ep2.
  assert (Hh : GET m2 (HDRP (bp - P)) = v).
  { unfold m2. rewrite GET_PUT_other by (unfold HDRP; word_range).
    unfold m1. now apply GET_PUT_small. }
  assert (Hs : GET_SIZE m2 (HDRP (bp - P)) = P + N)
    by (apply (GET_SIZE_of_tag _ _ _ 0 HPN8 Hh)).
  repeat split; trivial.
  - unfold m2. now apply GET_PUT_small.
  - rewrite Hs. word_range.
Qed.

End CoalesceBothFree.

Lemma coalesce_both_free_witness :
  fst (coalesce Run.b_marked_free 4128) = 4128 - 16 /\
  GET (snd (coalesce Run.b_marked_free 4128)) (HDRP (4128 - 16))
    = PACK (16 + 16) 0 /\
  GET (snd (coalesce Run.b_marked_free 4128)) (4128 + 16 + 16 - DSIZE)
    = PACK (16 + 16) 0 /\
  GET_SIZE (snd (coalesce Run.b_marked_free 4128))
           (HDRP (fst (coalesce Run.b_marked_free 4128))) = 16 + 16 /\
  GET_SIZE (snd (coalesce Run.b_marked_free 4128))
           (HDRP (fst (coalesce Run.b_marked_free 4128))) <> 16 + 16 + 16.
Proof.
  apply (coalesce_both_free_drops_own_size Run.b_marked_free 4128 16 16 16);
    vm_compute; congruence.
Defined.

(** ** The heap after free(a); free(c); free(b) *)

(** Before the third [free] every block of the list passes the check of
    [checkblock] and no free block is followed by a free block. *)
Lemma two_freed_consistent :
  blocks_from 8 (heap Run.two_freed) (first_block Run.two_freed)
    = Some [Run.a; Run.b; Run.c; Run.d; 4176] /\
  forallb (header_matches_footer (heap Run.two_freed))
          [Run.a; Run.b; Run.c; Run.d; 4176] = true /\
  map (is_free (heap Run.two_freed)) [Run.a; Run.b; Run.c; Run.d; 4176]
    = [true; false; true; false; true].
Proof. repeat split; vm_compute; reflexivity. Qed.

(** C2, at the failing run: after [free(b)] returns, the first real block
    [a] is on the list from the first block to the epilogue, its header
    holds size 32 and the word at its footer position holds size 16:
    header and footer differ. *)
Theorem header_footer_differ_after_free :
  Run.a = first_block Run.three_freed /\
  blocks_from 8 (heap Run.three_freed) (first_block Run.three_freed)
    = Some [Run.a; Run.c; Run.d; 4176] /\
  GET (heap Run.three_freed) (HDRP Run.a) = PACK 32 0 /\
  GET (heap Run.three_freed) (FTRP (heap Run.three_freed) Run.a) = PACK 16 0 /\
  header_matches_footer (heap Run.three_freed) Run.a = false.
Proof. repeat split; vm_compute; reflexivity. Qed.

(** C3, at the failing run: after [free(b)] returns, block [a] is free and
    the block its next-block link leads to, [c], is free as well. *)
Theorem adjacent_free_after_free :
  NEXT_BLKP (heap Run.three_freed) Run.a = Run.c /\
  is_free (heap Run.three_freed) Run.a = true /\
  is_free (heap Run.three_freed) Run.c = true /\
  GET_SIZE (heap Run.three_freed) (HDRP Run.a) = 32 /\
  GET_SIZE (heap Run.three_freed) (HDRP Run.c) = 16.
Proof. repeat split; vm_compute; reflexivity. Qed.

(** ** Chains of blocks *)

Lemma total_app (l1 l2 : list block) : total (l1 ++ l2) = total l1 + total l2.
Proof. induction l1 as [| b l1 IH]; simpl; lia. Qed.

Lemma positions_app (bp : Z) (l1 l2 : list block) :
  positions bp (l1 ++ l2) = positions bp l1 ++ positions (bp + total l1) l2.
Proof.
  revert bp. induction l1 as [| b l1 IH]; intros bp; simpl.
  - f_equal. lia.
  - rewrite IH. do 3 f_equal. lia.
Qed.

Lemma chain_app (m : mem) (bp : Z) (l1 l2 : list block) :
  chain m bp (l1 ++ l2) <-> chain m bp l1 /\ chain m (bp + total l1) l2.
Proof.
  revert bp. induction l1 as [| b l1 IH]; intros bp; simpl.
  - rewrite Z.add_0_r. tauto.
  - rewrite IH. replace (bp + blk_size b + total l1)
      with (bp + (blk_size b + total l1)) by lia. tauto.
Qed.

Lemma chain_ok (m : mem) (bp : Z) (bs : list block) :
  chain m bp bs -> Forall block_ok bs.
Proof.
  revert bp. induction bs as [| b bs IH]; intros bp H; constructor.
  - apply H.
  - apply (IH (bp + blk_size b)), H.
Qed.

Lemma total_nonneg (bs : list block) : Forall block_ok bs -> 0 <= total bs.
Proof.
  induction 1 as [| b bs [Hb _] _ IH]; simpl; unfold MIN_BLOCK, OVERHEAD, DSIZE in *; lia.
Qed.

Lemma in_positions_split (bp p : Z) (b : block) (bs : list block) :
  In (p, b) (positions bp bs) ->
  exists pre post, bs = pre ++ b :: post /\ p = bp + total pre.
Proof.
  revert bp. induction bs as [| b0 bs IH]; intros bp Hin; simpl in Hin; [tauto |].
  destruct Hin as [Heq | Hin].
  - injection Heq as <- <-. exists [], bs. simpl. split; [reflexivity | lia].
  - destruct (IH _ Hin) as (pre & post & -> & ->).
    exists (b0 :: pre), post. simpl. split; [reflexivity | lia].
Qed.

Lemma in_positions_mid (bp : Z) (b : block) (pre post : list block) :
  In (bp + total pre, b) (positions bp (pre ++ b :: post)).
Proof.
  rewrite positions_app. apply in_or_app. right. simpl. auto.
Qed.

Lemma in_positions_range (bp p : Z) (b : block) (bs : list block) :
  Forall block_ok bs -> In (p, b) (positions bp bs) ->
  block_ok b /\ bp <= p /\ p + blk_size b <= bp + total bs.
Proof.
  intros Hok Hin.
  destruct (in_positions_split _ _ _ _ Hin) as (pre & post & -> & ->).
  apply Forall_app in Hok. destruct Hok as [Hpre Hpost].
  inversion Hpost as [| ? ? Hb Hpost']; subst.
  pose proof (total_nonneg _ Hpre). pose proof (total_nonneg _ Hpost').
  rewrite total_app. simpl. repeat split; try apply Hb; lia.
Qed.

Lemma positions_apart (bp p1 p2 : Z) (b1 b2 : block) (bs : list block) :
  Forall block_ok bs ->
  In (p1, b1) (positions bp bs) -> In (p2, b2) (positions bp bs) ->
  (p1 = p2 /\ b1 = b2) \/
  p1 + blk_size b1 <= p2 \/ p2 + blk_size b2 <= p1.
Proof.
  revert bp. induction bs as [| b bs IH]; intros bp Hok H1 H2; [contradiction |].
  inversion Hok as [| ? ? Hb Hok']; subst.
  simpl in H1, H2.
  destruct H1 as [E1 | H1], H2 as [E2 | H2].
  - left. split; congruence.
  - injection E1 as <- <-.
    destruct (in_positions_range _ _ _ _ Hok' H2) as (_ & Hlo & _). right. left. lia.
  - injection E2 as <- <-.
    destruct (in_positions_range _ _ _ _ Hok' H1) as (_ & Hlo & _). right. right. lia.
  - apply (IH _ Hok' H1 H2).
Qed.

Lemma chain_frame (m m' : mem) (bp : Z) (bs : list block) :
  chain m bp bs ->
  (forall p b, In (p, b) (positions bp bs) ->
               GET m' (HDRP p) = GET m (HDRP p) /\
               GET m' (p + blk_size b - DSIZE) = GET m (p + blk_size b - DSIZE)) ->
  chain m' bp bs.
Proof.
  revert bp. induction bs as [| b bs IH]; intros bp Hc Hfr; simpl; [trivial |].
  destruct Hc as (Hok & Hh & Hf & Hc).
  destruct (Hfr bp b (or_introl eq_refl)) as [Eh Ef].
  repeat split; try apply Hok; try congruence.
  apply IH; [exact Hc |].
  intros p b' Hin. apply Hfr. right. exact Hin.
Qed.

Lemma chain_frame_bytes (m m' : mem) (bp : Z) (bs : list block) :
  chain m bp bs ->
  (forall x, HDRP bp <= x < HDRP (bp + total bs) -> m' x = m x) ->
  chain m' bp bs.
Proof.
  intros Hc Hfr. apply (chain_frame m); [exact Hc |].
  intros p b Hin.
  destruct (in_positions_range _ _ _ _ (chain_ok _ _ _ Hc) Hin) as ([Hmin _] & Hlo & Hhi).
  split; apply GET_ext; intros x Hx; apply Hfr;
    unfold HDRP, MIN_BLOCK, OVERHEAD, DSIZE, WSIZE in *; lia.
Qed.

Lemma chain_at (m : mem) (bp : Z) (bs : list block) (p : Z) (b : block) :
  chain m bp bs -> In (p, b) (positions bp bs) ->
  block_ok b /\ GET m (HDRP p) = tag b /\ GET m (p + blk_size b - DSIZE) = tag b.
Proof.
  intros Hc Hin.
  destruct (in_positions_split _ _ _ _ Hin) as (pre & post & -> & ->).
  apply chain_app in Hc. destruct Hc as [_ (Hok & Hh & Hf & _)]. auto.
Qed.

Lemma tag_size (m : mem) (p : Z) (b : block) :
  block_ok b -> GET m p = tag b -> GET_SIZE m p = blk_size b.
Proof. intros [_ H8] H. apply (GET_SIZE_of_tag _ _ _ _ H8 H). Qed.

Lemma tag_alloc (m : mem) (p : Z) (b : block) :
  block_ok b -> GET m p = tag b -> GET_ALLOC m p = flag (blk_alloc b).
Proof.
  intros [_ H8] H. rewrite (GET_ALLOC_of_tag _ _ _ _ H8 H).
  destruct (blk_alloc b); reflexivity.
Qed.

(** ** Coalescing, seen from one block and its two neighbours *)

Section CoalesceLocal.

Variables (m : mem) (bp P pa B N na : Z).

Hypothesis HP8 : P mod 8 = 0.
Hypothesis HPmin : 8 <= P.
Hypothesis HB8 : B mod 8 = 0.
Hypothesis HBmin : 8 <= B.
Hypothesis HN8 : N mod 8 = 0.
Hypothesis HNmin : 0 <= N.
Hypothesis Hpa : pa = 0 \/ pa = 1.
Hypothesis Hna : na = 0 \/ na = 1.
Hypothesis Hsum : P + B + N < Word.modulus.
(* previous block (or prologue): size P, flag pa *)
Hypothesis Hprev_hdr : GET m (HDRP (bp - P)) = PACK P pa.
Hypothesis Hprev_ftr : GET m (bp - DSIZE) = PACK P pa.
(* the block itself, already marked free: size B *)
Hypothesis Hown_hdr : GET m (HDRP bp) = PACK B 0.
(* next block (or epilogue): size N, flag na *)
Hypothesis Hnext_hdr : GET m (HDRP (bp + B)) = PACK N na.

Lemma local_prev : PREV_BLKP m bp = bp - P.
Proof. unfold PREV_BLKP. now rewrite (GET_SIZE_of_tag _ _ _ _ HP8 Hprev_ftr). Qed.

Lemma local_next : NEXT_BLKP m bp = bp + B.
Proof.
  unfold NEXT_BLKP. fold (HDRP bp).
  now rewrite (GET_SIZE_of_tag _ _ _ _ HB8 Hown_hdr).
Qed.

Lemma local_prev_alloc : GET_ALLOC m (FTRP m (PREV_BLKP m bp)) = pa.
Proof.
  rewrite local_prev. unfold FTRP.
  rewrite (GET_SIZE_of_tag _ _ _ _ HP8 Hprev_hdr).
  replace (bp - P + P - DSIZE) with (bp - DSIZE) by lia.
  rewrite (GET_ALLOC_of_tag _ _ _ _ HP8 Hprev_ftr).
  destruct Hpa; subst; reflexivity.
Qed.

Lemma local_next_alloc : GET_ALLOC m (HDRP (NEXT_BLKP m bp)) = na.
Proof.
  rewrite local_next. rewrite (GET_ALLOC_of_tag _ _ _ _ HN8 Hnext_hdr).
  destruct Hna; subst; reflexivity.
Qed.

Lemma local_size : GET_SIZE m (HDRP bp) = B.
Proof. apply (GET_SIZE_of_tag _ _ _ _ HB8 Hown_hdr). Qed.

Lemma coalesce_case1 : pa = 1 -> na = 1 -> coalesce m bp = (bp, m).
Proof.
  intros Epa Ena. unfold coalesce.
  rewrite local_prev_alloc, local_next_alloc, Epa, Ena. reflexivity.
Qed.

Lemma coalesce_case3 :
  pa = 0 -> na = 1 ->
  coalesce m bp =
  (bp - P,
   PUT (PUT m (bp + B - DSIZE) (PACK (B + P) 0)) (HDRP (bp - P)) (PACK (B + P) 0)).
Proof.
  intros Epa Ena. unfold coalesce.
  rewrite local_prev_alloc, local_next_alloc, Epa, Ena. simpl.
  rewrite local_size, local_prev.
  rewrite (GET_SIZE_of_tag _ _ _ _ HP8 Hprev_hdr).
  assert (Ef : FTRP m bp = bp + B - DSIZE)
    by (unfold FTRP; now rewrite local_size).
  rewrite Ef.
  assert (Ea : Word.add B P = B + P)
    by (unfold Word.add; apply to_size_t_small; word_range).
  rewrite Ea.
  set (v := PACK (B + P) 0).
  set (m1 := PUT m (bp + B - DSIZE) v).
  assert (Ep1 : PREV_BLKP m1 bp = bp - P).
  { rewrite <- local_prev. unfold PREV_BLKP, m1. f_equal.
    apply GET_SIZE_PUT_other. word_range. }
  rewrite Ep1.
  set (m2 := PUT m1 (HDRP (bp - P)) v).
  assert (Ep2 : PREV_BLKP m2 bp = bp - P).
  { rewrite <- Ep1. unfold PREV_BLKP, m2. f_equal.
    apply GET_SIZE_PUT_other. unfold HDRP. word_range. }
  rewrite Ep2. reflexivity.
Qed.

Lemma coalesce_case2 :
  pa = 1 -> na = 0 ->
  coalesce m bp = (bp, write_block m bp (PACK (B + N) 0)).
Proof.
  intros Epa Ena. unfold coalesce.
  rewrite local_prev_alloc, local_next_alloc, Epa, Ena. simpl.
  rewrite local_size, local_next.
  rewrite (GET_SIZE_of_tag _ _ _ _ HN8 Hnext_hdr).
  assert (Ea : Word.add B N = B + N)
    by (unfold Word.add; apply to_size_t_small; word_range).
  rewrite Ea. reflexivity.
Qed.

(** Whatever the case, [coalesce] writes only inside the block itself,
    inside the previous block when that one is free, and inside the next
    block when that one is free. *)
Lemma coalesce_frame (x : Z) :
  ~ (HDRP bp <= x < HDRP bp + B) ->
  (pa = 0 -> ~ (HDRP (bp - P) <= x < HDRP (bp - P) + P)) ->
  (na = 0 -> ~ (HDRP (bp + B) <= x < HDRP (bp + B) + N)) ->
  snd (coalesce m bp) x = m x.
Proof.
  intros Hown Hprev Hnext.
  assert (Ef : FTRP m bp = bp + B - DSIZE)
    by (unfold FTRP; now rewrite local_size).
  destruct Hpa as [Epa | Epa], Hna as [Ena | Ena].
  - (* both free *)
    specialize (Hprev Epa). specialize (Hnext Ena).
    unfold coalesce. rewrite local_prev_alloc, local_next_alloc, Epa, Ena.
    simpl.
    rewrite local_prev, local_next.
    set (v := PACK _ 0).
    set (m1 := PUT m (HDRP (bp - P)) v).
    assert (En1 : NEXT_BLKP m1 bp = bp + B).
    { rewrite <- local_next. unfold NEXT_BLKP, m1. f_equal.
      apply GET_SIZE_PUT_other. unfold HDRP; word_range. }
    assert (Ef1 : FTRP m1 (bp + B) = bp + B + N - DSIZE).
    { unfold FTRP, m1. rewrite GET_SIZE_PUT_other by (unfold HDRP; word_range).
      now rewrite (GET_SIZE_of_tag _ _ _ _ HN8 Hnext_hdr). }
    rewrite En1, Ef1. unfold m1.
    rewrite !PUT_other; trivial; unfold HDRP in *; word_range.
  - (* previous free *)
    rewrite (coalesce_case3 Epa Ena). simpl.
    specialize (Hprev Epa).
    rewrite !PUT_other; trivial; unfold HDRP in *; word_range.
  - (* next free *)
    specialize (Hnext Ena).
    unfold coalesce. rewrite local_prev_alloc, local_next_alloc, Epa, Ena.
    simpl.
    rewrite local_size, local_next.
    rewrite (GET_SIZE_of_tag _ _ _ _ HN8 Hnext_hdr).
    assert (Ea : Word.add B N = B + N)
      by (unfold Word.add; apply to_size_t_small; word_range).
    rewrite Ea.
    assert (H8 : (B + N) mod 8 = 0)
      by (rewrite Z.add_mod, HB8, HN8 by lia; reflexivity).
    destruct (write_block_spec m bp (B + N) 0 H8 ltac:(word_range))
      as (_ & _ & _ & Hfr).
    unfold write_block in Hfr. cbv zeta in Hfr.
    apply Hfr; unfold HDRP in *; word_range.
  - (* both allocated *)
    rewrite (coalesce_case1 Epa Ena). reflexivity.
Qed.

End CoalesceLocal.

(** ** Neighbours in a well-formed heap *)

Lemma last_case {A : Type} (l : list A) : l = [] \/ exists l' x, l = l' ++ [x].
Proof.
  destruct l as [| a l]; [now left | right].
  destruct (exists_last (l := a :: l)) as (l' & x & ->); [discriminate |].
  eauto.
Qed.

Lemma flag_cases (al : bool) : flag al = 0 \/ flag al = 1.
Proof. destruct al; simpl; auto. Qed.

Lemma flag_false (al : bool) : flag al = 0 -> al = false.
Proof. destruct al; simpl; [discriminate | reflexivity]. Qed.

Lemma block_eta (b : block) : b = mkBlock (blk_size b) (blk_alloc b).
Proof. destruct b; reflexivity. Qed.

Lemma well_formed_sizes (st : state) (bs : list block) :
  well_formed st bs ->
  Forall block_ok bs /\ 0 <= total bs /\ OVERHEAD + total bs < Word.modulus.
Proof.
  intros (_ & _ & Hc & Htot & _ & Hlo & Hbrk & Hmax).
  pose proof (chain_ok _ _ _ Hc) as Hok.
  pose proof (total_nonneg _ Hok).
  unfold first_block in Htot. repeat split; trivial. word_range.
Qed.

(** What lies just before the boundary between [pre] and [rest]: the last
    block of [pre], or the prologue. *)
Lemma prev_tags (st : state) (pre rest : list block) :
  well_formed st (pre ++ rest) ->
  exists P pa,
    P mod 8 = 0 /\ 8 <= P /\ (pa = 0 \/ pa = 1) /\ P <= OVERHEAD + total pre /\
    GET (heap st) (HDRP (first_block st + total pre - P)) = PACK P pa /\
    GET (heap st) (first_block st + total pre - DSIZE) = PACK P pa /\
    (pa = 0 -> exists pre', pre = pre' ++ [mkBlock P false]).
Proof.
  intros Hwf.
  destruct (well_formed_sizes _ _ Hwf) as (Hok & _ & _).
  destruct Hwf as (Hph & Hpf & Hc & _).
  set (fb := first_block st) in *.
  apply Forall_app in Hok. destruct Hok as [Hokpre _].
  apply chain_app in Hc. destruct Hc as [Hcpre _].
  destruct (last_case pre) as [-> | (pre' & Pb & ->)].
  - exists OVERHEAD, 1. cbn [total].
    replace (fb + 0 - OVERHEAD) with (heap_listp st)
      by (unfold fb, first_block, OVERHEAD, DSIZE; lia).
    replace (fb + 0 - DSIZE) with (heap_listp st)
      by (unfold fb, first_block, DSIZE; lia).
    split; [reflexivity |]. split; [unfold OVERHEAD; lia |].
    split; [now right |]. split; [lia |].
    split; [exact Hph |]. split; [exact Hpf |]. intros; lia.
  - apply chain_app in Hcpre. destruct Hcpre as [_ ([HminP H8P] & HhP & HfP & _)].
    apply Forall_app in Hokpre. destruct Hokpre as [Hokpre' _].
    pose proof (total_nonneg _ Hokpre').
    rewrite total_app. cbn [total]. rewrite Z.add_0_r.
    exists (blk_size Pb), (flag (blk_alloc Pb)).
    replace (fb + (total pre' + blk_size Pb) - blk_size Pb)
      with (fb + total pre') by lia.
    replace (fb + (total pre' + blk_size Pb) - DSIZE)
      with (fb + total pre' + blk_size Pb - DSIZE) by lia.
    split; [exact H8P |].
    split; [unfold MIN_BLOCK, OVERHEAD, DSIZE in *; lia |].
    split; [apply flag_cases |].
    split; [unfold OVERHEAD; lia |].
    split; [exact HhP |]. split; [exact HfP |].
    intros Hfree. apply flag_false in Hfree.
    exists pre'. now rewrite <- Hfree, <- block_eta.
Qed.

(** What lies just after the boundary between [pre] and [post]: the first
    block of [post], or the epilogue. *)
Lemma next_tags (st : state) (pre post : list block) :
  well_formed st (pre ++ post) ->
  exists N na,
    N mod 8 = 0 /\ 0 <= N /\ (na = 0 \/ na = 1) /\ N <= total post /\
    GET (heap st) (HDRP (first_block st + total pre)) = PACK N na /\
    (na = 0 -> exists post', post = mkBlock N false :: post').
Proof.
  intros Hwf.
  destruct (well_formed_sizes _ _ Hwf) as (Hok & _ & _).
  destruct Hwf as (_ & _ & Hc & Htot & Hep & _).
  set (fb := first_block st) in *.
  apply Forall_app in Hok. destruct Hok as [_ Hokpost].
  apply chain_app in Hc. destruct Hc as [_ Hcpost].
  rewrite total_app in Htot.
  destruct post as [| Nb post'].
  - exists 0, 1. cbn [total] in *.
    replace (fb + total pre) with (mem_brk st) by lia.
    split; [reflexivity |]. split; [lia |]. split; [now right |].
    split; [lia |]. split; [exact Hep |]. intros; lia.
  - cbn [chain] in Hcpost. destruct Hcpost as ([HminN H8N] & HhN & _).
    inversion Hokpost as [| ? ? _ Hokpost']; subst.
    pose proof (total_nonneg _ Hokpost').
    exists (blk_size Nb), (flag (blk_alloc Nb)). cbn [total].
    split; [exact H8N |].
    split; [unfold MIN_BLOCK, OVERHEAD, DSIZE in *; lia |].
    split; [apply flag_cases |]. split; [lia |]. split; [exact HhN |].
    intros Hfree. apply flag_false in Hfree.
    exists post'. now rewrite <- Hfree, <- block_eta.
Qed.

(** The local picture around a block of a well-formed heap: the tags of the
    previous block (or the prologue) and of the next block (or the epilogue),
    and the shape of the list when a neighbour is free. *)
Lemma neighbours_shape (st : state) (pre post : list block) (b : block) :
  well_formed st (pre ++ b :: post) ->
  exists P pa N na,
    P mod 8 = 0 /\ 8 <= P /\ N mod 8 = 0 /\ 0 <= N /\
    (pa = 0 \/ pa = 1) /\ (na = 0 \/ na = 1) /\
    P + blk_size b + N < Word.modulus /\
    GET (heap st) (HDRP (first_block st + total pre - P)) = PACK P pa /\
    GET (heap st) (first_block st + total pre - DSIZE) = PACK P pa /\
    GET (heap st) (HDRP (first_block st + total pre + blk_size b)) = PACK N na /\
    (pa = 0 -> exists pre', pre = pre' ++ [mkBlock P false]) /\
    (na = 0 -> exists post', post = mkBlock N false :: post').
Proof.
  intros Hwf.
  destruct (well_formed_sizes _ _ Hwf) as (Hok & _ & Hbound).
  destruct (prev_tags st pre (b :: post) Hwf)
    as (P & pa & HP8 & HPmin & Hpa & HPle & HPh & HPf & HPshape).
  assert (Hwf' : well_formed st ((pre ++ [b]) ++ post))
    by (rewrite <- app_assoc; exact Hwf).
  destruct (next_tags st (pre ++ [b]) post Hwf')
    as (N & na & HN8 & HNmin & Hna & HNle & HNh & HNshape).
  rewrite total_app in HNh. cbn [total] in HNh.
  rewrite Z.add_0_r, Z.add_assoc in HNh.
  rewrite total_app in Hbound. cbn [total] in Hbound.
  apply Forall_app in Hok. destruct Hok as [Hokpre _].
  pose proof (total_nonneg _ Hokpre).
  exists P, pa, N, na.
  split; [exact HP8 |]. split; [exact HPmin |]. split; [exact HN8 |].
  split; [exact HNmin |]. split; [exact Hpa |]. split; [exact Hna |].
  split; [unfold OVERHEAD in *; lia |].
  split; [exact HPh |]. split; [exact HPf |]. split; [exact HNh |].
  split; assumption.
Qed.

Lemma neighbours (st : state) (bs : list block) (p : Z) (b : block) :
  well_formed st bs ->
  In (p, b) (positions (first_block st) bs) ->
  exists P pa N na,
    P mod 8 = 0 /\ 8 <= P /\ N mod 8 = 0 /\ 0 <= N /\
    (pa = 0 \/ pa = 1) /\ (na = 0 \/ na = 1) /\
    P + blk_size b + N < Word.modulus /\
    GET (heap st) (HDRP (p - P)) = PACK P pa /\
    GET (heap st) (p - DSIZE) = PACK P pa /\
    GET (heap st) (HDRP (p + blk_size b)) = PACK N na /\
    (pa = 0 -> In (p - P, mkBlock P false) (positions (first_block st) bs)) /\
    (na = 0 -> In (p + blk_size b, mkBlock N false) (positions (first_block st) bs)).
Proof.
  intros Hwf Hin.
  destruct (in_positions_split _ _ _ _ Hin) as (pre & post & -> & ->).
  destruct (neighbours_shape st pre post b Hwf)
    as (P & pa & N & na & HP8 & HPmin & HN8 & HNmin & Hpa & Hna & Hsum
        & HPh & HPf & HNh & HPshape & HNshape).
  exists P, pa, N, na.
  split; [exact HP8 |]. split; [exact HPmin |]. split; [exact HN8 |].
  split; [exact HNmin |]. split; [exact Hpa |]. split; [exact Hna |].
  split; [exact Hsum |].
  split; [exact HPh |]. split; [exact HPf |]. split; [exact HNh |].
  split.
  - intros E. destruct (HPshape E) as (pre' & ->).
    rewrite total_app. cbn [total blk_size].
    replace (first_block st + (total pre' + (P + 0)) - P)
      with (first_block st + total pre') by lia.
    rewrite <- app_assoc. apply in_positions_mid.
  - intros E. destruct (HNshape E) as (post' & ->).
    replace (pre ++ b :: mkBlock N false :: post')
      with ((pre ++ [b]) ++ mkBlock N false :: post')
      by (rewrite <- app_assoc; reflexivity).
    replace (first_block st + total pre + blk_size b)
      with (first_block st + total (pre ++ [b]))
      by (rewrite total_app; cbn [total]; lia).
    apply in_positions_mid.
Qed.

Ltac addr := unfold in_block, HDRP, MIN_BLOCK, OVERHEAD, DSIZE, WSIZE in *; lia.

Lemma write_block_GET_other (m : mem) (bp s al q : Z) :
  s mod 8 = 0 -> 8 <= s < Word.modulus ->
  q + 4 <= HDRP bp \/ (bp <= q /\ q + 4 <= bp + s - DSIZE) \/ bp + s - WSIZE <= q ->
  GET (write_block m bp (PACK s al)) q = GET m q.
Proof.
  intros H8 Hr Hq.
  destruct (write_block_spec m bp s al H8 Hr) as (_ & _ & _ & Hfr).
  apply GET_ext. intros x Hx. apply Hfr; addr.
Qed.

(** [mm_free] leaves every other allocated block of a well-formed heap
    untouched, header, payload and footer. *)
Lemma mm_free_frame (st : state) (bs : list block) (ptr sz : Z) :
  well_formed st bs -> live st bs ptr sz ->
  forall q A x,
    In (q, A) (positions (first_block st) bs) ->
    blk_alloc A = true -> q <> ptr -> in_block q A x ->
    heap (mm_free ptr st) x = heap st x.
Proof.
  intros Hwf Hlive q A x HinA HallocA Hne Hx.
  destruct (well_formed_sizes _ _ Hwf) as (Hok & _ & Hbound).
  destruct (neighbours _ _ _ _ Hwf Hlive)
    as (P & pa & N & na & HP8 & HPmin & HN8 & HNmin & Hpa & Hna & Hsum
        & HPh & HPf & HNh & HPin & HNin).
  cbn [blk_size] in *.
  assert (Hc : chain (heap st) (first_block st) bs) by apply Hwf.
  destruct (chain_at _ _ _ _ _ Hc Hlive) as ([Hmin H8] & Hh & _).
  cbn [blk_size] in *.
  (* where x lies *)
  assert (Hown : ~ in_block ptr (mkBlock sz true) x).
  { destruct (positions_apart _ _ _ _ _ _ Hok HinA Hlive) as [[E _] | Hd];
      [contradiction | cbn [blk_size] in Hd; unfold in_block; cbn [blk_size]; addr]. }
  assert (Hprev : pa = 0 -> ~ in_block (ptr - P) (mkBlock P false) x).
  { intros E. specialize (HPin E).
    destruct (positions_apart _ _ _ _ _ _ Hok HinA HPin) as [[_ E'] | Hd];
      [subst A; discriminate | cbn [blk_size] in Hd; unfold in_block; cbn [blk_size]; addr]. }
  assert (Hnext : na = 0 -> ~ in_block (ptr + sz) (mkBlock N false) x).
  { intros E. specialize (HNin E).
    destruct (positions_apart _ _ _ _ _ _ Hok HinA HNin) as [[_ E'] | Hd];
      [subst A; discriminate | cbn [blk_size] in Hd; unfold in_block; cbn [blk_size]; addr]. }
  unfold in_block in Hown, Hprev, Hnext. cbn [blk_size] in Hown, Hprev, Hnext.
  (* the two writes of mm_free, then coalesce *)
  unfold mm_free. cbn [heap set_heap].
  rewrite (GET_SIZE_of_tag _ _ _ _ H8 Hh).
  change (PUT (PUT (heap st) (HDRP ptr) (PACK sz 0))
              (FTRP (PUT (heap st) (HDRP ptr) (PACK sz 0)) ptr) (PACK sz 0))
    with (write_block (heap st) ptr (PACK sz 0)).
  assert (Hr : 8 <= sz < Word.modulus) by word_range.
  destruct (write_block_spec (heap st) ptr sz 0 H8 Hr) as (Hh1 & _ & _ & Hfr).
  set (m1 := write_block (heap st) ptr (PACK sz 0)) in *.
  rewrite (coalesce_frame m1 ptr P pa sz N na); trivial.
  - apply Hfr; addr.
  - word_range.
  - unfold m1. rewrite write_block_GET_other; trivial. addr.
  - unfold m1. rewrite write_block_GET_other; trivial. addr.
  - unfold m1. rewrite write_block_GET_other; trivial. addr.
Qed.

(** Copying into the payload of an allocated block keeps the heap
    well formed. *)
Lemma memcpy_well_formed (st : state) (bs : list block) (dst nsz src n : Z) :
  well_formed st bs -> live st bs dst nsz -> n <= nsz - OVERHEAD ->
  well_formed (set_heap st (memcpy (heap st) dst src n)) bs.
Proof.
  intros Hwf Hlive Hn.
  destruct (well_formed_sizes _ _ Hwf) as (Hok & _ & _).
  destruct Hwf as (Hph & Hpf & Hc & Htot & Hep & Hlo & Hbrk & Hmax).
  destruct (in_positions_range _ _ _ _ Hok Hlive) as ([Hmin _] & Hlo' & Hhi').
  cbn [blk_size] in *.
  assert (Hout : forall x, x < dst \/ dst + nsz - OVERHEAD <= x ->
                           memcpy (heap st) dst src n x = heap st x).
  { intros x Hx. unfold memcpy.
    destruct (Z.leb_spec dst x), (Z.ltb_spec x (dst + n)); simpl; trivial; lia. }
  unfold well_formed, first_block in *. cbn [heap set_heap heap_listp mem_brk mem_max_addr].
  repeat split; trivial.
  - rewrite <- Hph. apply GET_ext. intros x Hx. apply Hout. addr.
  - rewrite <- Hpf. apply GET_ext. intros x Hx. apply Hout. addr.
  - apply (chain_frame _ _ _ _ Hc). intros p b Hin.
    destruct (in_positions_range _ _ _ _ Hok Hin) as ([Hminb _] & _ & _).
    destruct (positions_apart _ _ _ _ _ _ Hok Hin Hlive) as [[-> ->] | Hd];
      cbn [blk_size] in *;
      split; apply GET_ext; intros x Hx; apply Hout; addr.
  - rewrite <- Hep. apply GET_ext. intros x Hx. apply Hout. addr.
Qed.

(** ** Search and placement in a well-formed heap *)

Lemma find_fit_loop_chain (m : mem) (adjsize : Z) (bs : list block) :
  forall bp fuel p,
    chain m bp bs ->
    GET m (HDRP (bp + total bs)) = PACK 0 1 ->
    find_fit_loop fuel m bp adjsize = Some (Some p) ->
    exists F, In (p, F) (positions bp bs) /\
              blk_alloc F = false /\ adjsize <= blk_size F.
Proof.
  induction bs as [| b bs IH]; intros bp fuel p Hc Hep Hfind;
    (destruct fuel as [| fuel]; [discriminate |]); simpl in Hfind.
  - cbn [total] in Hep. rewrite Z.add_0_r in Hep.
    rewrite (GET_SIZE_of_tag _ _ 0 1 eq_refl Hep) in Hfind. discriminate.
  - destruct Hc as (Hok & Hh & _ & Hc).
    rewrite (tag_size _ _ _ Hok Hh), (tag_alloc _ _ _ Hok Hh) in Hfind.
    destruct Hok as [Hmin H8].
    destruct (Z.gtb_spec (blk_size b) 0); [| unfold MIN_BLOCK, OVERHEAD, DSIZE in *; lia].
    destruct ((flag (blk_alloc b) =? 0) && (adjsize <=? blk_size b)) eqn:Hfit.
    + injection Hfind as <-. exists b.
      apply andb_true_iff in Hfit. destruct Hfit as [Hf Hs].
      split; [now left |]. split; [apply flag_false; lia | lia].
    + unfold NEXT_BLKP in Hfind. fold (HDRP bp) in Hfind.
      rewrite (GET_SIZE_of_tag _ _ _ _ H8 Hh) in Hfind.
      destruct (IH (bp + blk_size b) fuel p Hc) as (F & HF & HFa & HFs); trivial.
      * cbn [total] in Hep. now rewrite Z.add_assoc in Hep.
      * exists F. split; [now right | auto].
Qed.

Lemma find_fit_well_formed (st : state) (bs : list block) (fuel : nat) (adjsize p : Z) :
  well_formed st bs ->
  find_fit fuel st adjsize = Some (Some p) ->
  exists F, In (p, F) (positions (first_block st) bs) /\
            blk_alloc F = false /\ adjsize <= blk_size F.
Proof.
  intros (Hph & _ & Hc & Htot & Hep & _) Hfind.
  unfold find_fit in Hfind.
  destruct fuel as [| fuel]; [discriminate |]. simpl in Hfind.
  rewrite (GET_SIZE_of_tag _ _ 8 1 eq_refl Hph) in Hfind.
  rewrite (GET_ALLOC_of_tag _ _ 8 1 eq_refl Hph) in Hfind.
  simpl in Hfind.
  unfold NEXT_BLKP in Hfind. fold (HDRP (heap_listp st)) in Hfind.
  rewrite (GET_SIZE_of_tag _ _ 8 1 eq_refl Hph) in Hfind.
  apply (find_fit_loop_chain (heap st) adjsize bs (first_block st) fuel p Hc);
    [now rewrite Htot | exact Hfind].
Qed.

Lemma place_split (m : mem) (bp a c : Z) :
  GET_SIZE m (HDRP bp) = c -> a mod 8 = 0 -> 8 <= a ->
  MIN_BLOCK <= c - a -> c < Word.modulus ->
  place m bp a =
  write_block (write_block m bp (PACK a 1)) (bp + a) (PACK (c - a) 0).
Proof.
  intros Hc H8 Ha Hrem Hr. rewrite place_unfold, Hc. cbv zeta.
  assert (Hsub : Word.sub c a = c - a)
    by (unfold Word.sub; apply to_size_t_small; word_range).
  rewrite Hsub.
  destruct (Z.geb_spec (c - a) (DSIZE + OVERHEAD)); [| word_range].
  destruct (write_block_spec m bp a 1 H8 ltac:(word_range)) as (Hh & _).
  unfold NEXT_BLKP. fold (HDRP bp).
  now rewrite (GET_SIZE_of_tag _ _ _ _ H8 Hh).
Qed.

Lemma place_whole (m : mem) (bp a c : Z) :
  GET_SIZE m (HDRP bp) = c -> 0 <= a <= c -> c - a < MIN_BLOCK ->
  c < Word.modulus ->
  place m bp a = write_block m bp (PACK c 1).
Proof.
  intros Hc Ha Hrem Hr. rewrite place_unfold, Hc. cbv zeta.
  assert (Hsub : Word.sub c a = c - a)
    by (unfold Word.sub; apply to_size_t_small; word_range).
  rewrite Hsub.
  destruct (Z.geb_spec (c - a) (DSIZE + OVERHEAD)); [word_range | reflexivity].
Qed.

Lemma positions_replace (bp q : Z) (A F : block) (pre new post : list block) :
  total new = blk_size F -> A <> F ->
  In (q, A) (positions bp (pre ++ F :: post)) ->
  In (q, A) (positions bp (pre ++ new ++ post)).
Proof.
  intros Htot Hne Hin.
  rewrite positions_app in Hin. rewrite !positions_app.
  apply in_app_or in Hin. apply in_or_app.
  destruct Hin as [Hin | Hin]; [now left | right].
  cbn [positions] in Hin. destruct Hin as [E | Hin]; [congruence |].
  apply in_or_app. right. rewrite Htot. exact Hin.
Qed.

(** Rewriting the inside of a run [old] of blocks of a well-formed heap into
    the blocks [new] of the same total size leaves the heap well formed. *)
Lemma replace_well_formed (st : state) (pre old post new : list block) (m' : mem) :
  well_formed st (pre ++ old ++ post) ->
  (forall x, ~ (HDRP (first_block st + total pre) <= x
                < HDRP (first_block st + total pre) + total old) ->
             m' x = heap st x) ->
  chain m' (first_block st + total pre) new ->
  total new = total old ->
  well_formed (set_heap st m') (pre ++ new ++ post).
Proof.
  intros Hwf Hfr Hnew Htot.
  destruct (well_formed_sizes _ _ Hwf) as (Hok & _ & _).
  destruct Hwf as (Hph & Hpf & Hc & Hsum & Hep & Hlo & Hbrk & Hmax).
  apply Forall_app in Hok. destruct Hok as [Hokpre Hok].
  apply Forall_app in Hok. destruct Hok as [Hokold Hokpost].
  pose proof (total_nonneg _ Hokpre). pose proof (total_nonneg _ Hokold).
  pose proof (total_nonneg _ Hokpost).
  apply chain_app in Hc. destruct Hc as [Hcpre Hc].
  apply chain_app in Hc. destruct Hc as [_ Hcpost].
  rewrite !total_app in Hsum.
  unfold well_formed, first_block in *.
  cbn [heap set_heap heap_listp mem_brk mem_max_addr].
  repeat split; trivial.
  - rewrite <- Hph. apply GET_ext. intros x Hx. apply Hfr. addr.
  - rewrite <- Hpf. apply GET_ext. intros x Hx. apply Hfr. addr.
  - apply chain_app. split; [| apply chain_app; split].
    + apply (chain_frame_bytes _ _ _ _ Hcpre). intros x Hx. apply Hfr. addr.
    + exact Hnew.
    + rewrite Htot. apply (chain_frame_bytes _ _ _ _ Hcpost).
      intros x Hx. apply Hfr. addr.
  - rewrite !total_app, Htot. lia.
  - rewrite <- Hep. apply GET_ext. intros x Hx. apply Hfr. addr.
Qed.

Lemma replace_keeps_allocated (bp q : Z) (A F : block) (pre new post : list block) :
  Forall block_ok (pre ++ F :: post) ->
  blk_alloc F = false -> total new = blk_size F ->
  In (q, A) (positions bp (pre ++ F :: post)) -> blk_alloc A = true ->
  In (q, A) (positions bp (pre ++ new ++ post)) /\
  q <> bp + total pre /\
  (forall x, in_block q A x -> ~ in_block (bp + total pre) F x).
Proof.
  intros Hok HF Htot Hin HA.
  assert (Hne : A <> F) by (intros ->; congruence).
  split; [now apply positions_replace with (F := F) |].
  pose proof (in_positions_mid bp F pre post) as HinF.
  destruct (in_positions_range _ _ _ _ Hok Hin) as ([HminA _] & _).
  destruct (in_positions_range _ _ _ _ Hok HinF) as ([HminF _] & _).
  destruct (positions_apart _ _ _ _ _ _ Hok Hin HinF) as [[_ E] | Hd];
    [contradiction |].
  split; [addr | intros x Hx; addr].
Qed.

(** Placement in a free block of a well-formed heap: the heap stays well
    formed, the block at [p] is allocated with room for [adjsize], and every
    block that was allocated is still there, untouched. *)
Lemma place_well_formed (st : state) (bs : list block) (p adjsize : Z) (F : block) :
  well_formed st bs ->
  In (p, F) (positions (first_block st) bs) ->
  blk_alloc F = false ->
  adjsize mod 8 = 0 -> MIN_BLOCK <= adjsize <= blk_size F ->
  exists bs' nsz,
    well_formed (set_heap st (place (heap st) p adjsize)) bs' /\
    In (p, mkBlock nsz true) (positions (first_block st) bs') /\
    adjsize <= nsz /\
    forall q A, In (q, A) (positions (first_block st) bs) -> blk_alloc A = true ->
      In (q, A) (positions (first_block st) bs') /\ q <> p /\
      forall x, in_block q A x -> place (heap st) p adjsize x = heap st x.
Proof.
  intros Hwf Hin HF H8 Hadj.
  destruct (well_formed_sizes _ _ Hwf) as (Hok & _ & Hbound).
  destruct (in_positions_split _ _ _ _ Hin) as (pre & post & -> & ->).
  set (fb := first_block st) in *. set (p := fb + total pre) in *.
  set (c := blk_size F) in *.
  assert (Hc : chain (heap st) fb (pre ++ F :: post)) by apply Hwf.
  apply chain_app in Hc. destruct Hc as [_ ([HminF H8F] & HhF & _)].
  fold p c in HminF, H8F, HhF.
  assert (Hcr : c < Word.modulus).
  { apply Forall_app in Hok. destruct Hok as [Hokpre Hokpost].
    inversion Hokpost as [| ? ? _ Hokpost']; subst.
    pose proof (total_nonneg _ Hokpre). pose proof (total_nonneg _ Hokpost').
    rewrite total_app in Hbound. cbn [total] in Hbound. fold c in Hbound.
    word_range. }
  assert (Hsz : GET_SIZE (heap st) (HDRP p) = c).
  { apply (GET_SIZE_of_tag _ _ _ _ H8F HhF). }
  assert (Hrem8 : (c - adjsize) mod 8 = 0).
  { rewrite Zminus_mod, H8F, H8. reflexivity. }
  destruct (Z_lt_le_dec (c - adjsize) MIN_BLOCK) as [Hwhole | Hsplit].
  - (* the whole block *)
    rewrite (place_whole _ _ _ c Hsz) by (trivial; word_range).
    destruct (write_block_spec (heap st) p c 1 H8F ltac:(word_range))
      as (Hh1 & Hf1 & _ & Hfr1).
    set (m' := write_block (heap st) p (PACK c 1)) in *.
    assert (Hfr : forall x, ~ in_block p F x -> m' x = heap st x).
    { intros x Hx. apply Hfr1; fold c in Hx; addr. }
    exists (pre ++ [mkBlock c true] ++ post), c.
    split; [| split; [| split]].
    + apply (replace_well_formed st pre [F] post [mkBlock c true] m' Hwf).
      * intros x Hx. apply Hfr. cbn [total] in Hx. fold c in Hx. addr.
      * cbn [chain blk_size]. fold p. repeat split; trivial.
      * cbn [total blk_size]. fold c. lia.
    + apply in_positions_mid.
    + lia.
    + intros q A HinA HA.
      destruct (replace_keeps_allocated fb q A F pre [mkBlock c true] post Hok HF)
        as (H1 & H2 & H3); trivial; [cbn [total blk_size]; fold c; lia |].
      split; [exact H1 |]. split; [exact H2 |].
      intros x Hx. apply Hfr. now apply H3.
  - (* split *)
    rewrite (place_split _ _ _ c Hsz) by (trivial; word_range).
    destruct (write_block_spec (heap st) p adjsize 1 H8 ltac:(word_range))
      as (Hh1 & Hf1 & _ & Hfr1).
    set (m1 := write_block (heap st) p (PACK adjsize 1)) in *.
    destruct (write_block_spec m1 (p + adjsize) (c - adjsize) 0 Hrem8 ltac:(word_range))
      as (Hh2 & Hf2 & _ & Hfr2).
    set (m' := write_block m1 (p + adjsize) (PACK (c - adjsize) 0)) in *.
    assert (Hfr : forall x, ~ in_block p F x -> m' x = heap st x).
    { intros x Hx. fold c in Hx. rewrite Hfr2, Hfr1; trivial; addr. }
    set (new := [mkBlock adjsize true; mkBlock (c - adjsize) false]).
    assert (Htot : total new = blk_size F) by (cbn [total new blk_size]; fold c; lia).
    exists (pre ++ new ++ post), adjsize.
    split; [| split; [| split]].
    + apply (replace_well_formed st pre [F] post new m' Hwf);
        [intros x Hx; apply Hfr; cbn [total] in Hx; fold c in Hx; addr
        | | cbn [total]; lia].
      cbn [chain new]. unfold block_ok, tag. cbn [blk_size blk_alloc flag]. fold p.
      assert (E1 : GET m' (HDRP p) = PACK adjsize 1).
      { rewrite <- Hh1. apply (write_block_GET_other m1); trivial; word_range. }
      assert (E2 : GET m' (p + adjsize - DSIZE) = PACK adjsize 1).
      { rewrite <- Hf1. apply (write_block_GET_other m1); trivial; word_range. }
      repeat split; trivial; try word_range.
    + apply in_positions_mid.
    + lia.
    + intros q A HinA HA.
      destruct (replace_keeps_allocated fb q A F pre new post Hok HF Htot HinA HA)
        as (H1 & H2 & H3).
      split; [exact H1 |]. split; [exact H2 |].
      intros x Hx. apply Hfr. now apply H3.
Qed.

(** ** Growing a well-formed heap *)

Lemma set_heap_same (st : state) : set_heap st (heap st) = st.
Proof. destruct st; reflexivity. Qed.

(** Coalescing the last block of a well-formed heap, a free block [N]:
    the epilogue follows it, so only the previous block can be merged. *)
Lemma coalesce_last_well_formed (st : state) (bs : list block) (N : block) :
  well_formed st (bs ++ [N]) -> blk_alloc N = false ->
  exists bs1 F,
    well_formed (set_heap st (snd (coalesce (heap st) (first_block st + total bs)))) bs1 /\
    In (fst (coalesce (heap st) (first_block st + total bs)), F)
       (positions (first_block st) bs1) /\
    blk_alloc F = false /\ blk_size N <= blk_size F /\
    forall q A, In (q, A) (positions (first_block st) bs) -> blk_alloc A = true ->
      In (q, A) (positions (first_block st) bs1) /\
      forall x, in_block q A x ->
                snd (coalesce (heap st) (first_block st + total bs)) x = heap st x.
Proof.
  intros Hwf HN.
  destruct (well_formed_sizes _ _ Hwf) as (Hok & _ & Hbound).
  pose proof Hwf as (Hph & Hpf & Hc & Hsum & Hep & Hlo & Hbrk & Hmax).
  set (fb := first_block st) in *. set (e := fb + total bs). set (m := heap st) in *.
  apply Forall_app in Hok. destruct Hok as [Hokbs HokN].
  inversion HokN as [| ? ? [HminN H8N] _]; subst.
  pose proof (total_nonneg _ Hokbs) as Hbs0.
  rewrite total_app in Hbound, Hsum. cbn [total] in Hbound, Hsum.
  rewrite Z.add_0_r in Hbound, Hsum.
  apply chain_app in Hc. destruct Hc as [Hcbs (_ & HhN & _)]. fold e in HhN.
  unfold tag in HhN. rewrite HN in HhN. cbn [flag] in HhN.
  assert (Hnext : GET m (HDRP (e + blk_size N)) = PACK 0 1).
  { replace (e + blk_size N) with (mem_brk st) by (unfold e; lia). exact Hep. }
  pose proof (prev_tags st bs [N] Hwf) as Hprev. fold fb m e in Hprev.
  destruct Hprev as (P & pa & HP8 & HPmin & Hpa & HPle & HPh & HPf & HPlast).
  assert (Hsum3 : P + blk_size N + 0 < Word.modulus) by word_range.
  destruct Hpa as [Epa | Epa].
  - (* the previous block is free: merge *)
    destruct (HPlast Epa) as (pre & ->).
    rewrite (coalesce_case3 m e P pa (blk_size N) 0 1);
      try first [assumption | reflexivity | now left | now right | word_range].
    cbn [fst snd].
    set (v := PACK (blk_size N + P) 0).
    set (m4 := PUT (PUT m (e + blk_size N - DSIZE) v) (HDRP (e - P)) v).
    set (L := mkBlock P false) in *.
    set (new := [mkBlock (blk_size N + P) false]).
    apply Forall_app in Hokbs. destruct Hokbs as [Hokpre _].
    pose proof (total_nonneg _ Hokpre) as Hpre0.
    assert (Ee : e - P = fb + total pre).
    { unfold e. rewrite total_app. cbn [total L blk_size]. lia. }
    assert (H8v : (blk_size N + P) mod 8 = 0)
      by (rewrite Z.add_mod, H8N, HP8 by lia; reflexivity).
    assert (Hv : 0 <= v < Word.modulus) by (apply PACK_range; word_range).
    assert (Hfr : forall x,
               ~ (HDRP (fb + total pre) <= x < HDRP (fb + total pre) + total [L; N]) ->
               m4 x = m x).
    { intros x Hx. cbn [total L blk_size] in Hx. unfold m4.
      rewrite !PUT_other; trivial; word_range. }
    exists (pre ++ new ++ []), (mkBlock (blk_size N + P) false).
    split; [| split; [| split; [| split]]].
    + apply (replace_well_formed st pre [L; N] [] new m4).
      * replace (pre ++ [L; N] ++ []) with ((pre ++ [L]) ++ [N])
          by (rewrite <- app_assoc; reflexivity).
        exact Hwf.
      * exact Hfr.
      * cbn [chain new]. unfold block_ok, tag. cbn [blk_size blk_alloc flag].
        fold fb. rewrite <- Ee. fold v.
        replace (e - P + (blk_size N + P) - DSIZE) with (e + blk_size N - DSIZE) by lia.
        repeat split; trivial; try word_range.
        -- unfold m4. now apply GET_PUT_small.
        -- unfold m4. rewrite GET_PUT_other by word_range. now apply GET_PUT_small.
      * cbn [total new L blk_size]. lia.
    + rewrite Ee. apply in_positions_mid.
    + reflexivity.
    + cbn [blk_size]. lia.
    + intros q A HinA HA.
      rewrite positions_app in HinA. apply in_app_or in HinA.
      destruct HinA as [HinA | HinA];
        [| cbn [positions] in HinA; destruct HinA as [E | []];
           injection E as _ <-; discriminate].
      split; [rewrite positions_app; apply in_or_app; now left |].
      intros x Hx.
      destruct (in_positions_range _ _ _ _ Hokpre HinA) as ([HminA _] & HloA & HhiA).
      apply Hfr. cbn [total L blk_size]. addr.
  - (* the previous block is allocated: nothing to merge *)
    rewrite (coalesce_case1 m e P pa (blk_size N) 0 1);
      try first [assumption | reflexivity | now left | now right | word_range].
    cbn [fst snd]. unfold m. rewrite set_heap_same.
    exists (bs ++ [N]), N.
    split; [exact Hwf |]. split; [apply in_positions_mid |].
    split; [exact HN |]. split; [lia |].
    intros q A HinA HA.
    split; [rewrite positions_app; apply in_or_app; now left | reflexivity].
Qed.

Lemma extend_arith (size : Z) :
  size mod 8 = 0 -> 0 <= size < 2 ^ 31 ->
  (size / WSIZE) mod 2 = 0 /\
  Word.mul (size / WSIZE) WSIZE = size /\
  Word.to_int size = size.
Proof.
  intros H8 Hr. unfold WSIZE.
  pose proof (Z.div_mod size 8 ltac:(lia)) as Hd. rewrite H8 in Hd.
  assert (E : size / 4 = 2 * (size / 8)).
  { symmetry. apply Z.div_unique with (r := 0); lia. }
  split; [| split].
  - rewrite E, Z.mul_comm. apply Z.mod_mul. lia.
  - unfold Word.mul. rewrite E.
    replace (2 * (size / 8) * 4) with size by lia.
    apply to_size_t_small.
    change (2 ^ 31) with 2147483648 in Hr. word_range.
  - now apply to_int_small.
Qed.

Lemma extend_heap_unfold (st : state) (size : Z) :
  size mod 8 = 0 -> 8 <= size < 2 ^ 31 ->
  extend_heap (size / WSIZE) st =
  match mem_sbrk size st with
  | (None, st1) => (None, st1)
  | (Some bp, st1) =>
      if Word.to_int bp <? 0 then (None, st1)
      else
        let m3 := PUT (write_block (heap st1) bp (PACK size 0))
                      (HDRP (bp + size)) (PACK 0 1) in
        (Some (fst (coalesce m3 bp)), set_heap st1 (snd (coalesce m3 bp)))
  end.
Proof.
  intros H8 Hr.
  destruct (extend_arith size H8 ltac:(lia)) as (Hm & Hmul & Hint).
  unfold extend_heap. rewrite Hm. cbn [Z.eqb negb]. rewrite Hmul, Hint.
  destruct (mem_sbrk size st) as [[bp |] st1]; [| reflexivity].
  destruct (Word.to_int bp <? 0); [reflexivity |].
  cbv zeta.
  change (PUT (PUT (heap st1) (HDRP bp) (PACK size 0))
              (FTRP (PUT (heap st1) (HDRP bp) (PACK size 0)) bp) (PACK size 0))
    with (write_block (heap st1) bp (PACK size 0)).
  assert (Hr' : 8 <= size < Word.modulus)
    by (change (2 ^ 31) with 2147483648 in Hr; word_range).
  destruct (write_block_spec (heap st1) bp size 0 H8 Hr') as (Hh & _).
  unfold NEXT_BLKP. fold (HDRP bp).
  rewrite (GET_SIZE_of_tag _ _ _ _ H8 Hh).
  destruct (coalesce _ bp). reflexivity.
Qed.

(** Extending a well-formed heap: the heap stays well formed, the returned
    block is free and at least [size] bytes long, and every allocated block
    is still there, untouched. *)
Lemma extend_heap_well_formed (st st1 : state) (bs : list block) (size r : Z) :
  well_formed st bs ->
  size mod 8 = 0 -> MIN_BLOCK <= size < 2 ^ 31 ->
  extend_heap (size / WSIZE) st = (Some r, st1) ->
  exists bs1 F,
    well_formed st1 bs1 /\ heap_listp st1 = heap_listp st /\
    In (r, F) (positions (first_block st) bs1) /\
    blk_alloc F = false /\ size <= blk_size F /\
    forall q A, In (q, A) (positions (first_block st) bs) -> blk_alloc A = true ->
      In (q, A) (positions (first_block st) bs1) /\
      forall x, in_block q A x -> heap st1 x = heap st x.
Proof.
  intros Hwf H8 Hr Hext.
  assert (Hr8 : 8 <= size < 2 ^ 31) by (unfold MIN_BLOCK, OVERHEAD, DSIZE in Hr; lia).
  assert (Hr' : 8 <= size < Word.modulus)
    by (change (2 ^ 31) with 2147483648 in Hr8; word_range).
  rewrite (extend_heap_unfold st size H8 Hr8) in Hext.
  unfold mem_sbrk in Hext.
  destruct ((size <? 0) || (mem_max_addr st <? mem_brk st + size)) eqn:Htest;
    [discriminate |].
  apply orb_false_iff in Htest. destruct Htest as [_ Hfit].
  apply Z.ltb_ge in Hfit.
  destruct (Word.to_int (mem_brk st) <? 0); [discriminate |].
  cbv zeta in Hext. cbn [heap set_brk] in Hext.
  set (e := mem_brk st) in *. set (m := heap st) in *.
  set (m3 := PUT (write_block m e (PACK size 0)) (HDRP (e + size)) (PACK 0 1)) in *.
  injection Hext as <- <-.
  destruct (well_formed_sizes _ _ Hwf) as (Hok & Htot0 & Hbound).
  pose proof Hwf as (Hph & Hpf & Hc & Hsum & Hep & Hlo & Hbrk & Hmax).
  fold e m in Hph, Hpf, Hc, Hsum, Hep.
  destruct (write_block_spec m e size 0 H8 Hr') as (Hh & Hf & _ & Hfr).
  assert (F1 : forall x, x < HDRP e -> m3 x = m x).
  { intros x Hx. unfold m3. rewrite PUT_other by addr. apply Hfr; addr. }
  assert (F2 : GET m3 (HDRP e) = PACK size 0).
  { unfold m3. rewrite GET_PUT_other by addr. exact Hh. }
  assert (F3 : GET m3 (e + size - DSIZE) = PACK size 0).
  { unfold m3. rewrite GET_PUT_other by addr. exact Hf. }
  assert (F4 : GET m3 (HDRP (e + size)) = PACK 0 1).
  { unfold m3. apply GET_PUT_small, PACK_range; [reflexivity | word_range]. }
  set (N := mkBlock size false).
  set (st3 := set_heap (set_brk st (e + size)) m3).
  assert (Hwf3 : well_formed st3 (bs ++ [N])).
  { unfold well_formed, first_block in *.
    cbn [st3 heap set_heap set_brk heap_listp mem_brk mem_max_addr].
    split; [| split; [| split; [| split; [| split]]]].
    - rewrite <- Hph. apply GET_ext. intros x Hx. apply F1. addr.
    - rewrite <- Hpf. apply GET_ext. intros x Hx. apply F1. addr.
    - apply chain_app. split.
      + apply (chain_frame_bytes _ _ _ _ Hc). intros x Hx. apply F1.
        rewrite Hsum in Hx. addr.
      + rewrite Hsum. unfold N. cbn [chain]. unfold block_ok, tag.
        cbn [blk_size blk_alloc flag]. repeat split; trivial; lia.
    - rewrite total_app. unfold N. cbn [total blk_size]. lia.
    - exact F4.
    - repeat split; trivial; lia. }
  assert (Ee : first_block st3 + total bs = e) by exact Hsum.
  destruct (coalesce_last_well_formed st3 bs N Hwf3 eq_refl)
    as (bs1 & F & Hwf1 & Hin & HF & Hsz & Hkeep).
  rewrite Ee in Hwf1, Hin, Hkeep.
  exists bs1, F.
  split; [exact Hwf1 |]. split; [reflexivity |]. split; [exact Hin |].
  split; [exact HF |]. split; [exact Hsz |].
  intros q A HinA HA. destruct (Hkeep q A HinA HA) as [H1 H2].
  split; [exact H1 |]. intros x Hx.
  transitivity (heap st3 x); [exact (H2 x Hx) |].
  cbn [st3 heap set_heap]. apply F1.
  destruct (in_positions_range _ _ _ _ Hok HinA) as (_ & _ & Hhi).
  unfold first_block in *. addr.
Qed.

(** ** Allocation in a well-formed heap *)

Lemma adjust_size_bounds (s : Z) :
  0 < s -> s + 15 < Word.modulus ->
  adjust_size s mod 8 = 0 /\ MIN_BLOCK <= adjust_size s /\
  s + OVERHEAD <= adjust_size s <= s + 15.
Proof.
  intros Hs Hr. unfold adjust_size, Word.mul, Word.add, MIN_BLOCK, OVERHEAD, DSIZE.
  destruct (Z.leb_spec s 8); [repeat split; lia |].
  rewrite (to_size_t_small (s + 8)) by word_range.
  rewrite (to_size_t_small (s + 8 + (8 - 1))) by word_range.
  pose proof (Z.div_mod (s + 8 + (8 - 1)) 8 ltac:(lia)).
  pose proof (Z.mod_pos_bound (s + 8 + (8 - 1)) 8 ltac:(lia)).
  rewrite to_size_t_small by word_range.
  split; [rewrite Z.mul_comm; apply Z.mod_mul; lia | lia].
Qed.

Lemma extendsize_bounds (adj : Z) :
  adj mod 8 = 0 -> MIN_BLOCK <= adj < 2 ^ 31 ->
  let ext := Word.to_size_t (MAX (Word.to_int adj) CHUNKSIZE) in
  ext mod 8 = 0 /\ MIN_BLOCK <= ext < 2 ^ 31 /\ adj <= ext.
Proof.
  intros H8 Hr ext. subst ext.
  unfold MIN_BLOCK, OVERHEAD, DSIZE in Hr.
  rewrite to_int_small by lia. unfold MAX.
  change CHUNKSIZE with 4096.
  change (2 ^ 31) with 2147483648 in *.
  destruct (Z.gtb_spec adj 4096);
    (rewrite to_size_t_small by word_range);
    unfold MIN_BLOCK, OVERHEAD, DSIZE; repeat split; trivial; lia.
Qed.

(** A successful [mm_malloc] on a well-formed heap: the heap stays well
    formed, the returned block is a live block with room for the request,
    and every block that was live is still live, at the same address and
    with the same bytes. *)
Lemma mm_malloc_well_formed (fuel : nat) (st st1 : state) (bs : list block)
      (s newp : Z) :
  well_formed st bs -> 0 < s -> s + 15 < 2 ^ 31 ->
  mm_malloc fuel s st = Ret (Some newp) st1 ->
  exists bs1 nsz,
    well_formed st1 bs1 /\ first_block st1 = first_block st /\
    live st1 bs1 newp nsz /\ s + OVERHEAD <= nsz /\
    forall q A, In (q, A) (positions (first_block st) bs) -> blk_alloc A = true ->
      In (q, A) (positions (first_block st) bs1) /\ q <> newp /\
      forall x, in_block q A x -> heap st1 x = heap st x.
Proof.
  intros Hwf Hs Hr Hm.
  assert (Hr' : s + 15 < Word.modulus)
    by (change (2 ^ 31) with 2147483648 in Hr; word_range).
  destruct (adjust_size_bounds s Hs Hr') as (Ha8 & Hamin & Halo & Hahi).
  unfold mm_malloc in Hm.
  destruct (Z.leb_spec s 0); [lia |].
  set (adj := adjust_size s) in *.
  destruct (find_fit fuel st adj) as [[p |] |] eqn:Hfind; [| | discriminate].
  - (* a fit was found *)
    injection Hm as <- <-.
    destruct (find_fit_well_formed _ _ _ _ _ Hwf Hfind) as (F & HinF & HF & HFs).
    destruct (place_well_formed st bs p adj F Hwf HinF HF Ha8 ltac:(lia))
      as (bs' & nsz & Hwf' & Hlive & Hnsz & Hkeep).
    exists bs', nsz.
    split; [exact Hwf' |]. split; [reflexivity |]. split; [exact Hlive |].
    split; [lia |]. exact Hkeep.
  - (* no fit: extend the heap, then place *)
    destruct (extendsize_bounds adj Ha8 ltac:(lia)) as (He8 & Her & Hge).
    set (ext := Word.to_size_t (MAX (Word.to_int adj) CHUNKSIZE)) in *.
    destruct (extend_heap (ext / WSIZE) st) as [[r |] st2] eqn:Hext;
      [| discriminate].
    injection Hm as <- <-.
    destruct (extend_heap_well_formed st st2 bs ext r Hwf He8 Her Hext)
      as (bs1 & F & Hwf2 & Hhl & HinF & HF & HFs & Hkeep1).
    assert (Hfb : first_block st2 = first_block st)
      by (unfold first_block; now rewrite Hhl).
    rewrite <- Hfb in HinF.
    destruct (place_well_formed st2 bs1 r adj F Hwf2 HinF HF Ha8 ltac:(lia))
      as (bs' & nsz & Hwf' & Hlive & Hnsz & Hkeep2).
    exists bs', nsz.
    split; [exact Hwf' |]. split; [exact Hfb |]. split; [exact Hlive |].
    split; [lia |].
    intros q A HinA HA.
    destruct (Hkeep1 q A HinA HA) as [H1 Hx1].
    rewrite <- Hfb in H1.
    destruct (Hkeep2 q A H1 HA) as (H2 & Hne & Hx2).
    rewrite Hfb in H2.
    split; [exact H2 |]. split; [exact Hne |].
    intros x Hx. cbn [heap set_heap]. rewrite (Hx2 x Hx). now apply Hx1.
Qed.

(** ** Reallocation *)

(** C4 (amended): in a well-formed heap, for a live allocated block [ptr] of
    block size [sz] and a new size [s] small enough for the size arithmetic
    not to wrap ([s + 15 < 2^31]), a [mm_realloc] that returns has allocated
    the returned block with [mm_malloc], copied [min sz s] bytes, the block
    size (payload plus 8 bytes of overhead) and not the payload size bounding
    the count, between two regions that do not overlap, then freed [ptr];
    the first [min (sz - 8) s] bytes of the old payload are found in the
    returned block. *)
Theorem mm_realloc_preserves (fuel : nat) (st st' : state) (bs : list block)
        (ptr sz s newp : Z) :
  well_formed st bs -> live st bs ptr sz -> s + 15 < 2 ^ 31 ->
  mm_realloc fuel ptr s st = Ret newp st' ->
  exists st1,
    mm_malloc fuel s st = Ret (Some newp) st1 /\
    realloc_copySize (heap st1) ptr s = Z.min sz s /\
    st' = mm_free ptr (set_heap st1 (memcpy (heap st1) newp ptr (Z.min sz s))) /\
    (ptr + Z.min sz s <= newp \/ newp + Z.min sz s <= ptr) /\
    forall i, 0 <= i < Z.min (sz - OVERHEAD) s ->
              heap st' (newp + i) = heap st (ptr + i).
Proof.
  intros Hwf Hlive Hr Hre.
  unfold mm_realloc, bind in Hre.
  destruct (mm_malloc fuel s st) as [[np |] st1 | |] eqn:Hm; try discriminate.
  injection Hre as <- <-.
  assert (Hs : 0 < s).
  { destruct (Z.leb_spec s 0) as [Hle | Hlt]; [| exact Hlt].
    unfold mm_malloc in Hm. apply Z.leb_le in Hle. rewrite Hle in Hm. discriminate. }
  destruct (mm_malloc_well_formed fuel st st1 bs s np Hwf Hs Hr Hm)
    as (bs1 & nsz & Hwf1 & Hfb & Hnew & Hnsz & Hkeep).
  destruct (Hkeep ptr (mkBlock sz true) Hlive eq_refl) as (Hlive1 & Hne & Hsame).
  rewrite <- Hfb in Hlive1.
  assert (Hc1 : chain (heap st1) (first_block st1) bs1) by apply Hwf1.
  destruct (chain_at _ _ _ _ _ Hc1 Hlive1) as ([Hmin H8] & Hh & _).
  cbn [blk_size] in Hmin, H8.
  assert (Hcopy : realloc_copySize (heap st1) ptr s = Z.min sz s).
  { unfold realloc_copySize.
    rewrite (GET_SIZE_of_tag _ _ sz (flag true) H8 Hh).
    destruct (Z.ltb_spec s sz); lia. }
  exists st1.
  split; [reflexivity |]. split; [exact Hcopy |].
  split; [now rewrite Hcopy |].
  split.
  { destruct (well_formed_sizes _ _ Hwf1) as (Hok1 & _).
    destruct (positions_apart _ _ _ _ _ _ Hok1 Hlive1 Hnew) as [[E _] | Hd];
      [congruence | cbn [blk_size] in Hd; unfold OVERHEAD in *; lia]. }
  intros i Hi. rewrite Hcopy.
  set (n := Z.min sz s) in *.
  set (st2 := set_heap st1 (memcpy (heap st1) np ptr n)).
  assert (Hwf2 : well_formed st2 bs1).
  { apply (memcpy_well_formed st1 bs1 np nsz ptr n Hwf1 Hnew).
    unfold n, OVERHEAD in *. lia. }
  rewrite (mm_free_frame st2 bs1 ptr sz Hwf2 Hlive1 np (mkBlock nsz true));
    trivial; [| congruence | unfold in_block; cbn [blk_size]; unfold OVERHEAD in *; addr].
  cbn [st2 heap set_heap]. unfold memcpy.
  destruct (Z.leb_spec np (np + i)); [| lia].
  destruct (Z.ltb_spec (np + i) (np + n)); [| unfold n, OVERHEAD in *; lia].
  cbn [andb]. replace (ptr + (np + i - np)) with (ptr + i) by lia.
  apply Hsame. unfold in_block. cbn [blk_size]. unfold OVERHEAD in *. addr.
Qed.

(** The heap of the four blocks is well formed, and stays so through
    [free(a)] and [free(c)], whose freed blocks have an allocated neighbour. *)
Lemma four_blocks_well_formed :
  well_formed Run.four_blocks Run.four_blocks_layout /\
  well_formed Run.two_freed
    [mkBlock 16 false; mkBlock 16 true; mkBlock 16 false; mkBlock 16 true;
     mkBlock 4032 false].
Proof. split; vm_compute; intuition congruence. Qed.

Lemma mm_realloc_preserves_witness :
  exists st1,
    mm_malloc 16 100 Run.four_blocks = Ret (Some 4176) st1 /\
    realloc_copySize (heap st1) Run.a 100 = Z.min 16 100 /\
    Run.after_realloc
      = mm_free Run.a (set_heap st1 (memcpy (heap st1) 4176 Run.a (Z.min 16 100))) /\
    (Run.a + Z.min 16 100 <= 4176 \/ 4176 + Z.min 16 100 <= Run.a) /\
    forall i, 0 <= i < Z.min (16 - OVERHEAD) 100 ->
              heap Run.after_realloc (4176 + i) = heap Run.four_blocks (Run.a + i).
Proof.
  apply (mm_realloc_preserves 16 Run.four_blocks Run.after_realloc
                              Run.four_blocks_layout Run.a 16 100 4176).
  - vm_compute. intuition congruence.
  - vm_compute. left. reflexivity.
  - vm_compute. reflexivity.
  - reflexivity.
Defined.

(** The claim as written fails on that run: block [a] has a usable payload
    of 8 bytes and the new size is 100, yet [mm_realloc] copies 16 bytes, not
    [min 8 100]: the ninth byte of the returned block, zero before the call,
    holds the low byte of [a]'s old footer after it. *)
Lemma mm_realloc_copies_block_size :
  live Run.four_blocks Run.four_blocks_layout Run.a 16 /\
  returned Run.r_realloc = Some 4176 /\
  realloc_copySize (heap Run.after_realloc_malloc) Run.a 100 = 16 /\
  realloc_copySize (heap Run.after_realloc_malloc) Run.a 100
    <> Z.min (16 - OVERHEAD) 100 /\
  heap Run.four_blocks (4176 + 8) = 0 /\
  heap Run.after_realloc_malloc (4176 + 8) = 0 /\
  heap Run.after_realloc (4176 + 8) = 17.
Proof.
  split; [vm_compute; left; reflexivity |].
  repeat split; vm_compute; congruence.
Qed.

(** ** Reaching well-formed heaps; termination of the search *)

(** [mm_init], when it succeeds on a growth primitive whose region lies
    inside the 32-bit address space, builds a well-formed heap: the
    prologue, one free block of [CHUNKSIZE] bytes and the epilogue. *)
Lemma mm_init_well_formed (st st' : state) :
  0 <= mem_brk st -> mem_max_addr st <= Word.modulus ->
  mm_init st = (0, st') ->
  well_formed st' [mkBlock CHUNKSIZE false] /\
  heap_listp st' = mem_brk st + DSIZE.
Proof.
  intros Hlo Hmax Hinit. unfold mm_init, mem_sbrk in Hinit.
  destruct ((4 * WSIZE <? 0) || (mem_max_addr st <? mem_brk st + 4 * WSIZE))
    eqn:Htest; [discriminate |].
  apply orb_false_iff in Htest. destruct Htest as [_ Hfit].
  apply Z.ltb_ge in Hfit.
  destruct (mem_brk st =? 0); [discriminate |].
  cbn [heap set_brk] in Hinit.
  set (p := mem_brk st) in *.
  set (m4 := PUT (PUT (PUT (PUT (heap st) p 0) (p + WSIZE) (PACK OVERHEAD 1))
                      (p + DSIZE) (PACK OVERHEAD 1))
                 (p + WSIZE + DSIZE) (PACK 0 1)) in *.
  set (st2 := set_heap_listp (set_heap (set_brk st (p + 4 * WSIZE)) m4) (p + DSIZE)) in *.
  assert (Hwf2 : well_formed st2 []).
  { unfold well_formed, first_block.
    cbn [st2 heap heap_listp mem_brk mem_max_addr set_heap_listp set_heap set_brk
         chain total].
    unfold m4, HDRP, OVERHEAD, DSIZE, WSIZE in *.
    split; [| split; [| split; [exact I | split; [lia | split]]]].
    - rewrite !GET_PUT_other by lia.
      replace (p + 8 - 4) with (p + 4) by lia.
      apply GET_PUT_small, PACK_range; [reflexivity | word_range].
    - rewrite GET_PUT_other by lia.
      apply GET_PUT_small, PACK_range; [reflexivity | word_range].
    - replace (p + 4 * 4 - 4) with (p + 4 + 8) by lia.
      apply GET_PUT_small, PACK_range; [reflexivity | word_range].
    - repeat split; lia. }
  destruct (extend_heap (CHUNKSIZE / WSIZE) st2) as [[r |] st3] eqn:Hext;
    [| discriminate].
  injection Hinit as <-.
  assert (Hc8 : CHUNKSIZE mod 8 = 0) by reflexivity.
  assert (Hcr : 8 <= CHUNKSIZE < 2 ^ 31) by (vm_compute; split; congruence).
  rewrite (extend_heap_unfold st2 CHUNKSIZE Hc8 Hcr) in Hext.
  unfold mem_sbrk in Hext.
  destruct ((CHUNKSIZE <? 0) || (mem_max_addr st2 <? mem_brk st2 + CHUNKSIZE))
    eqn:Htest2; [discriminate |].
  apply orb_false_iff in Htest2. destruct Htest2 as [_ Hfit2].
  apply Z.ltb_ge in Hfit2.
  destruct (Word.to_int (mem_brk st2) <? 0); [discriminate |].
  cbv zeta in Hext. cbn [heap set_brk] in Hext.
  set (e := mem_brk st2) in *.
  set (m := heap st2) in *.
  set (m3 := PUT (write_block m e (PACK CHUNKSIZE 0)) (HDRP (e + CHUNKSIZE)) (PACK 0 1)) in *.
  pose proof Hwf2 as (Hph & Hpf & _ & Hsum & Hep & Hlo2 & Hbrk2 & Hmax2).
  cbn [total] in Hsum. rewrite Z.add_0_r in Hsum. fold e in Hsum, Hep.
  assert (Hr' : 8 <= CHUNKSIZE < Word.modulus) by (vm_compute; split; congruence).
  destruct (write_block_spec m e CHUNKSIZE 0 Hc8 Hr') as (Hh & Hf & _ & Hfr).
  assert (F1 : forall x, x < HDRP e -> m3 x = m x).
  { intros x Hx. unfold m3. rewrite PUT_other by addr. apply Hfr; addr. }
  assert (F2 : GET m3 (HDRP e) = PACK CHUNKSIZE 0).
  { unfold m3. rewrite GET_PUT_other by (change CHUNKSIZE with 4096; addr). exact Hh. }
  assert (F3 : GET m3 (e + CHUNKSIZE - DSIZE) = PACK CHUNKSIZE 0).
  { unfold m3. rewrite GET_PUT_other by addr. exact Hf. }
  assert (F4 : GET m3 (HDRP (e + CHUNKSIZE)) = PACK 0 1).
  { unfold m3. apply GET_PUT_small, PACK_range; [reflexivity | word_range]. }
  assert (Hco : coalesce m3 e = (e, m3)).
  { apply (coalesce_case1 m3 e OVERHEAD 1 CHUNKSIZE 0 1);
      try first [reflexivity | now right | exact F2 | exact F4].
    - replace (e - OVERHEAD) with (heap_listp st2)
        by (unfold first_block, OVERHEAD, DSIZE in *; lia).
      rewrite <- Hph. apply GET_ext. intros x Hx. apply F1.
      unfold first_block in Hsum. addr.
    - replace (e - DSIZE) with (heap_listp st2)
        by (unfold first_block, DSIZE in *; lia).
      rewrite <- Hpf. apply GET_ext. intros x Hx. apply F1.
      unfold first_block in Hsum. addr. }
  rewrite Hco in Hext. cbn [fst snd] in Hext. injection Hext as _ <-.
  split; [| reflexivity].
  unfold well_formed, first_block in *.
  cbn [heap heap_listp mem_brk mem_max_addr set_heap set_brk chain total blk_size].
  unfold block_ok, tag. cbn [blk_size blk_alloc flag].
  change (heap_listp st2) with (p + DSIZE) in *.
  change (mem_max_addr st2) with (mem_max_addr st) in *.
  rewrite Hsum.
  split; [| split; [| split; [| split; [| split]]]].
  - rewrite <- Hph. apply GET_ext. intros x Hx. apply F1. addr.
  - rewrite <- Hpf. apply GET_ext. intros x Hx. apply F1. addr.
  - repeat split; trivial; vm_compute; congruence.
  - lia.
  - replace (e + (CHUNKSIZE + 0)) with (e + CHUNKSIZE) by lia. exact F4.
  - repeat split; trivial; lia.
Qed.

(** In a well-formed heap the search ends: more fuel than there are blocks
    (prologue included) always gives an answer. *)
Lemma find_fit_loop_terminates (m : mem) (adjsize : Z) (bs : list block) :
  forall bp fuel,
    chain m bp bs ->
    GET m (HDRP (bp + total bs)) = PACK 0 1 ->
    (List.length bs < fuel)%nat ->
    exists r, find_fit_loop fuel m bp adjsize = Some r.
Proof.
  induction bs as [| b bs IH]; intros bp fuel Hc Hep Hfuel;
    (destruct fuel as [| fuel]; [simpl in Hfuel; lia |]); simpl.
  - cbn [total] in Hep. rewrite Z.add_0_r in Hep.
    rewrite (GET_SIZE_of_tag _ _ 0 1 eq_refl Hep). simpl. eauto.
  - destruct Hc as (Hok & Hh & _ & Hc).
    rewrite (tag_size _ _ _ Hok Hh).
    destruct Hok as [Hmin H8].
    destruct (Z.gtb_spec (blk_size b) 0); [| unfold MIN_BLOCK, OVERHEAD, DSIZE in *; lia].
    destruct ((GET_ALLOC m (HDRP bp) =? 0) && (adjsize <=? blk_size b)); [eauto |].
    unfold NEXT_BLKP. fold (HDRP bp).
    rewrite (GET_SIZE_of_tag _ _ _ _ H8 Hh).
    apply IH; trivial.
    + cbn [total] in Hep. now rewrite Z.add_assoc in Hep.
    + simpl in Hfuel. lia.
Qed.

Lemma mm_malloc_terminates (fuel : nat) (st : state) (bs : list block) (s : Z) :
  well_formed st bs -> (S (List.length bs) < fuel)%nat ->
  mm_malloc fuel s st <> OutOfFuel.
Proof.
  intros (Hph & _ & Hc & Htot & Hep & _) Hfuel.
  unfold mm_malloc. destruct (s <=? 0); [discriminate |].
  assert (Hfind : exists r, find_fit fuel st (adjust_size s) = Some r).
  { unfold find_fit. destruct fuel as [| fuel]; [lia |]. simpl.
    rewrite (GET_SIZE_of_tag _ _ 8 1 eq_refl Hph).
    rewrite (GET_ALLOC_of_tag _ _ 8 1 eq_refl Hph). simpl.
    unfold NEXT_BLKP. fold (HDRP (heap_listp st)).
    rewrite (GET_SIZE_of_tag _ _ 8 1 eq_refl Hph).
    apply (find_fit_loop_terminates (heap st) _ bs (first_block st)); trivial.
    - now rewrite Htot.
    - lia. }
  destruct Hfind as (r & ->).
  destruct r; [discriminate |].
  destruct (extend_heap _ st) as [[? |] ?]; discriminate.
Qed.

(** The block list of a well-formed heap, as the search walks it. *)
Lemma blocks_from_chain (m : mem) (bs : list block) :
  forall bp fuel,
    chain m bp bs ->
    GET m (HDRP (bp + total bs)) = PACK 0 1 ->
    (List.length bs < fuel)%nat ->
    blocks_from fuel m bp = Some (map fst (positions bp bs)).
Proof.
  induction bs as [| b bs IH]; intros bp fuel Hc Hep Hfuel;
    (destruct fuel as [| fuel]; [simpl in Hfuel; lia |]); simpl.
  - cbn [total] in Hep. rewrite Z.add_0_r in Hep.
    now rewrite (GET_SIZE_of_tag _ _ 0 1 eq_refl Hep).
  - destruct Hc as ([Hmin H8] & Hh & _ & Hc).
    rewrite (GET_SIZE_of_tag _ _ _ _ H8 Hh).
    destruct (Z.eqb_spec (blk_size b) 0); [unfold MIN_BLOCK, OVERHEAD, DSIZE in *; lia |].
    unfold NEXT_BLKP. fold (HDRP bp).
    rewrite (GET_SIZE_of_tag _ _ _ _ H8 Hh).
    rewrite (IH (bp + blk_size b) fuel); trivial.
    + cbn [total] in Hep. now rewrite Z.add_assoc in Hep.
    + simpl in Hfuel. lia.
Qed.

Lemma blocks_from_well_formed (st : state) (bs : list block) :
  well_formed st bs ->
  blocks_from (S (List.length bs)) (heap st) (first_block st)
    = Some (map fst (positions (first_block st) bs)).
Proof.
  intros (_ & _ & Hc & Htot & Hep & _).
  apply blocks_from_chain; [exact Hc | now rewrite Htot | lia].
Qed.

(** ** Freeing in a well-formed heap *)

(** When at least one neighbour of the freed block is allocated (cases 1 to
    3 of [coalesce]), [mm_free] keeps the heap well formed: every block still
    has matching header and footer. *)
Lemma mm_free_well_formed (st : state) (bs : list block) (ptr sz : Z) :
  well_formed st bs -> live st bs ptr sz ->
  GET_ALLOC (heap st) (ptr - DSIZE) = 1 \/ GET_ALLOC (heap st) (HDRP (ptr + sz)) = 1 ->
  exists bs', well_formed (mm_free ptr st) bs' /\ total bs' = total bs.
Proof.
  intros Hwf Hlive Hflags.
  destruct (in_positions_split _ _ _ _ Hlive) as (pre & post & -> & ->).
  set (fb := first_block st) in *. set (ptr := fb + total pre) in *.
  set (A := mkBlock sz true) in *.
  destruct (neighbours_shape st pre post A Hwf)
    as (P & pa & N & na & HP8 & HPmin & HN8 & HNmin & Hpa & Hna & Hsum
        & HPh & HPf & HNh & HPshape & HNshape).
  fold fb ptr in HPh, HPf, HNh. cbn [A blk_size] in Hsum, HNh.
  assert (Hc : chain (heap st) fb (pre ++ A :: post)) by apply Hwf.
  destruct (chain_at _ _ _ _ _ Hc Hlive) as ([Hmin H8] & Hh & _).
  cbn [A blk_size] in Hmin, H8.
  assert (Hcase : pa = 1 \/ na = 1).
  { rewrite (GET_ALLOC_of_tag _ _ _ _ HP8 HPf) in Hflags.
    rewrite (GET_ALLOC_of_tag _ _ _ _ HN8 HNh) in Hflags.
    destruct Hpa as [-> | ->], Hna as [-> | ->]; auto;
      destruct Hflags; discriminate. }
  unfold mm_free.
  rewrite (GET_SIZE_of_tag _ _ sz (flag true) H8 Hh).
  change (PUT (PUT (heap st) (HDRP ptr) (PACK sz 0))
              (FTRP (PUT (heap st) (HDRP ptr) (PACK sz 0)) ptr) (PACK sz 0))
    with (write_block (heap st) ptr (PACK sz 0)).
  assert (Hr : 8 <= sz < Word.modulus) by word_range.
  destruct (write_block_spec (heap st) ptr sz 0 H8 Hr) as (Hh1 & Hf1 & _ & Hfr1).
  set (m := heap st) in *.
  set (m1 := write_block m ptr (PACK sz 0)) in *.
  assert (HPh1 : GET m1 (HDRP (ptr - P)) = PACK P pa).
  { rewrite <- HPh. apply write_block_GET_other; trivial. addr. }
  assert (HPf1 : GET m1 (ptr - DSIZE) = PACK P pa).
  { rewrite <- HPf. apply write_block_GET_other; trivial. addr. }
  assert (HNh1 : GET m1 (HDRP (ptr + sz)) = PACK N na).
  { rewrite <- HNh. apply write_block_GET_other; trivial. addr. }
  destruct Hpa as [Epa | Epa], Hna as [Ena | Ena]; [lia | | |].
  - (* previous block free, next allocated *)
    destruct (HPshape Epa) as (pre' & Epre).
    rewrite (coalesce_case3 m1 ptr P pa sz N na);
      try first [assumption | now left | now right | word_range].
    cbn [snd].
    set (v := PACK (sz + P) 0).
    assert (H8v : (sz + P) mod 8 = 0)
      by (rewrite Z.add_mod, H8, HP8 by lia; reflexivity).
    assert (Hv : 0 <= v < Word.modulus) by (apply PACK_range; word_range).
    assert (Ep : ptr - P = fb + total pre').
    { unfold ptr. rewrite Epre, total_app. cbn [total blk_size]. lia. }
    exists (pre' ++ [mkBlock (sz + P) false] ++ post). split.
    + apply (replace_well_formed st pre' [mkBlock P false; A] post).
      * replace (pre' ++ [mkBlock P false; A] ++ post)
          with ((pre' ++ [mkBlock P false]) ++ A :: post)
          by (rewrite <- app_assoc; reflexivity).
        rewrite <- Epre. exact Hwf.
      * fold fb. rewrite <- Ep. cbn [total A blk_size]. intros x Hx.
        rewrite !PUT_other by addr. apply Hfr1; addr.
      * fold fb. rewrite <- Ep. cbn [chain]. unfold block_ok, tag.
        cbn [blk_size blk_alloc flag]. fold v.
        replace (ptr - P + (sz + P) - DSIZE) with (ptr + sz - DSIZE) by lia.
        repeat split; trivial; try word_range.
        -- now apply GET_PUT_small.
        -- rewrite GET_PUT_other by addr. now apply GET_PUT_small.
      * cbn [total A blk_size]. lia.
    + rewrite Epre, !total_app. cbn [total A blk_size]. lia.
  - (* previous allocated, next free *)
    destruct (HNshape Ena) as (post' & Epost).
    rewrite (coalesce_case2 m1 ptr P pa sz N na);
      try first [assumption | now left | now right | word_range].
    cbn [snd].
    assert (H8v : (sz + N) mod 8 = 0)
      by (rewrite Z.add_mod, H8, HN8 by lia; reflexivity).
    destruct (write_block_spec m1 ptr (sz + N) 0 H8v ltac:(word_range))
      as (Hh2 & Hf2 & _ & Hfr2).
    set (m2 := write_block m1 ptr (PACK (sz + N) 0)) in *.
    assert (HNmin' : MIN_BLOCK <= N).
    { assert (Hok : Forall block_ok (pre ++ A :: post)) by apply (chain_ok _ _ _ Hc).
      rewrite Epost in Hok. apply Forall_app in Hok. destruct Hok as [_ Hok].
      inversion Hok as [| ? ? _ Hok']; subst.
      inversion Hok' as [| ? ? [HminN _] _]; subst. exact HminN. }
    exists (pre ++ [mkBlock (sz + N) false] ++ post'). split.
    + apply (replace_well_formed st pre [A; mkBlock N false] post').
      * cbn [app]. rewrite <- Epost. exact Hwf.
      * fold fb ptr. cbn [total A blk_size]. intros x Hx.
        rewrite Hfr2 by addr. apply Hfr1; addr.
      * fold fb ptr. cbn [chain]. unfold block_ok, tag.
        cbn [blk_size blk_alloc flag].
        repeat split; trivial; word_range.
      * cbn [total A blk_size]. lia.
    + rewrite Epost, !total_app. cbn [total A blk_size]. lia.
  - (* both allocated *)
    rewrite (coalesce_case1 m1 ptr P pa sz N na);
      try first [assumption | now left | now right | word_range].
    cbn [snd].
    exists (pre ++ [mkBlock sz false] ++ post). split.
    + apply (replace_well_formed st pre [A] post).
      * exact Hwf.
      * fold fb ptr. cbn [total A blk_size]. intros x Hx. apply Hfr1; addr.
      * fold fb ptr. cbn [chain]. unfold block_ok, tag.
        cbn [blk_size blk_alloc flag]. repeat split; trivial.
      * reflexivity.
    + rewrite !total_app. cbn [total A blk_size]. lia.
Qed.

(** * Further properties of the code *)

(** ** The block codec on arbitrary arguments *)

Lemma testbit_one (n : Z) : 0 < n -> Z.testbit 1 n = false.
Proof. intros H. change 1 with (Z.ones 1). apply Z.ones_spec_high. lia. Qed.

(** X1: [PACK] masks its [alloc] argument, so the size field of the packed
    word is the size field of [size] whatever [alloc] is, and only bit 0 can
    be set by it; but [size] itself is not masked: the allocated flag of the
    packed word is set as soon as [size] is odd. *)
Theorem PACK_masks_alloc (size alloc : Z) :
  size_of (PACK size alloc) = size_of size /\
  allocated_of (PACK size alloc) = Z.lor (size mod 2) (alloc mod 2) /\
  (allocated_of (PACK size alloc) = 0 <-> size mod 2 = 0 /\ alloc mod 2 = 0).
Proof.
  assert (Hal : allocated_of (PACK size alloc) = Z.lor (size mod 2) (alloc mod 2)).
  { unfold allocated_of, PACK.
    rewrite Z.land_lor_distr_l.
    change 1 with (Z.ones 1). rewrite <- Z.land_assoc, Z.land_diag.
    now rewrite !Z.land_ones by lia. }
  split; [| split; [exact Hal |]].
  - unfold size_of, PACK.
    apply Z.bits_inj'. intros n Hn.
    rewrite !Z.land_spec, Z.lor_spec, Z.land_spec.
    destruct (Z.eq_dec n 0) as [-> | Hpos].
    + change (Z.testbit (Z.lnot 7) 0) with false. now rewrite !andb_false_r.
    + rewrite (testbit_one n) by lia. now rewrite andb_false_r, orb_false_r.
  - rewrite Hal.
    pose proof (Z.mod_pos_bound size 2 ltac:(lia)) as Hs.
    pose proof (Z.mod_pos_bound alloc 2 ltac:(lia)) as Ha.
    assert (Es : size mod 2 = 0 \/ size mod 2 = 1) by lia.
    assert (Ea : alloc mod 2 = 0 \/ alloc mod 2 = 1) by lia.
    destruct Es as [-> | ->], Ea as [-> | ->]; simpl; split; intros H;
      try lia; destruct H; lia.
Qed.

(** ** Alignment and navigation in a well-formed heap *)

Lemma positions_aligned (bp p : Z) (b : block) (bs : list block) :
  aligned bp -> Forall block_ok bs -> In (p, b) (positions bp bs) -> aligned p.
Proof.
  unfold aligned. revert bp.
  induction bs as [| b0 bs IH]; intros bp Hbp Hok Hin; [contradiction |].
  inversion Hok as [| ? ? [_ H8] Hok']; subst.
  destruct Hin as [E | Hin].
  - injection E as <- _. exact Hbp.
  - apply (IH (bp + blk_size b0)); trivial.
    rewrite Z.add_mod, Hbp, H8 by lia. reflexivity.
Qed.

Lemma first_block_aligned (st : state) :
  aligned (heap_listp st) -> aligned (first_block st).
Proof.
  unfold aligned, first_block, DSIZE. intros H.
  rewrite Z.add_mod, H by lia. reflexivity.
Qed.

(** X2: in a well-formed heap the boundary tags make the block list doubly
    linked: for every block, the next-block link leads to the address right
    after the block, going to the next block and back, or to the previous
    block (or the prologue) and forth, returns to the block, and the footer
    sits one doubleword before the next block. *)
Theorem next_prev_round_trip (st : state) (bs : list block) (p : Z) (b : block) :
  well_formed st bs -> In (p, b) (positions (first_block st) bs) ->
  NEXT_BLKP (heap st) p = p + blk_size b /\
  PREV_BLKP (heap st) (NEXT_BLKP (heap st) p) = p /\
  NEXT_BLKP (heap st) (PREV_BLKP (heap st) p) = p /\
  FTRP (heap st) p = NEXT_BLKP (heap st) p - DSIZE.
Proof.
  intros Hwf Hin.
  assert (Hc : chain (heap st) (first_block st) bs) by apply Hwf.
  destruct (chain_at _ _ _ _ _ Hc Hin) as ([Hmin H8] & Hh & Hf).
  destruct (neighbours _ _ _ _ Hwf Hin)
    as (P & pa & N & na & HP8 & HPmin & _ & _ & _ & _ & _ & HPh & HPf & _).
  assert (En : NEXT_BLKP (heap st) p = p + blk_size b).
  { unfold NEXT_BLKP. fold (HDRP p). now rewrite (GET_SIZE_of_tag _ _ _ _ H8 Hh). }
  assert (Ep : PREV_BLKP (heap st) p = p - P).
  { unfold PREV_BLKP. now rewrite (GET_SIZE_of_tag _ _ _ _ HP8 HPf). }
  split; [exact En |]. split; [| split].
  - rewrite En. unfold PREV_BLKP.
    rewrite (GET_SIZE_of_tag _ _ _ _ H8 Hf). lia.
  - rewrite Ep. unfold NEXT_BLKP. fold (HDRP (p - P)).
    rewrite (GET_SIZE_of_tag _ _ _ _ HP8 HPh). lia.
  - rewrite En. unfold FTRP. now rewrite (GET_SIZE_of_tag _ _ _ _ H8 Hh).
Qed.

Lemma next_prev_round_trip_witness :
  NEXT_BLKP (heap Run.four_blocks) 4128 = 4128 + 16 /\
  PREV_BLKP (heap Run.four_blocks) (NEXT_BLKP (heap Run.four_blocks) 4128) = 4128 /\
  NEXT_BLKP (heap Run.four_blocks) (PREV_BLKP (heap Run.four_blocks) 4128) = 4128 /\
  FTRP (heap Run.four_blocks) 4128 = NEXT_BLKP (heap Run.four_blocks) 4128 - DSIZE.
Proof.
  apply (next_prev_round_trip Run.four_blocks Run.four_blocks_layout 4128
                              (mkBlock 16 true)).
  - vm_compute. intuition congruence.
  - vm_compute. right. left. reflexivity.
Defined.

(** ** Initialisation *)

(** X3: when the growth primitive has room for the 16 bytes of padding,
    prologue and epilogue and for one chunk of 4096 bytes, inside the lower
    half of the address space and not at address 0, [mm_init] returns 0 and
    leaves a well-formed heap made of one free block of 4096 bytes, with
    [heap_listp] 8 bytes above the old top of the heap, the heap grown by
    4112 bytes and nothing printed. *)
Theorem mm_init_succeeds (st : state) :
  0 < mem_brk st ->
  mem_brk st + 4 * WSIZE + CHUNKSIZE <= mem_max_addr st ->
  mem_max_addr st <= 2 ^ 31 ->
  exists st',
    mm_init st = (0, st') /\
    well_formed st' [mkBlock CHUNKSIZE false] /\
    heap_listp st' = mem_brk st + DSIZE /\
    mem_brk st' = mem_brk st + 4 * WSIZE + CHUNKSIZE /\
    output st' = output st.
Proof.
  intros Hlo Hroom Hmax.
  change (2 ^ 31) with 2147483648 in Hmax.
  assert (Hmax' : mem_max_addr st <= Word.modulus) by word_range.
  destruct (mm_init st) as [r st'] eqn:Hinit.
  assert (Hr : r = 0 /\ mem_brk st' = mem_brk st + 4 * WSIZE + CHUNKSIZE /\
               output st' = output st).
  { unfold mm_init, mem_sbrk in Hinit.
    destruct (Z.ltb_spec (4 * WSIZE) 0) as [H0 | _]; [unfold WSIZE in H0; lia |].
    destruct (Z.ltb_spec (mem_max_addr st) (mem_brk st + 4 * WSIZE)) as [H1 | _];
      [change CHUNKSIZE with 4096 in Hroom; lia |].
    cbn [orb] in Hinit.
    destruct (Z.eqb_spec (mem_brk st) 0) as [H2 | _]; [lia |].
    cbv zeta in Hinit.
    match type of Hinit with
    | context [extend_heap _ ?s2] => set (st2 := s2) in *
    end.
    assert (Hc8 : CHUNKSIZE mod 8 = 0) by reflexivity.
    assert (Hcr : 8 <= CHUNKSIZE < 2 ^ 31) by (vm_compute; split; congruence).
    rewrite (extend_heap_unfold st2 CHUNKSIZE Hc8 Hcr) in Hinit.
    unfold mem_sbrk in Hinit.
    assert (Eb : mem_brk st2 = mem_brk st + 4 * WSIZE) by reflexivity.
    assert (Em : mem_max_addr st2 = mem_max_addr st) by reflexivity.
    rewrite Eb, Em in Hinit.
    destruct (Z.ltb_spec CHUNKSIZE 0) as [H3 | _]; [change CHUNKSIZE with 4096 in H3; lia |].
    destruct (Z.ltb_spec (mem_max_addr st) (mem_brk st + 4 * WSIZE + CHUNKSIZE))
      as [H4 | _]; [lia |].
    cbn [orb] in Hinit.
    rewrite to_int_small in Hinit
      by (change CHUNKSIZE with 4096 in Hroom; unfold WSIZE in *;
          change (2 ^ 31) with 2147483648; lia).
    destruct (Z.ltb_spec (mem_brk st + 4 * WSIZE) 0) as [H5 | _];
      [unfold WSIZE in H5; lia |].
    cbv zeta in Hinit. injection Hinit as <- <-.
    repeat split. }
  destruct Hr as (-> & Hbrk & Hout).
  destruct (mm_init_well_formed st st' ltac:(lia) Hmax' Hinit) as [Hwf Hhl].
  exists st'. repeat split; trivial; apply Hwf.
Qed.

Lemma mm_init_succeeds_witness :
  exists st',
    mm_init Run.fresh = (0, st') /\
    well_formed st' [mkBlock CHUNKSIZE false] /\
    heap_listp st' = mem_brk Run.fresh + DSIZE /\
    mem_brk st' = mem_brk Run.fresh + 4 * WSIZE + CHUNKSIZE /\
    output st' = output Run.fresh.
Proof.
  apply (mm_init_succeeds Run.fresh); vm_compute; congruence.
Defined.



(** ** Allocation *)

Lemma extendsize_eq (adj : Z) :
  0 <= adj < 2 ^ 31 ->
  Word.to_size_t (MAX (Word.to_int adj) CHUNKSIZE) = Z.max adj CHUNKSIZE.
Proof.
  intros Hr. rewrite to_int_small by lia. unfold MAX.
  change CHUNKSIZE with 4096. change (2 ^ 31) with 2147483648 in Hr.
  destruct (Z.gtb_spec adj 4096); rewrite to_size_t_small by word_range; lia.
Qed.

(** X5: on a well-formed heap whose [heap_listp] is doubleword aligned, a
    successful [mm_malloc] of [s] bytes ([s + 15 < 2^31]) returns a doubleword
    aligned pointer to a block marked allocated whose size leaves at least
    [s] bytes of payload, inside the heap; the heap stays well formed and
    every block that was live keeps its address, its tags and its payload. *)
Theorem mm_malloc_returns_block (fuel : nat) (st st1 : state) (bs : list block)
        (s p : Z) :
  well_formed st bs -> aligned (heap_listp st) ->
  0 < s -> s + 15 < 2 ^ 31 ->
  mm_malloc fuel s st = Ret (Some p) st1 ->
  aligned p /\
  GET_ALLOC (heap st1) (HDRP p) = 1 /\
  s + OVERHEAD <= GET_SIZE (heap st1) (HDRP p) /\
  first_block st <= p /\ p + s <= mem_brk st1 - DSIZE /\
  (exists bs1, well_formed st1 bs1) /\
  forall q sz, live st bs q sz ->
    q <> p /\
    GET (heap st1) (HDRP q) = PACK sz 1 /\
    GET (heap st1) (FTRP (heap st1) q) = PACK sz 1 /\
    forall i, 0 <= i < sz - OVERHEAD -> heap st1 (q + i) = heap st (q + i).
Proof.
  intros Hwf Hal Hs Hr Hm.
  destruct (mm_malloc_well_formed fuel st st1 bs s p Hwf Hs Hr Hm)
    as (bs1 & nsz & Hwf1 & Hfb & Hnew & Hnsz & Hkeep).
  destruct (well_formed_sizes _ _ Hwf1) as (Hok1 & _ & _).
  assert (Hc1 : chain (heap st1) (first_block st1) bs1) by apply Hwf1.
  destruct (chain_at _ _ _ _ _ Hc1 Hnew) as ([Hmin H8] & Hh & _).
  cbn [blk_size] in Hmin, H8.
  destruct (in_positions_range _ _ _ _ Hok1 Hnew) as (_ & Hlo & Hhi).
  cbn [blk_size] in Hhi.
  assert (Hbrk : first_block st1 + total bs1 = mem_brk st1) by apply Hwf1.
  split; [| split; [| split; [| split; [| split; [| split]]]]].
  - apply (positions_aligned (first_block st1) p (mkBlock nsz true) bs1); trivial.
    apply first_block_aligned.
    unfold first_block in Hfb. unfold aligned in *.
    replace (heap_listp st1) with (heap_listp st) by lia. exact Hal.
  - now rewrite (GET_ALLOC_of_tag _ _ nsz (flag true) H8 Hh).
  - rewrite (GET_SIZE_of_tag _ _ nsz (flag true) H8 Hh). exact Hnsz.
  - lia.
  - unfold OVERHEAD, DSIZE in *. lia.
  - now exists bs1.
  - intros q sz Hlive.
    destruct (Hkeep q (mkBlock sz true) Hlive eq_refl) as (Hq1 & Hne & Hsame).
    rewrite <- Hfb in Hq1.
    destruct (chain_at _ _ _ _ _ Hc1 Hq1) as ([Hminq H8q] & Hhq & Hfq).
    cbn [blk_size] in Hminq, H8q, Hfq.
    split; [exact Hne |]. split; [exact Hhq |]. split.
    + unfold FTRP. rewrite (GET_SIZE_of_tag _ _ sz (flag true) H8q Hhq). exact Hfq.
    + intros i Hi. apply Hsame. unfold in_block. cbn [blk_size].
      unfold OVERHEAD in *. addr.
Qed.

Lemma mm_malloc_returns_block_witness :
  aligned 4176 /\
  GET_ALLOC (heap Run.after_realloc_malloc) (HDRP 4176) = 1 /\
  100 + OVERHEAD <= GET_SIZE (heap Run.after_realloc_malloc) (HDRP 4176).
Proof.
  destruct (mm_malloc_returns_block 16 Run.four_blocks Run.after_realloc_malloc
              Run.four_blocks_layout 100 4176) as (H1 & H2 & H3 & _).
  - vm_compute. intuition congruence.
  - vm_compute. reflexivity.
  - lia.
  - vm_compute. reflexivity.
  - reflexivity.
  - split; [exact H1 | split; [exact H2 | exact H3]].
Defined.

(** X6: a [mm_malloc] that returns [NULL], for whatever reason (a request
    of size 0, or no fit and a heap that cannot grow), has written no byte
    of memory, printed nothing and left [heap_listp] in place. *)
Theorem mm_malloc_null_keeps_heap (fuel : nat) (s : Z) (st st1 : state) :
  mm_malloc fuel s st = Ret None st1 ->
  heap st1 = heap st /\ heap_listp st1 = heap_listp st /\
  output st1 = output st /\ mem_max_addr st1 = mem_max_addr st.
Proof.
  unfold mm_malloc. intros Hm.
  destruct (s <=? 0); [injection Hm as <-; repeat split |].
  destruct (find_fit fuel st (adjust_size s)) as [[bp |] |]; try discriminate.
  unfold extend_heap, mem_sbrk in Hm.
  match type of Hm with
  | context [if (Word.to_int ?sz <? 0) || _ then _ else _] => set (size := sz) in *
  end.
  destruct ((Word.to_int size <? 0) || (mem_max_addr st <? mem_brk st + Word.to_int size)).
  - injection Hm as <-. repeat split.
  - destruct (Word.to_int (mem_brk st) <? 0).
    + injection Hm as <-. repeat split.
    + cbv zeta in Hm.
      destruct (coalesce _ (mem_brk st)). discriminate.
Qed.

Lemma mm_malloc_null_keeps_heap_witness :
  heap Run.tight_one_block = heap Run.tight_one_block /\
  heap_listp Run.tight_one_block = heap_listp Run.tight_one_block /\
  output Run.tight_one_block = output Run.tight_one_block /\
  mem_max_addr Run.tight_one_block = mem_max_addr Run.tight_one_block.
Proof.
  apply (mm_malloc_null_keeps_heap 16 8000 Run.tight_one_block Run.tight_one_block).
  vm_compute. reflexivity.
Defined.

(** X7: a successful [mm_malloc] of [s] bytes ([s + 15 < 2^31]), on any
    heap, either found a fit and left the top of the heap where it was, or
    found none and raised it by exactly the larger of the adjusted size and
    [CHUNKSIZE] (4096): the heap never grows by less than a chunk. *)
Theorem mm_malloc_growth (fuel : nat) (s p : Z) (st st1 : state) :
  0 < s -> s + 15 < 2 ^ 31 ->
  mm_malloc fuel s st = Ret (Some p) st1 ->
  (find_fit fuel st (adjust_size s) = Some (Some p) /\
   mem_brk st1 = mem_brk st) \/
  (find_fit fuel st (adjust_size s) = Some None /\
   mem_brk st1 = mem_brk st + Z.max (adjust_size s) CHUNKSIZE /\
   CHUNKSIZE <= mem_brk st1 - mem_brk st).
Proof.
  intros Hs Hr Hm.
  assert (Hr' : s + 15 < Word.modulus)
    by (change (2 ^ 31) with 2147483648 in Hr; word_range).
  destruct (adjust_size_bounds s Hs Hr') as (Ha8 & Hamin & Halo & Hahi).
  unfold mm_malloc in Hm.
  destruct (Z.leb_spec s 0); [lia |].
  set (adj := adjust_size s) in *.
  destruct (find_fit fuel st adj) as [[bp |] |]; [| | discriminate].
  - left. injection Hm as <- <-. split; reflexivity.
  - right.
    destruct (extendsize_bounds adj Ha8 ltac:(lia)) as (He8 & Her & Hge).
    rewrite (extendsize_eq adj) in * by (unfold MIN_BLOCK, OVERHEAD, DSIZE in *; lia).
    set (ext := Z.max adj CHUNKSIZE) in *.
    rewrite (extend_heap_unfold st ext He8) in Hm
      by (unfold MIN_BLOCK, OVERHEAD, DSIZE in *; lia).
    unfold mem_sbrk in Hm.
    destruct ((ext <? 0) || (mem_max_addr st <? mem_brk st + ext)); [discriminate |].
    destruct (Word.to_int (mem_brk st) <? 0); [discriminate |].
    cbv zeta in Hm. injection Hm as <- <-.
    split; [reflexivity |]. split; [reflexivity |].
    cbn [mem_brk set_heap set_brk]. unfold ext. lia.
Qed.

Lemma mm_malloc_growth_witness :
  (find_fit 16 Run.four_blocks (adjust_size 5000) = Some (Some 4176) /\
   mem_brk (Run.state_of (mm_malloc 16 5000 Run.four_blocks))
     = mem_brk Run.four_blocks) \/
  (find_fit 16 Run.four_blocks (adjust_size 5000) = Some None /\
   mem_brk (Run.state_of (mm_malloc 16 5000 Run.four_blocks))
     = mem_brk Run.four_blocks + Z.max (adjust_size 5000) CHUNKSIZE /\
   CHUNKSIZE <= mem_brk (Run.state_of (mm_malloc 16 5000 Run.four_blocks))
                - mem_brk Run.four_blocks).
Proof.
  apply (mm_malloc_growth 16 5000 4176 Run.four_blocks
           (Run.state_of (mm_malloc 16 5000 Run.four_blocks))).
  - lia.
  - vm_compute. reflexivity.
  - reflexivity.
Defined.

(** ** The search, compared with first fit on the block list *)

Lemma find_fit_loop_first_fit (m : mem) (adjsize : Z) (bs : list block) :
  forall bp fuel,
    chain m bp bs ->
    GET m (HDRP (bp + total bs)) = PACK 0 1 ->
    (List.length bs < fuel)%nat ->
    find_fit_loop fuel m bp adjsize
    = Some (option_map (fun r => bp + fst r) (first_fit adjsize bs)).
Proof.
  induction bs as [| b bs IH]; intros bp fuel Hc Hep Hfuel;
    (destruct fuel as [| fuel]; [simpl in Hfuel; lia |]); simpl.
  - cbn [total] in Hep. rewrite Z.add_0_r in Hep.
    now rewrite (GET_SIZE_of_tag _ _ 0 1 eq_refl Hep).
  - destruct Hc as (Hok & Hh & _ & Hc).
    rewrite (tag_size _ _ _ Hok Hh), (tag_alloc _ _ _ Hok Hh).
    destruct Hok as [Hmin H8].
    destruct (Z.gtb_spec (blk_size b) 0); [| unfold MIN_BLOCK, OVERHEAD, DSIZE in *; lia].
    replace (flag (blk_alloc b) =? 0) with (negb (blk_alloc b))
      by (destruct (blk_alloc b); reflexivity).
    destruct (negb (blk_alloc b) && (adjsize <=? blk_size b)).
    + simpl. now rewrite Z.add_0_r.
    + unfold NEXT_BLKP. fold (HDRP bp).
      rewrite (GET_SIZE_of_tag _ _ _ _ H8 Hh).
      rewrite (IH (bp + blk_size b) fuel); trivial.
      * destruct (first_fit adjsize bs) as [[off l] |]; simpl; [| reflexivity].
        do 2 f_equal. lia.
      * cbn [total] in Hep. now rewrite Z.add_assoc in Hep.
      * simpl in Hfuel. lia.
Qed.

Lemma find_fit_first_fit_list (st : state) (bs : list block) (fuel : nat) (adjsize : Z) :
  well_formed st bs -> (S (List.length bs) < fuel)%nat ->
  find_fit fuel st adjsize
  = Some (option_map (fun r => first_block st + fst r) (first_fit adjsize bs)).
Proof.
  intros (Hph & _ & Hc & Htot & Hep & _) Hfuel.
  unfold find_fit. destruct fuel as [| fuel]; [lia |]. simpl.
  rewrite (GET_SIZE_of_tag _ _ 8 1 eq_refl Hph).
  rewrite (GET_ALLOC_of_tag _ _ 8 1 eq_refl Hph). simpl.
  unfold NEXT_BLKP. fold (HDRP (heap_listp st)).
  rewrite (GET_SIZE_of_tag _ _ 8 1 eq_refl Hph).
  apply (find_fit_loop_first_fit (heap st) adjsize bs (first_block st) fuel Hc).
  - now rewrite Htot.
  - lia.
Qed.

Lemma first_fit_split (a : Z) (bs : list block) (off : Z) (l : list block) :
  first_fit a bs = Some (off, l) ->
  exists pre F post,
    bs = pre ++ F :: post /\ off = total pre /\
    blk_alloc F = false /\ a <= blk_size F /\
    l = pre ++ placed (blk_size F) a ++ post /\
    Forall (fun b => blk_alloc b = true \/ blk_size b < a) pre.
Proof.
  revert off l. induction bs as [| b bs IH]; intros off l H; [discriminate |].
  simpl in H.
  destruct (negb (blk_alloc b) && (a <=? blk_size b)) eqn:Hfit.
  - injection H as <- <-. apply andb_true_iff in Hfit. destruct Hfit as [Hf Hs].
    exists [], b, bs. simpl.
    repeat split; trivial; [now destruct (blk_alloc b) | lia].
  - destruct (first_fit a bs) as [[off' l'] |]; [| discriminate].
    injection H as <- <-.
    destruct (IH off' l' eq_refl) as (pre & F & post & -> & -> & HF & Hs & -> & Hpre).
    exists (b :: pre), F, post. simpl.
    repeat split; trivial. constructor; [| exact Hpre].
    apply andb_false_iff in Hfit. destruct Hfit as [Hf | Hsz].
    + left. now destruct (blk_alloc b).
    + right. lia.
Qed.

Lemma first_fit_none (a : Z) (bs : list block) :
  first_fit a bs = None ->
  Forall (fun b => blk_alloc b = true \/ blk_size b < a) bs.
Proof.
  induction bs as [| b bs IH]; intros H; [constructor |].
  simpl in H.
  destruct (negb (blk_alloc b) && (a <=? blk_size b)) eqn:Hfit; [discriminate |].
  destruct (first_fit a bs) as [[off' l'] |]; [discriminate |].
  constructor; [| now apply IH].
  apply andb_false_iff in Hfit. destruct Hfit as [Hf | Hsz].
  - left. now destruct (blk_alloc b).
  - right. lia.
Qed.

Lemma first_fit_skips (a : Z) (pre rest : list block) :
  Forall (fun b => blk_alloc b = true \/ blk_size b < a) pre ->
  first_fit a (pre ++ rest)
  = match first_fit a rest with
    | Some (off, l) => Some (total pre + off, pre ++ l)
    | None => None
    end.
Proof.
  induction 1 as [| b pre Hb _ IH]; simpl.
  - destruct (first_fit a rest) as [[off l] |]; reflexivity.
  - assert (Hfit : negb (blk_alloc b) && (a <=? blk_size b) = false).
    { apply andb_false_iff. destruct Hb as [Hb | Hb];
        [left; now rewrite Hb | right; lia]. }
    rewrite Hfit, IH.
    destruct (first_fit a rest) as [[off l] |]; [| reflexivity].
    do 2 f_equal. lia.
Qed.

(** ** Placement and growth, compared with the block list *)

Lemma total_placed (c a : Z) : total (placed c a) = c.
Proof. unfold placed. destruct (c - a <? MIN_BLOCK); cbn [total blk_size]; lia. Qed.

Lemma place_layout (st : state) (pre post : list block) (F : block) (adjsize : Z) :
  well_formed st (pre ++ F :: post) ->
  blk_alloc F = false ->
  adjsize mod 8 = 0 -> MIN_BLOCK <= adjsize <= blk_size F ->
  well_formed (set_heap st (place (heap st) (first_block st + total pre) adjsize))
              (pre ++ placed (blk_size F) adjsize ++ post).
Proof.
  intros Hwf HF H8 Hadj.
  destruct (well_formed_sizes _ _ Hwf) as (Hok & _ & Hbound).
  set (fb := first_block st) in *. set (p := fb + total pre) in *.
  set (c := blk_size F) in *.
  assert (Hc : chain (heap st) fb (pre ++ F :: post)) by apply Hwf.
  apply chain_app in Hc. destruct Hc as [_ ([HminF H8F] & HhF & _)].
  fold p c in HminF, H8F, HhF.
  assert (Hcr : c < Word.modulus).
  { apply Forall_app in Hok. destruct Hok as [Hokpre Hokpost].
    inversion Hokpost as [| ? ? _ Hokpost']; subst.
    pose proof (total_nonneg _ Hokpre). pose proof (total_nonneg _ Hokpost').
    rewrite total_app in Hbound. cbn [total] in Hbound. fold c in Hbound.
    word_range. }
  assert (Hsz : GET_SIZE (heap st) (HDRP p) = c)
    by apply (GET_SIZE_of_tag _ _ _ _ H8F HhF).
  assert (Hrem8 : (c - adjsize) mod 8 = 0)
    by (rewrite Zminus_mod, H8F, H8; reflexivity).
  apply (replace_well_formed st pre [F] post); [exact Hwf | | | ].
  - (* nothing outside the block is written *)
    fold fb p. cbn [total]. fold c. intros x Hx.
    destruct (Z_lt_le_dec (c - adjsize) MIN_BLOCK) as [Hwhole | Hsplit].
    + rewrite (place_whole _ _ _ c Hsz) by (trivial; word_range).
      destruct (write_block_spec (heap st) p c 1 H8F ltac:(word_range))
        as (_ & _ & _ & Hfr).
      apply Hfr; addr.
    + rewrite (place_split _ _ _ c Hsz) by (trivial; word_range).
      destruct (write_block_spec (heap st) p adjsize 1 H8 ltac:(word_range))
        as (_ & _ & _ & Hfr1).
      destruct (write_block_spec (write_block (heap st) p (PACK adjsize 1))
                  (p + adjsize) (c - adjsize) 0 Hrem8 ltac:(word_range))
        as (_ & _ & _ & Hfr2).
      rewrite Hfr2, Hfr1; trivial; addr.
  - (* the tags of the new blocks *)
    fold fb p. unfold placed.
    destruct (Z.ltb_spec (c - adjsize) MIN_BLOCK) as [Hwhole | Hsplit].
    + rewrite (place_whole _ _ _ c Hsz) by (trivial; word_range).
      destruct (write_block_spec (heap st) p c 1 H8F ltac:(word_range))
        as (Hh1 & Hf1 & _).
      cbn [chain]. unfold block_ok, tag. cbn [blk_size blk_alloc flag].
      repeat split; trivial.
    + rewrite (place_split _ _ _ c Hsz) by (trivial; word_range).
      destruct (write_block_spec (heap st) p adjsize 1 H8 ltac:(word_range))
        as (Hh1 & Hf1 & _).
      set (m1 := write_block (heap st) p (PACK adjsize 1)) in *.
      destruct (write_block_spec m1 (p + adjsize) (c - adjsize) 0 Hrem8
                  ltac:(word_range)) as (Hh2 & Hf2 & _).
      cbn [chain]. unfold block_ok, tag. cbn [blk_size blk_alloc flag].
      assert (E1 : GET (write_block m1 (p + adjsize) (PACK (c - adjsize) 0)) (HDRP p)
                   = PACK adjsize 1).
      { rewrite <- Hh1. apply (write_block_GET_other m1); trivial; word_range. }
      assert (E2 : GET (write_block m1 (p + adjsize) (PACK (c - adjsize) 0))
                       (p + adjsize - DSIZE) = PACK adjsize 1).
      { rewrite <- Hf1. apply (write_block_GET_other m1); trivial; word_range. }
      repeat split; trivial; try word_range.
  - rewrite total_placed. cbn [total]. fold c. lia.
Qed.

Lemma grown_cons (size : Z) (b : block) (bs : list block) :
  bs <> [] -> grown size (b :: bs) = b :: grown size bs.
Proof. destruct bs; [contradiction | reflexivity]. Qed.

Lemma grown_last (size : Z) (pre : list block) (L : block) :
  grown size (pre ++ [L])
  = pre ++ (if blk_alloc L then [L; mkBlock size false]
            else [mkBlock (blk_size L + size) false]).
Proof.
  induction pre as [| b pre IH]; [reflexivity |].
  cbn [app]. rewrite grown_cons by (destruct pre; discriminate).
  now rewrite IH.
Qed.

(** The last block of a grown list: free and at least [size] bytes long. *)
Lemma grown_shape (size : Z) (bs : list block) :
  exists pre L,
    grown size bs = pre ++ [L] /\ blk_alloc L = false /\
    (blk_size L = size /\ pre = bs \/
     exists P, bs = pre ++ [mkBlock P false] /\ blk_size L = P + size).
Proof.
  destruct (last_case bs) as [-> | (pre & L & ->)].
  - exists [], (mkBlock size false). auto.
  - rewrite grown_last. destruct (blk_alloc L) eqn:HL.
    + exists (pre ++ [L]), (mkBlock size false).
      rewrite <- app_assoc. auto.
    + exists pre, (mkBlock (blk_size L + size) false).
      split; [reflexivity |]. split; [reflexivity |]. right.
      exists (blk_size L). rewrite <- HL, <- block_eta. auto.
Qed.

(** Coalescing the free block [N] at the end of a well-formed heap. *)
Lemma coalesce_last_layout (st : state) (bs : list block) (N : block) :
  well_formed st (bs ++ [N]) -> blk_alloc N = false ->
  well_formed (set_heap st (snd (coalesce (heap st) (first_block st + total bs))))
              (grown (blk_size N) bs) /\
  exists pre L,
    grown (blk_size N) bs = pre ++ [L] /\
    fst (coalesce (heap st) (first_block st + total bs)) = first_block st + total pre /\
    blk_alloc L = false /\ blk_size N <= blk_size L.
Proof.
  intros Hwf HN.
  destruct (well_formed_sizes _ _ Hwf) as (Hok & _ & Hbound).
  pose proof Hwf as (Hph & Hpf & Hc & Hsum & Hep & Hlo & Hbrk & Hmax).
  set (fb := first_block st) in *. set (e := fb + total bs). set (m := heap st) in *.
  apply Forall_app in Hok. destruct Hok as [Hokbs HokN].
  inversion HokN as [| ? ? [HminN H8N] _]; subst.
  pose proof (total_nonneg _ Hokbs) as Hbs0.
  rewrite total_app in Hbound, Hsum. cbn [total] in Hbound, Hsum.
  rewrite Z.add_0_r in Hbound, Hsum.
  apply chain_app in Hc. destruct Hc as [Hcbs (_ & HhN & _)]. fold e in HhN.
  unfold tag in HhN. rewrite HN in HhN. cbn [flag] in HhN.
  assert (Hnext : GET m (HDRP (e + blk_size N)) = PACK 0 1).
  { replace (e + blk_size N) with (mem_brk st) by (unfold e; lia). exact Hep. }
  pose proof (prev_tags st bs [N] Hwf) as Hprev. fold fb m e in Hprev.
  destruct Hprev as (P & pa & HP8 & HPmin & Hpa & HPle & HPh & HPf & HPlast).
  assert (Hsum3 : P + blk_size N + 0 < Word.modulus) by word_range.
  assert (Hgrown_alloc : pa = 1 -> grown (blk_size N) bs = bs ++ [mkBlock (blk_size N) false]).
  { intros Epa. destruct (last_case bs) as [-> | (pre & L & ->)]; [reflexivity |].
    rewrite grown_last.
    apply chain_app in Hcbs. destruct Hcbs as [_ ([_ H8L] & _ & HfL & _)].
    unfold e in HPf. rewrite total_app in HPf. cbn [total] in HPf.
    replace (fb + (total pre + (blk_size L + 0)) - DSIZE)
      with (fb + total pre + blk_size L - DSIZE) in HPf by lia.
    rewrite HfL in HPf.
    assert (Hfl : allocated_of (tag L) = allocated_of (PACK P pa)) by now rewrite HPf.
    unfold tag in Hfl. rewrite !allocated_of_PACK in Hfl by trivial.
    destruct (blk_alloc L); [now rewrite <- app_assoc |].
    subst pa. discriminate. }
  destruct Hpa as [Epa | Epa].
  - (* merge with the previous block *)
    destruct (HPlast Epa) as (pre & ->).
    rewrite grown_last. cbn [blk_alloc blk_size].
    rewrite (coalesce_case3 m e P pa (blk_size N) 0 1);
      try first [assumption | reflexivity | now left | now right | word_range].
    cbn [fst snd].
    set (v := PACK (blk_size N + P) 0).
    set (m4 := PUT (PUT m (e + blk_size N - DSIZE) v) (HDRP (e - P)) v).
    set (L := mkBlock P false) in *.
    apply Forall_app in Hokbs. destruct Hokbs as [Hokpre _].
    assert (Ee : e - P = fb + total pre).
    { unfold e. rewrite total_app. cbn [total L blk_size]. lia. }
    assert (H8v : (blk_size N + P) mod 8 = 0)
      by (rewrite Z.add_mod, H8N, HP8 by lia; reflexivity).
    assert (Hv : 0 <= v < Word.modulus) by (apply PACK_range; word_range).
    split.
    + replace (pre ++ [mkBlock (P + blk_size N) false])
        with (pre ++ [mkBlock (blk_size N + P) false] ++ [])
        by (cbn [app]; do 3 f_equal; lia).
      apply (replace_well_formed st pre [L; N] []).
      * replace (pre ++ [L; N] ++ []) with ((pre ++ [L]) ++ [N])
          by (rewrite <- app_assoc; reflexivity).
        exact Hwf.
      * fold fb. rewrite <- Ee. intros x Hx. cbn [total L blk_size] in Hx.
        unfold m4. rewrite !PUT_other; trivial; word_range.
      * cbn [chain]. unfold block_ok, tag. cbn [blk_size blk_alloc flag].
        fold fb. rewrite <- Ee. fold v.
        replace (e - P + (blk_size N + P) - DSIZE) with (e + blk_size N - DSIZE) by lia.
        repeat split; trivial; try word_range.
        -- unfold m4. now apply GET_PUT_small.
        -- unfold m4. rewrite GET_PUT_other by word_range. now apply GET_PUT_small.
      * cbn [total L blk_size]. lia.
    + exists pre, (mkBlock (P + blk_size N) false).
      split; [reflexivity |]. split; [exact Ee |]. split; [reflexivity |].
      cbn [blk_size]. lia.
  - (* nothing to merge *)
    rewrite (Hgrown_alloc Epa).
    rewrite (coalesce_case1 m e P pa (blk_size N) 0 1);
      try first [assumption | reflexivity | now left | now right | word_range].
    cbn [fst snd]. unfold m. rewrite set_heap_same.
    split; [rewrite <- HN, <- block_eta; exact Hwf |].
    exists bs, (mkBlock (blk_size N) false).
    split; [reflexivity |]. split; [reflexivity |]. split; [reflexivity |].
    cbn [blk_size]. lia.
Qed.

(** The free block written by [extend_heap] at the old top of the heap,
    before coalescing. *)
Lemma sbrk_block_well_formed (st : state) (bs : list block) (size : Z) :
  well_formed st bs ->
  size mod 8 = 0 -> MIN_BLOCK <= size < Word.modulus ->
  mem_brk st + size <= mem_max_addr st ->
  well_formed
    (set_heap (set_brk st (mem_brk st + size))
       (PUT (write_block (heap st) (mem_brk st) (PACK size 0))
            (HDRP (mem_brk st + size)) (PACK 0 1)))
    (bs ++ [mkBlock size false]).
Proof.
  intros Hwf H8 Hr Hfit.
  destruct (well_formed_sizes _ _ Hwf) as (Hok & Htot0 & Hbound).
  destruct Hwf as (Hph & Hpf & Hc & Hsum & Hep & Hlo & Hbrk & Hmax).
  set (e := mem_brk st) in *. set (m := heap st) in *.
  set (m3 := PUT (write_block m e (PACK size 0)) (HDRP (e + size)) (PACK 0 1)).
  destruct (write_block_spec m e size 0 H8 ltac:(word_range)) as (Hh & Hf & _ & Hfr).
  assert (F1 : forall x, x < HDRP e -> m3 x = m x).
  { intros x Hx. unfold m3. rewrite PUT_other by addr. apply Hfr; addr. }
  unfold well_formed, first_block in *.
  cbn [heap set_heap set_brk heap_listp mem_brk mem_max_addr].
  split; [| split; [| split; [| split; [| split]]]].
  - rewrite <- Hph. apply GET_ext. intros x Hx. apply F1. addr.
  - rewrite <- Hpf. apply GET_ext. intros x Hx. apply F1. addr.
  - apply chain_app. split.
    + apply (chain_frame_bytes _ _ _ _ Hc). intros x Hx. apply F1.
      rewrite Hsum in Hx. addr.
    + rewrite Hsum. cbn [chain]. unfold block_ok, tag.
      cbn [blk_size blk_alloc flag].
      split; [split; [lia | exact H8] |]. split; [| split; [| exact I]].
      * unfold m3. rewrite GET_PUT_other by addr. exact Hh.
      * unfold m3. rewrite GET_PUT_other by addr. exact Hf.
  - rewrite total_app. cbn [total blk_size]. lia.
  - unfold m3. apply GET_PUT_small, PACK_range; [reflexivity | word_range].
  - repeat split; trivial; lia.
Qed.

Lemma extend_heap_layout (st st1 : state) (bs : list block) (size r : Z) :
  well_formed st bs ->
  size mod 8 = 0 -> MIN_BLOCK <= size < 2 ^ 31 ->
  extend_heap (size / WSIZE) st = (Some r, st1) ->
  well_formed st1 (grown size bs) /\
  heap_listp st1 = heap_listp st /\
  mem_brk st1 = mem_brk st + size /\
  exists pre L,
    grown size bs = pre ++ [L] /\ r = first_block st + total pre /\
    blk_alloc L = false /\ size <= blk_size L.
Proof.
  intros Hwf H8 Hr Hext.
  assert (Hr8 : 8 <= size < 2 ^ 31) by (unfold MIN_BLOCK, OVERHEAD, DSIZE in Hr; lia).
  assert (Hr' : MIN_BLOCK <= size < Word.modulus)
    by (change (2 ^ 31) with 2147483648 in Hr; word_range).
  rewrite (extend_heap_unfold st size H8 Hr8) in Hext.
  unfold mem_sbrk in Hext.
  destruct ((size <? 0) || (mem_max_addr st <? mem_brk st + size)) eqn:Htest;
    [discriminate |].
  apply orb_false_iff in Htest. destruct Htest as [_ Hfit].
  apply Z.ltb_ge in Hfit.
  destruct (Word.to_int (mem_brk st) <? 0); [discriminate |].
  cbv zeta in Hext. cbn [heap set_brk] in Hext.
  pose proof (sbrk_block_well_formed st bs size Hwf H8 Hr' Hfit) as Hwf3.
  set (st3 := set_heap (set_brk st (mem_brk st + size)) _) in Hwf3.
  assert (Ee : first_block st3 + total bs = mem_brk st) by apply Hwf.
  destruct (coalesce_last_layout st3 bs (mkBlock size false) Hwf3 eq_refl)
    as (Hwf1 & pre & L & Hg & Hfst & HL & Hsz).
  rewrite Ee in Hwf1, Hfst. cbn [blk_size] in *.
  injection Hext as <- <-.
  split; [exact Hwf1 |]. split; [reflexivity |]. split; [reflexivity |].
  exists pre, L. repeat split; trivial.
Qed.

Lemma find_fit_loop_mono (m : mem) (adjsize : Z) :
  forall fuel bp r,
    find_fit_loop fuel m bp adjsize = Some r ->
    forall fuel', (fuel <= fuel')%nat -> find_fit_loop fuel' m bp adjsize = Some r.
Proof.
  induction fuel as [| fuel IH]; intros bp r H fuel' Hle; [discriminate |].
  destruct fuel' as [| fuel']; [lia |].
  simpl in H |- *.
  destruct (GET_SIZE m (HDRP bp) >? 0); [| exact H].
  destruct ((GET_ALLOC m (HDRP bp) =? 0) && (adjsize <=? GET_SIZE m (HDRP bp)));
    [exact H |].
  apply (IH _ _ H). lia.
Qed.

(** Whatever the fuel, an answer of the search on a well-formed heap is the
    answer of first fit on the block list. *)
Lemma find_fit_answer (st : state) (bs : list block) (fuel : nat) (adjsize : Z)
      (r : option Z) :
  well_formed st bs ->
  find_fit fuel st adjsize = Some r ->
  r = option_map (fun x => first_block st + fst x) (first_fit adjsize bs).
Proof.
  intros Hwf Hfind.
  pose (fuel' := (fuel + S (S (List.length bs)))%nat).
  assert (H1 : find_fit fuel' st adjsize = Some r)
    by (apply (find_fit_loop_mono _ _ _ _ _ Hfind); unfold fuel'; lia).
  rewrite (find_fit_first_fit_list st bs fuel' adjsize Hwf) in H1
    by (unfold fuel'; lia).
  now injection H1.
Qed.

Lemma first_fit_after_growth (adj size : Z) (bs pre : list block) (L : block) :
  first_fit adj bs = None ->
  grown size bs = pre ++ [L] ->
  blk_alloc L = false -> adj <= blk_size L ->
  first_fit adj (grown size bs)
  = Some (total pre, pre ++ placed (blk_size L) adj ++ []).
Proof.
  intros Hnone Hg HL Hsz.
  assert (Hpre : Forall (fun b => blk_alloc b = true \/ blk_size b < adj) pre).
  { pose proof (first_fit_none _ _ Hnone) as Hall.
    destruct (grown_shape size bs) as (pre' & L' & Hg' & _ & [[_ Epre] | (P & Ebs & _)]);
      rewrite Hg in Hg'; apply app_inj_tail in Hg'; destruct Hg' as [<- _].
    - now rewrite Epre.
    - rewrite Ebs in Hall. now apply Forall_app in Hall. }
  rewrite Hg, (first_fit_skips adj pre [L] Hpre). simpl.
  rewrite HL. destruct (Z.leb_spec adj (blk_size L)); [| lia]. simpl.
  now rewrite Z.add_0_r.
Qed.

(** ** No two adjacent free blocks *)

Lemma last_free_snoc (l : list block) (b : block) :
  last_free (l ++ [b]) = negb (blk_alloc b).
Proof.
  induction l as [| a l IH]; [reflexivity |].
  cbn [app last_free]. rewrite IH.
  destruct (l ++ [b]) eqn:E; [| reflexivity].
  now destruct l.
Qed.

Lemma last_free_cons (a : block) (l : list block) :
  l <> [] -> last_free (a :: l) = last_free l.
Proof. destruct l; [congruence | reflexivity]. Qed.

Lemma no_adjacent_free_cons (b : block) (l : list block) :
  no_adjacent_free (b :: l)
  = negb (negb (blk_alloc b) && head_free l) && no_adjacent_free l.
Proof.
  destruct l as [| b' l]; cbn [no_adjacent_free head_free].
  - now rewrite andb_false_r.
  - now destruct (blk_alloc b), (blk_alloc b').
Qed.

Lemma head_free_app (l1 l2 : list block) :
  head_free (l1 ++ l2) = match l1 with [] => head_free l2 | _ => head_free l1 end.
Proof. now destruct l1. Qed.

Lemma no_adjacent_free_app (l1 l2 : list block) :
  no_adjacent_free (l1 ++ l2)
  = no_adjacent_free l1 && no_adjacent_free l2
    && negb (last_free l1 && head_free l2).
Proof.
  induction l1 as [| b l1 IH].
  - cbn [app no_adjacent_free last_free andb negb]. now rewrite andb_true_r.
  - cbn [app]. rewrite !no_adjacent_free_cons, IH, head_free_app.
    destruct l1 as [| b' l1].
    + cbn [no_adjacent_free last_free head_free andb].
      now destruct (blk_alloc b), (head_free l2), (no_adjacent_free l2).
    + rewrite (last_free_cons b) by discriminate.
      destruct (negb (blk_alloc b) && head_free (b' :: l1)),
        (no_adjacent_free (b' :: l1)), (no_adjacent_free l2),
        (last_free (b' :: l1) && head_free l2); reflexivity.
Qed.

(** Splitting a free block keeps I3. *)
Lemma no_adjacent_free_placed (pre post : list block) (F : block) (a : Z) :
  blk_alloc F = false ->
  no_adjacent_free (pre ++ F :: post) = true ->
  no_adjacent_free (pre ++ placed (blk_size F) a ++ post) = true.
Proof.
  intros HF. rewrite !no_adjacent_free_app. unfold placed.
  rewrite (no_adjacent_free_cons F), HF.
  destruct (blk_size F - a <? MIN_BLOCK);
    cbn [app]; rewrite !no_adjacent_free_cons; cbn [head_free blk_alloc negb andb];
    destruct (no_adjacent_free pre), (no_adjacent_free post), (last_free pre),
      (head_free post); cbn; congruence.
Qed.

Lemma no_adjacent_free_first_fit (a : Z) (bs : list block) (off : Z) (l : list block) :
  first_fit a bs = Some (off, l) ->
  no_adjacent_free bs = true -> no_adjacent_free l = true.
Proof.
  intros Hff.
  destruct (first_fit_split _ _ _ _ Hff) as (pre & F & post & -> & _ & HF & _ & -> & _).
  now apply no_adjacent_free_placed.
Qed.

Lemma no_adjacent_free_grown (size : Z) (bs : list block) :
  no_adjacent_free bs = true -> no_adjacent_free (grown size bs) = true.
Proof.
  destruct (last_case bs) as [-> | (pre & L & ->)]; [reflexivity |].
  rewrite grown_last, !no_adjacent_free_app.
  destruct (blk_alloc L) eqn:EL.
  - cbn [no_adjacent_free head_free blk_alloc]. rewrite EL.
    destruct (no_adjacent_free pre), (last_free pre); cbn; congruence.
  - cbn [no_adjacent_free head_free blk_alloc]. rewrite EL.
    destruct (no_adjacent_free pre), (last_free pre); cbn; congruence.
Qed.

Lemma no_adjacent_free_malloc_blocks (a : Z) (bs : list block) (off : Z) (l : list block) :
  malloc_blocks a bs = Some (off, l) ->
  no_adjacent_free bs = true -> no_adjacent_free l = true.
Proof.
  unfold malloc_blocks. intros Hm Hn.
  destruct (first_fit a bs) as [r |] eqn:E.
  - injection Hm as ->. now apply (no_adjacent_free_first_fit a bs off l).
  - apply (no_adjacent_free_first_fit a _ off l Hm).
    now apply no_adjacent_free_grown.
Qed.

Lemma no_adjacent_free_freed (pre post : list block) (A : block) (sz : Z) :
  blk_alloc A = true ->
  no_adjacent_free (pre ++ A :: post) = true ->
  no_adjacent_free (freed pre sz post) = true.
Proof.
  intros HA Hn.
  rewrite no_adjacent_free_app, no_adjacent_free_cons in Hn.
  cbn [head_free] in Hn. rewrite HA in Hn. cbn [negb andb] in Hn.
  rewrite andb_false_r in Hn. cbn [negb] in Hn. rewrite andb_true_r in Hn.
  apply andb_prop in Hn. destruct Hn as [Hpre Hpost].
  unfold freed.
  assert (Hpost' : no_adjacent_free (if head_free post then tl post else post) = true
                   /\ head_free (if head_free post then tl post else post) = false).
  { destruct (head_free post) eqn:Eh; [| now split].
    destruct post as [| Nb post']; [discriminate |].
    cbn [head_free tl] in *. rewrite no_adjacent_free_cons, Eh in Hpost.
    destruct (head_free post'); [discriminate | now split]. }
  destruct Hpost' as [Hn' Hh'].
  set (post' := if head_free post then tl post else post) in *.
  destruct (last_free pre) eqn:El.
  - destruct (last_case pre) as [-> | (pre' & Pb & ->)]; [discriminate |].
    rewrite removelast_last, last_last.
    rewrite no_adjacent_free_app in Hpre.
    rewrite last_free_snoc in El. cbn [no_adjacent_free head_free] in Hpre.
    rewrite El in Hpre.
    rewrite no_adjacent_free_app, no_adjacent_free_cons.
    cbn [head_free blk_alloc negb]. rewrite Hh', Hn'.
    destruct (no_adjacent_free pre'), (last_free pre'); cbn in *; congruence.
  - rewrite no_adjacent_free_app, no_adjacent_free_cons.
    cbn [head_free blk_alloc negb]. rewrite Hh', Hn', Hpre, El. reflexivity.
Qed.

(** The block list after a successful [mm_malloc]. *)
Lemma mm_malloc_layout (fuel : nat) (st st1 : state) (bs : list block)
      (s p : Z) :
  well_formed st bs -> 0 < s -> s + 15 < 2 ^ 31 ->
  mm_malloc fuel s st = Ret (Some p) st1 ->
  exists bs',
    malloc_blocks (adjust_size s) bs = Some (p - first_block st, bs') /\
    well_formed st1 bs' /\ heap_listp st1 = heap_listp st.
Proof.
  intros Hwf Hs Hr Hm.
  assert (Hr' : s + 15 < Word.modulus)
    by (change (2 ^ 31) with 2147483648 in Hr; word_range).
  destruct (adjust_size_bounds s Hs Hr') as (Ha8 & Hamin & Halo & Hahi).
  unfold mm_malloc in Hm.
  destruct (Z.leb_spec s 0); [lia |].
  set (adj := adjust_size s) in *.
  destruct (find_fit fuel st adj) as [[bp |] |] eqn:Hfind; [| | discriminate];
    pose proof (find_fit_answer st bs fuel adj _ Hwf Hfind) as Hans;
    unfold malloc_blocks.
  - (* a fit in bs *)
    injection Hm as <- <-.
    destruct (first_fit adj bs) as [[off l] |] eqn:Hff; [| discriminate].
    injection Hans as ->. cbn [fst].
    destruct (first_fit_split _ _ _ _ Hff)
      as (pre & F & post & -> & -> & HF & Hsz & -> & _).
    exists (pre ++ placed (blk_size F) adj ++ post).
    split; [do 2 f_equal; lia |]. split; [| reflexivity].
    apply place_layout; trivial. lia.
  - (* no fit: grow, then place in the last block *)
    destruct (first_fit adj bs) as [[off l] |] eqn:Hff; [discriminate |].
    destruct (extendsize_bounds adj Ha8 ltac:(lia)) as (He8 & Her & Hge).
    rewrite (extendsize_eq adj) in * by (unfold MIN_BLOCK, OVERHEAD, DSIZE in *; lia).
    set (ext := Z.max adj CHUNKSIZE) in *.
    destruct (extend_heap (ext / WSIZE) st) as [[r |] st2] eqn:Hext;
      [| discriminate].
    injection Hm as <- <-.
    destruct (extend_heap_layout st st2 bs ext r Hwf He8 Her Hext)
      as (Hwf2 & Hhl & _ & pre & L & Hg & -> & HL & HLs).
    assert (Hfb : first_block st2 = first_block st)
      by (unfold first_block; now rewrite Hhl).
    exists (pre ++ placed (blk_size L) adj ++ []).
    rewrite (first_fit_after_growth adj ext bs pre L Hff Hg HL ltac:(lia)).
    split; [do 2 f_equal; lia |]. split; [| exact Hhl].
    rewrite <- Hfb. apply place_layout; trivial; [| lia].
    now rewrite <- Hg.
Qed.


(** X8: [mm_malloc] implements first fit with splitting on the block list:
    on a well-formed heap with blocks [bs], a successful [mm_malloc] of [s]
    bytes ([s + 15 < 2^31]) returns the block that first fit chooses for the
    adjusted size, in [bs] or, when nothing fits there, in [bs] grown by the
    larger of the adjusted size and a chunk, and it leaves a well-formed heap
    whose blocks are the list that placement in that block gives.  When no
    two neighbours of [bs] are both free, the same holds of the new list. *)
Theorem mm_malloc_first_fit (fuel : nat) (st st1 : state) (bs : list block)
        (s p : Z) :
  well_formed st bs -> 0 < s -> s + 15 < 2 ^ 31 ->
  mm_malloc fuel s st = Ret (Some p) st1 ->
  exists bs',
    malloc_blocks (adjust_size s) bs = Some (p - first_block st, bs') /\
    well_formed st1 bs' /\ heap_listp st1 = heap_listp st /\
    (no_adjacent_free bs = true -> no_adjacent_free bs' = true).
Proof.
  intros Hwf Hs Hr Hm.
  destruct (mm_malloc_layout fuel st st1 bs s p Hwf Hs Hr Hm)
    as (bs' & Hmb & Hwf1 & Hhl).
  exists bs'. split; [exact Hmb |]. split; [exact Hwf1 |].
  split; [exact Hhl |].
  exact (no_adjacent_free_malloc_blocks _ _ _ _ Hmb).
Qed.

Lemma mm_malloc_first_fit_witness :
  exists bs',
    malloc_blocks (adjust_size 100) Run.four_blocks_layout
      = Some (4176 - first_block Run.four_blocks, bs') /\
    well_formed Run.after_realloc_malloc bs' /\
    heap_listp Run.after_realloc_malloc = heap_listp Run.four_blocks /\
    (no_adjacent_free Run.four_blocks_layout = true ->
     no_adjacent_free bs' = true).
Proof.
  apply (mm_malloc_first_fit 16 Run.four_blocks Run.after_realloc_malloc
           Run.four_blocks_layout 100 4176).
  - vm_compute. intuition congruence.
  - lia.
  - vm_compute. reflexivity.
  - reflexivity.
Defined.

(** X9: on a well-formed heap, with more fuel than there are blocks, a
    request of [s] bytes ([0 < s], [s + 15 < 2^31]) cannot fail while the
    growth primitive still has room, in the lower half of the address space,
    for the larger of the adjusted size and a chunk: [mm_malloc] returns a
    block. *)
Theorem mm_malloc_succeeds (fuel : nat) (st : state) (bs : list block) (s : Z) :
  well_formed st bs -> 0 < s -> s + 15 < 2 ^ 31 ->
  (S (List.length bs) < fuel)%nat ->
  mem_brk st + Z.max (adjust_size s) CHUNKSIZE <= mem_max_addr st ->
  mem_max_addr st <= 2 ^ 31 ->
  exists p st1, mm_malloc fuel s st = Ret (Some p) st1.
Proof.
  intros Hwf Hs Hr Hfuel Hroom Hmax.
  assert (Hr' : s + 15 < Word.modulus)
    by (change (2 ^ 31) with 2147483648 in Hr; word_range).
  destruct (adjust_size_bounds s Hs Hr') as (Ha8 & Hamin & Halo & Hahi).
  unfold mm_malloc.
  destruct (Z.leb_spec s 0); [lia |].
  set (adj := adjust_size s) in *.
  rewrite (find_fit_first_fit_list st bs fuel adj Hwf Hfuel).
  destruct (first_fit adj bs) as [[off l] |]; cbn [option_map]; [eauto |].
  destruct (extendsize_bounds adj Ha8 ltac:(lia)) as (He8 & Her & Hge).
  rewrite (extendsize_eq adj) in * by (unfold MIN_BLOCK, OVERHEAD, DSIZE in *; lia).
  set (ext := Z.max adj CHUNKSIZE) in *.
  rewrite (extend_heap_unfold st ext He8)
    by (unfold MIN_BLOCK, OVERHEAD, DSIZE in *; lia).
  unfold mem_sbrk.
  destruct (Z.ltb_spec ext 0); [unfold MIN_BLOCK, OVERHEAD, DSIZE in *; lia |].
  destruct (Z.ltb_spec (mem_max_addr st) (mem_brk st + ext)); [lia |].
  cbn [orb].
  assert (Hbrk : 0 <= mem_brk st < 2 ^ 31).
  { destruct Hwf as (_ & _ & Hc & Hsum & _ & Hlo & _).
    pose proof (total_nonneg _ (chain_ok _ _ _ Hc)).
    unfold first_block, MIN_BLOCK, OVERHEAD, DSIZE in *. lia. }
  rewrite to_int_small by exact Hbrk.
  destruct (Z.ltb_spec (mem_brk st) 0); [lia |].
  cbv zeta. eauto.
Qed.

Lemma mm_malloc_succeeds_witness :
  exists p st1, mm_malloc 16 5000 Run.four_blocks = Ret (Some p) st1.
Proof.
  apply (mm_malloc_succeeds 16 Run.four_blocks Run.four_blocks_layout 5000).
  - vm_compute. intuition congruence.
  - lia.
  - vm_compute. reflexivity.
  - vm_compute. lia.
  - vm_compute. congruence.
  - vm_compute. congruence.
Defined.

(** ** Freeing, on the block list *)

(** The allocated bits beside a block of a well-formed heap are those of
    its neighbours in the block list; the prologue and the epilogue count as
    allocated. *)
Lemma neighbour_flags (st : state) (pre post : list block) (b : block) :
  well_formed st (pre ++ b :: post) ->
  GET_ALLOC (heap st) (first_block st + total pre - DSIZE)
  = (if last_free pre then 0 else 1) /\
  GET_ALLOC (heap st) (HDRP (first_block st + total pre + blk_size b))
  = (if head_free post then 0 else 1).
Proof.
  intros Hwf.
  destruct (well_formed_sizes _ _ Hwf) as (Hok & _ & _).
  destruct Hwf as (Hph & Hpf & Hc & Hsum & Hep & _).
  set (fb := first_block st) in *.
  apply Forall_app in Hok. destruct Hok as [Hokpre Hok].
  inversion Hok as [| ? ? Hokb Hokpost]; subst.
  apply chain_app in Hc. destruct Hc as [Hcpre Hc].
  cbn [chain] in Hc. destruct Hc as (_ & _ & _ & Hcpost).
  rewrite total_app in Hsum. cbn [total] in Hsum.
  split.
  - destruct (last_case pre) as [-> | (pre' & Pb & ->)].
    + cbn [total last_free].
      replace (fb + 0 - DSIZE) with (heap_listp st)
        by (unfold fb, first_block, DSIZE; lia).
      now rewrite (GET_ALLOC_of_tag _ _ OVERHEAD 1 eq_refl Hpf).
    + apply chain_app in Hcpre. destruct Hcpre as [_ (HokP & _ & HfP & _)].
      rewrite last_free_snoc, total_app. cbn [total].
      replace (fb + (total pre' + (blk_size Pb + 0)) - DSIZE)
        with (fb + total pre' + blk_size Pb - DSIZE) by lia.
      rewrite (tag_alloc _ _ _ HokP HfP). now destruct (blk_alloc Pb).
  - destruct post as [| Nb post'].
    + cbn [total head_free] in *.
      replace (fb + total pre + blk_size b) with (mem_brk st) by lia.
      now rewrite (GET_ALLOC_of_tag _ _ 0 1 eq_refl Hep).
    + cbn [chain head_free] in *. destruct Hcpost as (HokN & HhN & _).
      rewrite (tag_alloc _ _ _ HokN HhN). now destruct (blk_alloc Nb).
Qed.

(** [mm_free] on the block list: when the two neighbours of the freed block
    are not both free, the heap after [mm_free] is laid out as [freed] says. *)
Lemma mm_free_layout (st : state) (pre post : list block) (sz : Z) :
  well_formed st (pre ++ mkBlock sz true :: post) ->
  last_free pre && head_free post = false ->
  well_formed (mm_free (first_block st + total pre) st) (freed pre sz post).
Proof.
  intros Hwf Hflags.
  set (fb := first_block st) in *. set (ptr := fb + total pre) in *.
  set (A := mkBlock sz true) in *.
  destruct (neighbours_shape st pre post A Hwf)
    as (P & pa & N & na & HP8 & HPmin & HN8 & HNmin & Hpa & Hna & Hsum
        & HPh & HPf & HNh & HPshape & HNshape).
  destruct (neighbour_flags st pre post A Hwf) as [Hlf Hhf].
  fold fb ptr in HPh, HPf, HNh, Hlf, Hhf. cbn [A blk_size] in Hsum, HNh, Hhf.
  rewrite (GET_ALLOC_of_tag _ _ _ _ HP8 HPf) in Hlf.
  rewrite (GET_ALLOC_of_tag _ _ _ _ HN8 HNh) in Hhf.
  assert (Hc : chain (heap st) fb (pre ++ A :: post)) by apply Hwf.
  assert (Hlive : In (ptr, A) (positions fb (pre ++ A :: post)))
    by apply in_positions_mid.
  destruct (chain_at _ _ _ _ _ Hc Hlive) as ([Hmin H8] & Hh & _).
  cbn [A blk_size] in Hmin, H8.
  unfold mm_free.
  rewrite (GET_SIZE_of_tag _ _ sz (flag true) H8 Hh).
  change (PUT (PUT (heap st) (HDRP ptr) (PACK sz 0))
              (FTRP (PUT (heap st) (HDRP ptr) (PACK sz 0)) ptr) (PACK sz 0))
    with (write_block (heap st) ptr (PACK sz 0)).
  assert (Hr : 8 <= sz < Word.modulus) by word_range.
  destruct (write_block_spec (heap st) ptr sz 0 H8 Hr) as (Hh1 & Hf1 & _ & Hfr1).
  set (m := heap st) in *.
  set (m1 := write_block m ptr (PACK sz 0)) in *.
  assert (HPh1 : GET m1 (HDRP (ptr - P)) = PACK P pa).
  { rewrite <- HPh. apply write_block_GET_other; trivial. addr. }
  assert (HPf1 : GET m1 (ptr - DSIZE) = PACK P pa).
  { rewrite <- HPf. apply write_block_GET_other; trivial. addr. }
  assert (HNh1 : GET m1 (HDRP (ptr + sz)) = PACK N na).
  { rewrite <- HNh. apply write_block_GET_other; trivial. addr. }
  unfold freed.
  destruct Hpa as [Epa | Epa], Hna as [Ena | Ena];
    rewrite Epa in Hlf; rewrite Ena in Hhf;
    destruct (last_free pre) eqn:Elf; try discriminate Hlf;
    destruct (head_free post) eqn:Ehf; try discriminate Hhf;
    try discriminate Hflags.
  - (* previous block free, next allocated *)
    destruct (HPshape Epa) as (pre' & Epre).
    rewrite (coalesce_case3 m1 ptr P pa sz N na);
      try first [assumption | now left | now right | word_range].
    cbn [snd].
    set (v := PACK (sz + P) 0).
    assert (H8v : (sz + P) mod 8 = 0)
      by (rewrite Z.add_mod, H8, HP8 by lia; reflexivity).
    assert (Hv : 0 <= v < Word.modulus) by (apply PACK_range; word_range).
    assert (Ep : ptr - P = fb + total pre').
    { unfold ptr. rewrite Epre, total_app. cbn [total blk_size]. lia. }
    rewrite Epre at 1 2. rewrite removelast_last, last_last. cbn [blk_size].
    apply (replace_well_formed st pre' [mkBlock P false; A] post
             [mkBlock (sz + P) false]).
    + replace (pre' ++ [mkBlock P false; A] ++ post)
        with ((pre' ++ [mkBlock P false]) ++ A :: post)
        by (rewrite <- app_assoc; reflexivity).
      rewrite <- Epre. exact Hwf.
    + fold fb. rewrite <- Ep. cbn [total A blk_size]. intros x Hx.
      rewrite !PUT_other by addr. apply Hfr1; addr.
    + fold fb. rewrite <- Ep. cbn [chain]. unfold block_ok, tag.
      cbn [blk_size blk_alloc flag]. fold v.
      replace (ptr - P + (sz + P) - DSIZE) with (ptr + sz - DSIZE) by lia.
      repeat split; trivial; try word_range.
      * now apply GET_PUT_small.
      * rewrite GET_PUT_other by addr. now apply GET_PUT_small.
    + cbn [total A blk_size]. lia.
  - (* previous allocated, next free *)
    destruct (HNshape Ena) as (post' & Epost).
    rewrite (coalesce_case2 m1 ptr P pa sz N na);
      try first [assumption | now left | now right | word_range].
    cbn [snd].
    assert (H8v : (sz + N) mod 8 = 0)
      by (rewrite Z.add_mod, H8, HN8 by lia; reflexivity).
    destruct (write_block_spec m1 ptr (sz + N) 0 H8v ltac:(word_range))
      as (Hh2 & Hf2 & _ & Hfr2).
    set (m2 := write_block m1 ptr (PACK (sz + N) 0)) in *.
    assert (HNmin' : MIN_BLOCK <= N).
    { assert (Hok : Forall block_ok (pre ++ A :: post)) by apply (chain_ok _ _ _ Hc).
      rewrite Epost in Hok. apply Forall_app in Hok. destruct Hok as [_ Hok].
      inversion Hok as [| ? ? _ Hok']; subst.
      inversion Hok' as [| ? ? [HminN _] _]; subst. exact HminN. }
    rewrite Epost at 1 2. cbn [hd tl blk_size].
    apply (replace_well_formed st pre [A; mkBlock N false] post'
             [mkBlock (sz + N) false]).
    + cbn [app]. rewrite <- Epost. exact Hwf.
    + fold fb ptr. cbn [total A blk_size]. intros x Hx.
      rewrite Hfr2 by addr. apply Hfr1; addr.
    + fold fb ptr. cbn [chain]. unfold block_ok, tag.
      cbn [blk_size blk_alloc flag].
      repeat split; trivial; word_range.
    + cbn [total A blk_size]. lia.
  - (* both allocated *)
    rewrite (coalesce_case1 m1 ptr P pa sz N na);
      try first [assumption | now left | now right | word_range].
    cbn [snd].
    apply (replace_well_formed st pre [A] post [mkBlock sz false]).
    + exact Hwf.
    + fold fb ptr. cbn [total A blk_size]. intros x Hx. apply Hfr1; addr.
    + fold fb ptr. cbn [chain]. unfold block_ok, tag.
      cbn [blk_size blk_alloc flag]. repeat split; trivial.
    + reflexivity.
Qed.

Lemma freed_shape (pre post : list block) (sz : Z) :
  Forall block_ok pre -> Forall block_ok post ->
  exists pre2 B post2,
    freed pre sz post = pre2 ++ B :: post2 /\
    blk_alloc B = false /\ sz <= blk_size B /\
    0 <= total pre2 <= total pre.
Proof.
  intros Hpre Hpost. unfold freed.
  set (sz1 := if head_free post then sz + blk_size (hd (mkBlock 0 true) post) else sz).
  assert (Hsz1 : sz <= sz1).
  { unfold sz1. destruct (head_free post); [| lia].
    destruct post as [| Nb post']; cbn [hd blk_size]; [lia |].
    inversion Hpost as [| ? ? [HN _] _]; subst.
    unfold MIN_BLOCK, OVERHEAD, DSIZE in *. lia. }
  destruct (last_free pre) eqn:El.
  - destruct (last_case pre) as [-> | (pre' & Pb & ->)]; [discriminate |].
    rewrite removelast_last, last_last.
    apply Forall_app in Hpre. destruct Hpre as [Hpre' HP].
    inversion HP as [| ? ? [HPmin _] _]; subst.
    pose proof (total_nonneg _ Hpre').
    eexists pre', _, _. split; [reflexivity |]. cbn [blk_alloc blk_size].
    rewrite total_app. cbn [total].
    unfold MIN_BLOCK, OVERHEAD, DSIZE in *. repeat split; lia.
  - pose proof (total_nonneg _ Hpre).
    eexists pre, _, _. split; [reflexivity |]. cbn [blk_alloc blk_size].
    repeat split; lia.
Qed.

Lemma first_fit_bound (a : Z) (l1 l2 : list block) (B : block) :
  Forall block_ok l1 -> blk_alloc B = false -> a <= blk_size B ->
  exists off l, first_fit a (l1 ++ B :: l2) = Some (off, l) /\ 0 <= off <= total l1.
Proof.
  intros Hok HB Ha. induction Hok as [| b l1 [Hb _] Hok IH]; cbn [app first_fit total].
  - rewrite HB. destruct (Z.leb_spec a (blk_size B)); [| lia].
    cbn [negb andb]. eexists _, _. split; [reflexivity | lia].
  - pose proof (total_nonneg _ Hok).
    destruct (negb (blk_alloc b) && (a <=? blk_size b)).
    + eexists _, _. split; [reflexivity |].
      unfold MIN_BLOCK, OVERHEAD, DSIZE in *. lia.
    + destruct IH as (off & l & -> & Hoff).
      eexists _, _. split; [reflexivity |].
      unfold MIN_BLOCK, OVERHEAD, DSIZE in *. lia.
Qed.

(** X10: [mm_free] merges the freed block with its free neighbours.  In a
    well-formed heap whose blocks are [pre], the allocated block of size
    [sz] and [post], with the block before and the block after not both
    free, freeing that block leaves a well-formed heap whose blocks are
    [freed pre sz post]: the block is marked free and absorbs the free
    neighbour, if there is one.  The top of the heap, the first block and
    the output do not change, and if no two neighbours were both free
    before, none are afterwards. *)
Theorem mm_free_merges (st : state) (pre post : list block) (sz : Z) :
  well_formed st (pre ++ mkBlock sz true :: post) ->
  last_free pre && head_free post = false ->
  let st' := mm_free (first_block st + total pre) st in
  well_formed st' (freed pre sz post) /\
  heap_listp st' = heap_listp st /\ mem_brk st' = mem_brk st /\
  output st' = output st /\
  (no_adjacent_free (pre ++ mkBlock sz true :: post) = true ->
   no_adjacent_free (freed pre sz post) = true).
Proof.
  intros Hwf Hflags st'.
  split; [now apply mm_free_layout |].
  split; [reflexivity |]. split; [reflexivity |]. split; [reflexivity |].
  now apply no_adjacent_free_freed.
Qed.

Lemma mm_free_merges_witness :
  let st' := mm_free Run.d Run.four_blocks in
  well_formed st' [mkBlock 16 true; mkBlock 16 true; mkBlock 16 true;
                   mkBlock 4048 false] /\
  heap_listp st' = heap_listp Run.four_blocks /\
  mem_brk st' = mem_brk Run.four_blocks /\
  output st' = output Run.four_blocks /\
  (no_adjacent_free Run.four_blocks_layout = true ->
   no_adjacent_free [mkBlock 16 true; mkBlock 16 true; mkBlock 16 true;
                     mkBlock 4048 false] = true).
Proof.
  apply (mm_free_merges Run.four_blocks
           [mkBlock 16 true; mkBlock 16 true; mkBlock 16 true]
           [mkBlock 4032 false] 16).
  - vm_compute. intuition congruence.
  - reflexivity.
Defined.

(** X11: [mm_free] never touches another allocated block, whatever the
    neighbours of the freed block are (all four cases of [coalesce]): in a
    well-formed heap, after freeing the live block [ptr], every other
    allocated block [q] still has its header, its footer and every payload
    byte. *)
Theorem mm_free_keeps_other_blocks (st : state) (bs : list block) (ptr sz : Z)
        (q : Z) (A : block) :
  well_formed st bs -> live st bs ptr sz ->
  In (q, A) (positions (first_block st) bs) ->
  blk_alloc A = true -> q <> ptr ->
  let st' := mm_free ptr st in
  GET (heap st') (HDRP q) = tag A /\
  GET (heap st') (q + blk_size A - DSIZE) = tag A /\
  GET_SIZE (heap st') (HDRP q) = blk_size A /\
  GET_ALLOC (heap st') (HDRP q) = 1 /\
  (forall x, q <= x < q + blk_size A - DSIZE -> heap st' x = heap st x).
Proof.
  intros Hwf Hlive Hin HA Hq st'.
  assert (Hc : chain (heap st) (first_block st) bs) by apply Hwf.
  destruct (chain_at _ _ _ _ _ Hc Hin) as (Hok & Hh & Hf).
  pose proof (mm_free_frame st bs ptr sz Hwf Hlive q A) as Hfr.
  assert (Hmin : MIN_BLOCK <= blk_size A) by apply Hok.
  assert (Hh' : GET (heap st') (HDRP q) = tag A).
  { rewrite <- Hh. apply GET_ext. intros x Hx. apply Hfr; trivial. addr. }
  split; [exact Hh' |]. split.
  { rewrite <- Hf. apply GET_ext. intros x Hx. apply Hfr; trivial. addr. }
  split; [exact (tag_size _ _ _ Hok Hh') |].
  split; [rewrite (tag_alloc _ _ _ Hok Hh'), HA; reflexivity |].
  intros x Hx. apply Hfr; trivial. addr.
Qed.

Lemma mm_free_keeps_other_blocks_witness :
  let st' := mm_free Run.b Run.two_freed in
  GET (heap st') (HDRP Run.d) = tag (mkBlock 16 true) /\
  GET (heap st') (Run.d + 16 - DSIZE) = tag (mkBlock 16 true) /\
  GET_SIZE (heap st') (HDRP Run.d) = 16 /\
  GET_ALLOC (heap st') (HDRP Run.d) = 1 /\
  (forall x, Run.d <= x < Run.d + 16 - DSIZE ->
             heap st' x = heap Run.two_freed x).
Proof.
  apply (mm_free_keeps_other_blocks Run.two_freed
           [mkBlock 16 false; mkBlock 16 true; mkBlock 16 false;
            mkBlock 16 true; mkBlock 4032 false]
           Run.b 16 Run.d (mkBlock 16 true)).
  - vm_compute. intuition congruence.
  - vm_compute. intuition congruence.
  - vm_compute. intuition congruence.
  - reflexivity.
  - vm_compute. congruence.
Defined.

(** X12: a freed block is reused.  After [mm_free] of an allocated block of
    size [sz] (neighbours not both free) in a well-formed heap, a request
    of [n] bytes that fits the block ([n + OVERHEAD <= sz]) is served
    without growing the heap, by a block that starts at or before the freed
    one: a [mm_malloc] whose search ends within the fuel does not return
    [NULL] and leaves the top of the heap where it was. *)
Theorem mm_free_then_malloc_reuses (fuel : nat) (st st2 : state)
        (pre post : list block) (sz n : Z) (r : option Z) :
  well_formed st (pre ++ mkBlock sz true :: post) ->
  last_free pre && head_free post = false ->
  0 < n -> n + OVERHEAD <= sz ->
  mm_malloc fuel n (mm_free (first_block st + total pre) st) = Ret r st2 ->
  exists p, r = Some p /\
            first_block st <= p <= first_block st + total pre /\
            mem_brk st2 = mem_brk st.
Proof.
  intros Hwf Hflags Hn Hfit Hm.
  destruct (well_formed_sizes _ _ Hwf) as (Hok & _ & Hbound).
  pose proof (mm_free_layout st pre post sz Hwf Hflags) as Hwf'.
  set (st' := mm_free (first_block st + total pre) st) in *.
  apply Forall_app in Hok. destruct Hok as [Hokpre Hok].
  inversion Hok as [| ? ? [Hmin H8] Hokpost]; subst. cbn [blk_size] in Hmin, H8.
  pose proof (total_nonneg _ Hokpre). pose proof (total_nonneg _ Hokpost).
  rewrite total_app in Hbound. cbn [total blk_size] in Hbound.
  assert (Hr : n + 15 < Word.modulus)
    by (unfold OVERHEAD in *; lia).
  destruct (adjust_size_bounds n Hn Hr) as (Ha8 & Hamin & Halo & Hahi).
  assert (Hadj : adjust_size n <= sz).
  { pose proof (Z.div_mod (adjust_size n) 8 ltac:(lia)).
    pose proof (Z.div_mod sz 8 ltac:(lia)).
    unfold OVERHEAD in *. lia. }
  destruct (freed_shape pre post sz Hokpre Hokpost)
    as (pre2 & B & post2 & Efreed & HB & HBsz & Hpre2).
  assert (Hok2 : Forall block_ok pre2).
  { destruct (well_formed_sizes _ _ Hwf') as (Hok' & _).
    rewrite Efreed in Hok'. now apply Forall_app in Hok'. }
  destruct (first_fit_bound (adjust_size n) pre2 post2 B Hok2 HB ltac:(lia))
    as (off & l & Hff & Hoff).
  rewrite <- Efreed in Hff.
  assert (Hfb' : first_block st' = first_block st) by reflexivity.
  assert (Hbrk' : mem_brk st' = mem_brk st) by reflexivity.
  clearbody st'.
  unfold mm_malloc in Hm.
  destruct (Z.leb_spec n 0); [lia |].
  destruct (find_fit fuel st' (adjust_size n)) as [r' |] eqn:Hfind;
    [| discriminate].
  rewrite (find_fit_answer st' _ fuel _ r' Hwf' Hfind), Hff in Hm.
  cbn [option_map fst] in Hm. injection Hm as <- <-.
  exists (first_block st' + off).
  split; [reflexivity |]. rewrite Hfb'.
  split; [lia | exact Hbrk'].
Qed.

Lemma mm_free_then_malloc_reuses_witness :
  exists p, Some Run.b = Some p /\
            first_block Run.four_blocks <= p
            <= first_block Run.four_blocks + total [mkBlock 16 true] /\
            mem_brk (set_heap (mm_free Run.b Run.four_blocks)
                       (place (heap (mm_free Run.b Run.four_blocks)) Run.b 16))
            = mem_brk Run.four_blocks.
Proof.
  apply (mm_free_then_malloc_reuses 16 Run.four_blocks _
           [mkBlock 16 true] [mkBlock 16 true; mkBlock 16 true; mkBlock 4032 false]
           16 8 (Some Run.b)).
  - vm_compute. intuition congruence.
  - reflexivity.
  - lia.
  - vm_compute. congruence.
  - vm_compute. reflexivity.
Defined.

(** ** The heap checker *)

Lemma checkblock_silent (m : mem) (bp : Z) (b : block) :
  aligned bp -> 0 <= bp < Word.modulus -> blk_size b mod 8 = 0 ->
  GET m (HDRP bp) = tag b -> GET m (bp + blk_size b - DSIZE) = tag b ->
  checkblock m bp = [].
Proof.
  intros Hal Hr H8 Hh Hf. unfold checkblock, FTRP.
  rewrite (GET_SIZE_of_tag _ _ _ _ H8 Hh), Hh, Hf, Z.eqb_refl.
  rewrite to_size_t_small by exact Hr. unfold aligned in Hal. rewrite Hal.
  reflexivity.
Qed.

Lemma printblock_line (m : mem) (bp : Z) (b : block) :
  0 < blk_size b -> blk_size b mod 8 = 0 ->
  GET m (HDRP bp) = tag b -> GET m (bp + blk_size b - DSIZE) = tag b ->
  printblock m bp = [block_line (bp, b)].
Proof.
  intros Hpos H8 Hh Hf. unfold printblock, FTRP, block_line. cbn [fst snd].
  rewrite (GET_SIZE_of_tag _ _ _ _ H8 Hh), (GET_SIZE_of_tag _ _ _ _ H8 Hf).
  rewrite (GET_ALLOC_of_tag _ _ _ _ H8 Hh), (GET_ALLOC_of_tag _ _ _ _ H8 Hf).
  destruct (Z.eqb_spec (blk_size b) 0); [lia |].
  now destruct (blk_alloc b).
Qed.

Lemma checkheap_loop_chain (m : mem) (verbose : Z) (bs : list block) :
  forall bp fuel,
    chain m bp bs ->
    GET m (HDRP (bp + total bs)) = PACK 0 1 ->
    aligned bp -> 0 <= bp -> bp + total bs <= Word.modulus ->
    (List.length bs < fuel)%nat ->
    checkheap_loop fuel verbose m bp
    = Some (if negb (verbose =? 0) then map block_line (positions bp bs) else [],
            bp + total bs).
Proof.
  induction bs as [| b bs IH]; intros bp fuel Hc Hep Hal Hlo Hhi Hfuel;
    (destruct fuel as [| fuel]; [cbn [List.length] in Hfuel; lia |]);
    cbn [checkheap_loop total positions map].
  - cbn [total] in Hep. rewrite Z.add_0_r in *.
    rewrite (GET_SIZE_of_tag _ _ 0 1 eq_refl Hep). cbn.
    now destruct (negb (verbose =? 0)).
  - destruct Hc as (Hok & Hh & Hf & Hc).
    pose proof (total_nonneg _ (chain_ok _ _ _ Hc)) as Htot.
    cbn [total] in Hep, Hhi. rewrite Z.add_assoc in Hep.
    destruct Hok as [Hmin H8].
    assert (Hpos : 0 < blk_size b) by (unfold MIN_BLOCK, OVERHEAD, DSIZE in *; lia).
    rewrite (GET_SIZE_of_tag _ _ _ _ H8 Hh).
    destruct (Z.gtb_spec (blk_size b) 0); [| lia].
    unfold NEXT_BLKP. fold (HDRP bp). rewrite (GET_SIZE_of_tag _ _ _ _ H8 Hh).
    rewrite (IH (bp + blk_size b) fuel Hc Hep); try lia.
    + rewrite (checkblock_silent m bp b Hal ltac:(lia) H8 Hh Hf).
      rewrite (printblock_line m bp b Hpos H8 Hh Hf).
      rewrite Z.add_assoc.
      now destruct (negb (verbose =? 0)).
    + unfold aligned in *. rewrite Z.add_mod, Hal, H8 by lia. reflexivity.
    + cbn [List.length] in Hfuel. lia.
Qed.

Lemma mm_checkheap_well_formed (fuel : nat) (verbose : Z) (st : state)
      (bs : list block) :
  well_formed st bs -> aligned (heap_listp st) ->
  (S (List.length bs) < fuel)%nat ->
  mm_checkheap fuel verbose st
  = Some (if negb (verbose =? 0) then listing st bs else []).
Proof.
  intros Hwf Hal Hfuel.
  destruct (well_formed_sizes _ _ Hwf) as (Hok & Htot & Hbound).
  destruct Hwf as (Hph & Hpf & Hc & Hsum & Hep & Hlo & Hbrk & Hmax).
  set (P := mkBlock DSIZE true).
  assert (HPh : GET (heap st) (HDRP (heap_listp st)) = tag P) by exact Hph.
  assert (HPf : GET (heap st) (heap_listp st + blk_size P - DSIZE) = tag P).
  { cbn [P blk_size]. now replace (heap_listp st + DSIZE - DSIZE)
      with (heap_listp st) by lia. }
  assert (Hr : 0 <= heap_listp st < Word.modulus)
    by (unfold first_block in *; word_range).
  unfold mm_checkheap.
  rewrite (GET_SIZE_of_tag _ _ 8 1 eq_refl Hph).
  rewrite (GET_ALLOC_of_tag _ _ 8 1 eq_refl Hph).
  rewrite (checkblock_silent _ _ P Hal Hr eq_refl HPh HPf).
  destruct fuel as [| fuel]; [lia |]. cbn [checkheap_loop].
  rewrite (GET_SIZE_of_tag _ _ 8 1 eq_refl Hph).
  unfold NEXT_BLKP. fold (HDRP (heap_listp st)).
  rewrite (GET_SIZE_of_tag _ _ 8 1 eq_refl Hph).
  change (heap_listp st + 8) with (first_block st).
  assert (Hep' : GET (heap st) (HDRP (first_block st + total bs)) = PACK 0 1)
    by now rewrite Hsum.
  assert (Hfb : 0 <= first_block st /\ first_block st + total bs <= Word.modulus)
    by (unfold first_block in *; word_range).
  assert (Hfuel' : (List.length bs < fuel)%nat) by lia.
  rewrite (checkheap_loop_chain (heap st) verbose bs (first_block st) fuel Hc Hep'
             (first_block_aligned st Hal) (proj1 Hfb) (proj2 Hfb) Hfuel').
  rewrite (checkblock_silent _ _ P Hal Hr eq_refl HPh HPf).
  rewrite (printblock_line _ _ P eq_refl eq_refl HPh HPf).
    rewrite Hsum. change (8 >? 0) with true. cbv iota.
    rewrite (GET_SIZE_of_tag _ _ 0 1 eq_refl Hep).
    rewrite (GET_ALLOC_of_tag _ _ 0 1 eq_refl Hep).
    unfold printblock. rewrite (GET_SIZE_of_tag _ _ 0 1 eq_refl Hep).
    unfold listing.
    destruct (negb (verbose =? 0)); cbn; reflexivity.
Qed.

(** X13: the checker accepts the heaps the allocator builds.  On a
    well-formed heap whose first block pointer is doubleword aligned, with
    more fuel than there are blocks, [mm_checkheap] with [verbose = 0]
    prints nothing: no bad prologue, no misaligned block, no header that
    differs from its footer, no bad epilogue. *)
Theorem mm_checkheap_silent (fuel : nat) (st : state) (bs : list block) :
  well_formed st bs -> aligned (heap_listp st) ->
  (S (List.length bs) < fuel)%nat ->
  mm_checkheap fuel 0 st = Some [].
Proof.
  intros Hwf Hal Hfuel.
  exact (mm_checkheap_well_formed fuel 0 st bs Hwf Hal Hfuel).
Qed.

Lemma mm_checkheap_silent_witness : mm_checkheap 16 0 Run.two_freed = Some [].
Proof.
  apply (mm_checkheap_silent 16 Run.two_freed
           [mkBlock 16 false; mkBlock 16 true; mkBlock 16 false;
            mkBlock 16 true; mkBlock 4032 false]).
  - vm_compute. intuition congruence.
  - reflexivity.
  - vm_compute. lia.
Defined.

(** X14: the verbose listing.  On the same heaps, [mm_checkheap] with a
    non-zero [verbose] prints the heading with the first block pointer, one
    line for the prologue, one line per block in address order, each with
    the size and the allocated letter of the block in both the header and
    the footer field, and the end-of-list line at the epilogue; it prints no
    error line. *)
Theorem mm_checkheap_listing (fuel : nat) (verbose : Z) (st : state)
        (bs : list block) :
  well_formed st bs -> aligned (heap_listp st) ->
  (S (List.length bs) < fuel)%nat -> verbose <> 0 ->
  mm_checkheap fuel verbose st = Some (listing st bs) /\
  List.length (listing st bs) = (List.length bs + 3)%nat.
Proof.
  intros Hwf Hal Hfuel Hv.
  rewrite (mm_checkheap_well_formed fuel verbose st bs Hwf Hal Hfuel).
  destruct (Z.eqb_spec verbose 0); [contradiction |]. split; [reflexivity |].
  unfold listing. cbn [List.length].
  rewrite length_app, length_map. cbn [List.length].
  assert (Hlen : forall l bp, List.length (positions bp l) = List.length l).
  { induction l as [| b l IH]; intros bp; cbn; [reflexivity | now rewrite IH]. }
  rewrite Hlen. lia.
Qed.

Lemma mm_checkheap_listing_witness :
  mm_checkheap 16 1 Run.four_blocks
  = Some (listing Run.four_blocks Run.four_blocks_layout) /\
  List.length (listing Run.four_blocks Run.four_blocks_layout)
  = (List.length Run.four_blocks_layout + 3)%nat.
Proof.
  apply (mm_checkheap_listing 16 1 Run.four_blocks Run.four_blocks_layout).
  - vm_compute. intuition congruence.
  - reflexivity.
  - vm_compute. lia.
  - discriminate.
Defined.

Lemma checkblock_nil (m : mem) (bp : Z) :
  checkblock m bp = [] ->
  Word.to_size_t bp mod 8 = 0 /\ GET m (HDRP bp) = GET m (FTRP m bp).
Proof.
  unfold checkblock. intros H.
  destruct (Z.eqb_spec (Word.to_size_t bp mod 8) 0); [| discriminate].
  destruct (Z.eqb_spec (GET m (HDRP bp)) (GET m (FTRP m bp))); [| discriminate].
  now split.
Qed.

Lemma checkheap_loop_sound (m : mem) (fuel : nat) :
  forall bp stop,
    checkheap_loop fuel 0 m bp = Some ([], stop) ->
    exists ps,
      blocks_from fuel m bp = Some ps /\
      Forall (fun p => Word.to_size_t p mod 8 = 0 /\
                       GET m (HDRP p) = GET m (FTRP m p)) ps /\
      GET_SIZE m (HDRP stop) = 0.
Proof.
  induction fuel as [| fuel IH]; intros bp stop H; [discriminate |].
  cbn [checkheap_loop blocks_from] in *.
  pose proof (GET_SIZE_range m (HDRP bp)) as Hr.
  destruct (Z.gtb_spec (GET_SIZE m (HDRP bp)) 0) as [Hpos | Hzero].
  - destruct (checkheap_loop fuel 0 m (NEXT_BLKP m bp)) as [[out stop'] |] eqn:Hloop;
      [| discriminate].
    injection H as Hout ->. cbn [Z.eqb negb app] in Hout.
    apply app_eq_nil in Hout. destruct Hout as [Hcb ->].
    destruct (IH _ _ Hloop) as (ps & Hps & Hall & Hstop).
    destruct (Z.eqb_spec (GET_SIZE m (HDRP bp)) 0); [lia |].
    exists (bp :: ps). rewrite Hps. split; [reflexivity |].
    split; [| exact Hstop]. constructor; [now apply checkblock_nil | exact Hall].
  - injection H as <-.
    destruct (Z.eqb_spec (GET_SIZE m (HDRP bp)) 0); [| lia].
    exists []. repeat split; trivial.
Qed.

(** X15: what a silent check guarantees.  When [mm_checkheap] with
    [verbose = 0] prints nothing, the prologue header has size 8 and is
    marked allocated, every block on the walk from the first block pointer
    to the first header of size 0 is doubleword aligned and has a header
    word equal to its footer word, and that last header is marked
    allocated. *)
Theorem mm_checkheap_sound (fuel : nat) (st : state) :
  mm_checkheap fuel 0 st = Some [] ->
  GET_SIZE (heap st) (HDRP (heap_listp st)) = DSIZE /\
  GET_ALLOC (heap st) (HDRP (heap_listp st)) <> 0 /\
  exists ps stop,
    blocks_from fuel (heap st) (heap_listp st) = Some ps /\
    checkheap_loop fuel 0 (heap st) (heap_listp st) = Some ([], stop) /\
    Forall (fun p => Word.to_size_t p mod 8 = 0 /\
                     GET (heap st) (HDRP p) = GET (heap st) (FTRP (heap st) p)) ps /\
    GET_SIZE (heap st) (HDRP stop) = 0 /\
    GET_ALLOC (heap st) (HDRP stop) <> 0.
Proof.
  unfold mm_checkheap. intros H.
  destruct (checkheap_loop fuel 0 (heap st) (heap_listp st))
    as [[body stop] |] eqn:Hloop; [| discriminate].
  injection H as H. cbn [Z.eqb negb app] in H.
  apply app_eq_nil in H. destruct H as [Hpro H].
  apply app_eq_nil in H. destruct H as [_ H].
  apply app_eq_nil in H. destruct H as [-> Hepi].
  destruct (Z.eqb_spec (GET_SIZE (heap st) (HDRP (heap_listp st))) DSIZE);
    [| discriminate].
  destruct (Z.eqb_spec (GET_ALLOC (heap st) (HDRP (heap_listp st))) 0);
    [discriminate |].
  destruct (Z.eqb_spec (GET_SIZE (heap st) (HDRP stop)) 0); [| discriminate].
  destruct (Z.eqb_spec (GET_ALLOC (heap st) (HDRP stop)) 0); [discriminate |].
  destruct (checkheap_loop_sound _ _ _ _ Hloop) as (ps & Hps & Hall & _).
  split; [assumption |]. split; [assumption |].
  exists ps, stop. repeat split; assumption.
Qed.

Lemma mm_checkheap_sound_witness :
  GET_SIZE (heap Run.two_freed) (HDRP (heap_listp Run.two_freed)) = DSIZE /\
  GET_ALLOC (heap Run.two_freed) (HDRP (heap_listp Run.two_freed)) <> 0 /\
  exists ps stop,
    blocks_from 16 (heap Run.two_freed) (heap_listp Run.two_freed) = Some ps /\
    checkheap_loop 16 0 (heap Run.two_freed) (heap_listp Run.two_freed)
    = Some ([], stop) /\
    Forall (fun p => Word.to_size_t p mod 8 = 0 /\
                     GET (heap Run.two_freed) (HDRP p)
                     = GET (heap Run.two_freed) (FTRP (heap Run.two_freed) p)) ps /\
    GET_SIZE (heap Run.two_freed) (HDRP stop) = 0 /\
    GET_ALLOC (heap Run.two_freed) (HDRP stop) <> 0.
Proof.
  apply (mm_checkheap_sound 16 Run.two_freed).
  vm_compute. reflexivity.
Defined.

(** ** Reallocation keeps the heap well formed *)

Ltac same_positions :=
  match goal with
  | H : In ?x (positions ?a ?l) |- In ?x (positions ?b ?l) =>
      replace b with a by lia; exact H
  end.

(** Freeing a block leaves every other allocated block in the list, at its
    address. *)
Lemma freed_keeps_allocated (bp q sz : Z) (B : block) (pre post : list block) :
  In (q, B) (positions bp (pre ++ mkBlock sz true :: post)) ->
  blk_alloc B = true -> q <> bp + total pre ->
  In (q, B) (positions bp (freed pre sz post)).
Proof.
  intros Hin HB Hq.
  rewrite positions_app, in_app_iff in Hin. cbn [positions In blk_size] in Hin.
  destruct Hin as [Hin | [E | Hin]]; [| injection E as E _; lia |].
  - (* before the freed block *)
    unfold freed. destruct (last_free pre) eqn:El.
    + destruct (last_case pre) as [-> | (pre' & Pb & ->)]; [discriminate |].
      rewrite last_free_snoc in El.
      rewrite removelast_last, positions_app, in_app_iff. left.
      rewrite positions_app, in_app_iff in Hin. cbn [positions In] in Hin.
      destruct Hin as [Hin | [E | []]]; [exact Hin |].
      injection E as _ <-. rewrite HB in El. discriminate.
    + rewrite positions_app, in_app_iff. now left.
  - (* after the freed block *)
    assert (Hpost : In (q, B)
              (positions (bp + total pre + sz
                          + (if head_free post
                             then blk_size (hd (mkBlock 0 true) post) else 0))
                 (if head_free post then tl post else post))).
    { destruct (head_free post) eqn:Eh.
      - destruct post as [| Nb t]; [discriminate |].
        cbn [head_free hd tl positions In] in *.
        destruct Hin as [E | Hin]; [| exact Hin].
        injection E as _ <-. rewrite HB in Eh. discriminate.
      - now rewrite Z.add_0_r. }
    unfold freed. destruct (last_free pre) eqn:El.
    + destruct (last_case pre) as [-> | (pre' & Pb & ->)]; [discriminate |].
      rewrite removelast_last, last_last, positions_app, in_app_iff. right.
      cbn [positions In blk_size]. right.
      rewrite total_app in Hpost. cbn [total] in Hpost.
      destruct (head_free post); same_positions.
    + rewrite positions_app, in_app_iff. right.
      cbn [positions In blk_size]. right.
      destruct (head_free post); same_positions.
Qed.

(** X16: [mm_realloc] keeps the heap well formed.  In a well-formed heap,
    for a live allocated block [ptr] whose predecessor is allocated (or is
    the prologue), or whose successor is an allocated block, a
    [mm_realloc] that returns leaves a well-formed heap in which the
    returned block is a live allocated block, different from [ptr], with
    room for the [s] bytes asked. *)
Theorem mm_realloc_well_formed (fuel : nat) (st st' : state) (bs : list block)
        (ptr sz s newp : Z) :
  well_formed st bs -> live st bs ptr sz -> s + 15 < 2 ^ 31 ->
  GET_ALLOC (heap st) (ptr - DSIZE) = 1 \/
  (GET_ALLOC (heap st) (HDRP (ptr + sz)) = 1 /\ ptr + sz < mem_brk st) ->
  mm_realloc fuel ptr s st = Ret newp st' ->
  exists bs' nsz,
    well_formed st' bs' /\ live st' bs' newp nsz /\
    s + OVERHEAD <= nsz /\ newp <> ptr /\
    heap_listp st' = heap_listp st.
Proof.
  intros Hwf Hlive Hr Hflags Hre.
  unfold mm_realloc, bind in Hre.
  destruct (mm_malloc fuel s st) as [[np |] st1 | |] eqn:Hm; try discriminate.
  injection Hre as <- <-.
  assert (Hs : 0 < s).
  { destruct (Z.leb_spec s 0) as [Hle | Hlt]; [| exact Hlt].
    unfold mm_malloc in Hm. apply Z.leb_le in Hle. rewrite Hle in Hm. discriminate. }
  destruct (mm_malloc_well_formed fuel st st1 bs s np Hwf Hs Hr Hm)
    as (bs1 & nsz & Hwf1 & Hfb & Hnew & Hnsz & Hkeep).
  destruct (Hkeep ptr (mkBlock sz true) Hlive eq_refl) as (Hlive1 & Hne & Hsame).
  rewrite <- Hfb in Hlive1.
  assert (Hhl : heap_listp st1 = heap_listp st)
    by (unfold first_block in Hfb; lia).
  assert (Hc1 : chain (heap st1) (first_block st1) bs1) by apply Hwf1.
  destruct (chain_at _ _ _ _ _ Hc1 Hlive1) as ([Hmin H8] & Hh & _).
  cbn [blk_size] in Hmin, H8.
  assert (Hcopy : realloc_copySize (heap st1) ptr s = Z.min sz s).
  { unfold realloc_copySize.
    rewrite (GET_SIZE_of_tag _ _ sz (flag true) H8 Hh).
    destruct (Z.ltb_spec s sz); lia. }
  rewrite Hcopy. set (n := Z.min sz s).
  set (st2 := set_heap st1 (memcpy (heap st1) np ptr n)).
  assert (Hwf2 : well_formed st2 bs1).
  { apply (memcpy_well_formed st1 bs1 np nsz ptr n Hwf1 Hnew).
    unfold n, OVERHEAD in *. lia. }
  (* the neighbours of [ptr] before the call *)
  destruct (in_positions_split _ _ _ _ Hlive) as (pre0 & post0 & Ebs & Eptr0).
  rewrite Ebs in Hwf.
  destruct (neighbour_flags st pre0 post0 _ Hwf) as [Hlf0 Hhf0].
  rewrite <- Eptr0 in Hlf0, Hhf0. cbn [blk_size] in Hhf0.
  destruct (well_formed_sizes _ _ Hwf) as (Hok0 & _).
  (* and after the allocation *)
  destruct (in_positions_split _ _ _ _ Hlive1) as (pre & post & Ebs1 & Eptr).
  rewrite Ebs1 in Hwf1, Hwf2, Hnew.
  destruct (neighbour_flags st1 pre post _ Hwf1) as [Hlf1 Hhf1].
  rewrite <- Eptr in Hlf1, Hhf1. cbn [blk_size] in Hhf1.
  assert (Hfl : last_free pre && head_free post = false).
  { destruct Hflags as [Hp | [Hn Hbrk]].
    - (* the predecessor stays allocated *)
      enough (GET_ALLOC (heap st1) (ptr - DSIZE) = 1) as E.
      { rewrite E in Hlf1. destruct (last_free pre); [discriminate | reflexivity]. }
      rewrite Hp in Hlf0.
      destruct (last_case pre0) as [-> | (p' & Pb & ->)].
      + cbn [total] in Eptr0.
        replace (ptr - DSIZE) with (heap_listp st1)
          by (unfold first_block, DSIZE in *; lia).
        destruct Hwf1 as (_ & Hpf1 & _).
        now rewrite (GET_ALLOC_of_tag _ _ OVERHEAD 1 eq_refl Hpf1).
      + rewrite last_free_snoc in Hlf0.
        assert (HPb : blk_alloc Pb = true)
          by (destruct (blk_alloc Pb); [reflexivity | discriminate]).
        assert (HinP : In (first_block st + total p', Pb)
                          (positions (first_block st) bs)).
        { rewrite Ebs, <- app_assoc. apply in_positions_mid. }
        destruct (Hkeep _ _ HinP HPb) as (_ & _ & HsameP).
        apply Forall_app in Hok0. destruct Hok0 as [Hok0 _].
        apply Forall_app in Hok0. destruct Hok0 as [_ HokP].
        apply Forall_inv in HokP. destruct HokP as [HPmin _].
        rewrite total_app in Eptr0. cbn [total] in Eptr0.
        rewrite <- Hp. unfold GET_ALLOC. f_equal.
        apply GET_ext. intros x Hx. apply HsameP. addr.
    - (* the successor stays allocated *)
      enough (GET_ALLOC (heap st1) (HDRP (ptr + sz)) = 1) as E.
      { rewrite E in Hhf1. destruct (head_free post);
          [discriminate | apply andb_false_r]. }
      rewrite Hn in Hhf0.
      destruct post0 as [| Nb t].
      + destruct Hwf as (_ & _ & _ & Hsum & _).
        rewrite total_app in Hsum. cbn [total blk_size] in Hsum. lia.
      + cbn [head_free] in Hhf0.
        assert (HNb : blk_alloc Nb = true)
          by (destruct (blk_alloc Nb); [reflexivity | discriminate]).
        assert (HinN : In (ptr + sz, Nb) (positions (first_block st) bs)).
        { rewrite Ebs.
          replace (pre0 ++ mkBlock sz true :: Nb :: t)
            with ((pre0 ++ [mkBlock sz true]) ++ Nb :: t)
            by (rewrite <- app_assoc; reflexivity).
          replace (ptr + sz)
            with (first_block st + total (pre0 ++ [mkBlock sz true]))
            by (rewrite total_app; cbn [total blk_size]; lia).
          apply in_positions_mid. }
        destruct (Hkeep _ _ HinN HNb) as (_ & _ & HsameN).
        apply Forall_app in Hok0. destruct Hok0 as [_ Hok0].
        apply Forall_inv_tail, Forall_inv in Hok0. destruct Hok0 as [HNmin _].
        rewrite <- Hn. unfold GET_ALLOC. f_equal.
        apply GET_ext. intros x Hx. apply HsameN. addr. }
  pose proof (mm_free_layout st2 pre post sz Hwf2 Hfl) as Hwf3.
  change (first_block st2) with (first_block st1) in Hwf3.
  rewrite <- Eptr in Hwf3.
  exists (freed pre sz post), nsz.
  split; [exact Hwf3 |]. split.
  { unfold live. change (first_block (mm_free ptr st2)) with (first_block st1).
    apply freed_keeps_allocated; [exact Hnew | reflexivity |].
    rewrite <- Eptr. congruence. }
  split; [exact Hnsz |]. split; [congruence | exact Hhl].
Qed.

Lemma mm_realloc_well_formed_witness :
  exists bs' nsz,
    well_formed Run.after_realloc bs' /\ live Run.after_realloc bs' 4176 nsz /\
    100 + OVERHEAD <= nsz /\ 4176 <> Run.a /\
    heap_listp Run.after_realloc = heap_listp Run.four_blocks.
Proof.
  apply (mm_realloc_well_formed 16 Run.four_blocks Run.after_realloc
           Run.four_blocks_layout Run.a 16 100 4176).
  - vm_compute. intuition congruence.
  - vm_compute. left. reflexivity.
  - vm_compute. reflexivity.
  - left. vm_compute. reflexivity.
  - reflexivity.
Defined.

(** ** Extending the heap by any number of words *)

Lemma extend_heap_words (words : Z) (st : state) :
  0 <= words -> WSIZE * (words + 1) < 2 ^ 31 ->
  let size := WSIZE * (words + words mod 2) in
  size mod 8 = 0 /\ WSIZE * words <= size < 2 ^ 31 /\
  extend_heap words st = extend_heap (size / WSIZE) st.
Proof.
  intros Hw Hr size.
  pose proof (Z.mod_pos_bound words 2 ltac:(lia)) as Hm.
  pose proof (Z.div_mod words 2 ltac:(lia)) as Hd.
  assert (E : size = 8 * (words / 2 + words mod 2)) by (unfold size, WSIZE; lia).
  assert (H8 : size mod 8 = 0) by (rewrite E, Z.mul_comm; apply Z.mod_mul; lia).
  assert (Hs : WSIZE * words <= size < 2 ^ 31) by (unfold size, WSIZE in *; lia).
  split; [exact H8 |]. split; [exact Hs |].
  destruct (extend_arith size H8 ltac:(unfold WSIZE in *; lia)) as (Hpar & Hmul & _).
  unfold extend_heap. rewrite Hpar. cbn [Z.eqb negb]. rewrite Hmul.
  replace (if negb (words mod 2 =? 0)
           then Word.mul (Word.add words 1) WSIZE else Word.mul words WSIZE)
    with size; [reflexivity |].
  unfold Word.mul, Word.add, size, WSIZE in *.
  change (2 ^ 31) with 2147483648 in *.
  destruct (Z.eqb_spec (words mod 2) 0) as [E0 | E0]; cbn [negb].
  - rewrite to_size_t_small by word_range. lia.
  - rewrite (to_size_t_small (words + 1)) by word_range.
    rewrite to_size_t_small by word_range. lia.
Qed.

(** X17: [extend_heap] rounds the word count up to an even number and
    appends that many bytes as a free block.  On a well-formed heap with
    room left for them in the lower half of the address space, a call with
    at least three words succeeds; the heap grows by
    [WSIZE * (words + words mod 2)] bytes, a multiple of 8, and stays well
    formed; the new bytes form a free block, merged with the last block of
    the heap when that one was free, and the returned pointer is that of
    the resulting last block. *)
Theorem extend_heap_rounds_up (words : Z) (st : state) (bs : list block) :
  well_formed st bs -> 3 <= words ->
  mem_brk st + WSIZE * (words + 1) <= mem_max_addr st ->
  mem_max_addr st <= 2 ^ 31 ->
  let size := WSIZE * (words + words mod 2) in
  exists r st1,
    extend_heap words st = (Some r, st1) /\
    size mod 8 = 0 /\ WSIZE * words <= size /\
    well_formed st1 (grown size bs) /\
    heap_listp st1 = heap_listp st /\
    mem_brk st1 = mem_brk st + size /\
    exists pre L,
      grown size bs = pre ++ [L] /\ r = first_block st + total pre /\
      blk_alloc L = false /\ size <= blk_size L.
Proof.
  intros Hwf Hw Hroom Hmax size.
  assert (Hbrk : 16 <= mem_brk st < 2 ^ 31).
  { destruct Hwf as (_ & _ & Hc & Hsum & _ & Hlo & Hb & _).
    pose proof (total_nonneg _ (chain_ok _ _ _ Hc)).
    unfold first_block, MIN_BLOCK, OVERHEAD, DSIZE, WSIZE in *. lia. }
  assert (Hr : WSIZE * (words + 1) < 2 ^ 31) by (unfold WSIZE in *; lia).
  destruct (extend_heap_words words st ltac:(lia) Hr) as (H8 & Hs & Eext).
  fold size in H8, Hs, Eext.
  pose proof (Z.mod_pos_bound words 2 ltac:(lia)) as Hm.
  pose proof (Z.div_mod words 2 ltac:(lia)) as Hd.
  assert (Hmin : MIN_BLOCK <= size < 2 ^ 31)
    by (unfold size, MIN_BLOCK, OVERHEAD, DSIZE, WSIZE in *; lia).
  assert (Hex : exists r st1, extend_heap (size / WSIZE) st = (Some r, st1)).
  { rewrite (extend_heap_unfold st size H8)
      by (unfold MIN_BLOCK, OVERHEAD, DSIZE in *; lia).
    unfold mem_sbrk.
    destruct (Z.ltb_spec size 0); [unfold MIN_BLOCK, OVERHEAD, DSIZE in *; lia |].
    destruct (Z.ltb_spec (mem_max_addr st) (mem_brk st + size));
      [unfold size, WSIZE in *; lia |].
    cbn [orb]. rewrite to_int_small by lia.
    destruct (Z.ltb_spec (mem_brk st) 0); [lia |].
    cbv zeta. eauto. }
  destruct Hex as (r & st1 & Hext).
  destruct (extend_heap_layout st st1 bs size r Hwf H8 Hmin Hext)
    as (Hwf1 & Hhl & Hb1 & Hshape).
  exists r, st1. rewrite Eext.
  split; [exact Hext |]. split; [exact H8 |]. split; [apply Hs |].
  split; [exact Hwf1 |]. split; [exact Hhl |]. split; [exact Hb1 | exact Hshape].
Qed.

Lemma extend_heap_rounds_up_witness :
  let size := WSIZE * (5 + 5 mod 2) in
  exists r st1,
    extend_heap 5 Run.four_blocks = (Some r, st1) /\
    size mod 8 = 0 /\ WSIZE * 5 <= size /\
    well_formed st1 (grown size Run.four_blocks_layout) /\
    heap_listp st1 = heap_listp Run.four_blocks /\
    mem_brk st1 = mem_brk Run.four_blocks + size /\
    exists pre L,
      grown size Run.four_blocks_layout = pre ++ [L] /\
      r = first_block Run.four_blocks + total pre /\
      blk_alloc L = false /\ size <= blk_size L.
Proof.
  apply (extend_heap_rounds_up 5 Run.four_blocks Run.four_blocks_layout).
  - vm_compute. intuition congruence.
  - lia.
  - vm_compute. congruence.
  - vm_compute. congruence.
Defined.

(** ** Allocating, then freeing *)

Lemma first_fit_freed (a : Z) (bs : list block) (off : Z) (l : list block) :
  first_fit a bs = Some (off, l) -> no_adjacent_free bs = true ->
  exists pre c post,
    l = pre ++ mkBlock c true :: post /\ off = total pre /\
    last_free pre && head_free post = false /\
    freed pre c post = bs.
Proof.
  intros Hff Hn.
  destruct (first_fit_split _ _ _ _ Hff)
    as (pre & F & post & -> & -> & HF & Hsz & -> & _).
  rewrite no_adjacent_free_app, no_adjacent_free_cons in Hn.
  cbn [head_free] in Hn. rewrite HF in Hn. cbn [negb andb] in Hn.
  assert (Hl : last_free pre = false).
  { destruct (last_free pre); [| reflexivity].
    cbn [andb negb] in Hn. now rewrite andb_false_r in Hn. }
  assert (Hh : head_free post = false).
  { destruct (head_free post); [| reflexivity].
    cbn [andb negb] in Hn. now rewrite andb_false_r in Hn. }
  unfold placed. destruct (blk_size F - a <? MIN_BLOCK).
  - exists pre, (blk_size F), post. cbn [app].
    split; [reflexivity |]. split; [reflexivity |].
    split; [now rewrite Hl |].
    unfold freed. rewrite Hl, Hh.
    destruct F as [fs fa]. cbn [blk_size blk_alloc] in *. now rewrite HF.
  - exists pre, a, (mkBlock (blk_size F - a) false :: post). cbn [app].
    split; [reflexivity |]. split; [reflexivity |].
    split; [now rewrite Hl |].
    unfold freed. rewrite Hl. cbn [head_free hd tl blk_alloc blk_size negb].
    destruct F as [fs fa]. cbn [blk_size blk_alloc] in *. rewrite HF.
    do 3 f_equal. lia.
Qed.

(** X18: allocating and freeing at once restores the block list.  In a
    well-formed heap where no two neighbours are both free, the block that a
    successful [mm_malloc] returns never has two free neighbours, so that
    [mm_free] of it does not run the last case of [coalesce]; after the
    [mm_free] the heap is well formed with the blocks it had before the
    [mm_malloc], or, when the heap had to grow, with those blocks grown by
    the larger of the adjusted size and a chunk. *)
Theorem mm_malloc_then_free (fuel : nat) (st st1 : state) (bs : list block)
        (s p : Z) :
  well_formed st bs -> no_adjacent_free bs = true ->
  0 < s -> s + 15 < 2 ^ 31 ->
  mm_malloc fuel s st = Ret (Some p) st1 ->
  well_formed (mm_free p st1)
    (match first_fit (adjust_size s) bs with
     | Some _ => bs
     | None => grown (Z.max (adjust_size s) CHUNKSIZE) bs
     end) /\
  (GET_ALLOC (heap st1) (p - DSIZE) = 1 \/
   GET_ALLOC (heap st1) (HDRP (NEXT_BLKP (heap st1) p)) = 1).
Proof.
  intros Hwf Hn Hs Hr Hm.
  destruct (mm_malloc_layout fuel st st1 bs s p Hwf Hs Hr Hm)
    as (bs' & Hmb & Hwf1 & Hhl).
  assert (Hfb : first_block st1 = first_block st)
    by (unfold first_block; now rewrite Hhl).
  set (target := match first_fit (adjust_size s) bs with
                 | Some _ => bs
                 | None => grown (Z.max (adjust_size s) CHUNKSIZE) bs
                 end).
  assert (Hsplit : exists pre c post,
             bs' = pre ++ mkBlock c true :: post /\
             p - first_block st = total pre /\
             last_free pre && head_free post = false /\
             freed pre c post = target).
  { unfold malloc_blocks in Hmb. unfold target.
    destruct (first_fit (adjust_size s) bs) as [r |] eqn:Hff.
    - injection Hmb as ->. now apply (first_fit_freed (adjust_size s)).
    - apply (first_fit_freed (adjust_size s)); [exact Hmb |].
      now apply no_adjacent_free_grown. }
  destruct Hsplit as (pre & c & post & -> & Hoff & Hfl & Hfreed).
  assert (Ep : p = first_block st1 + total pre) by lia.
  split.
  - rewrite <- Hfreed, Ep. now apply mm_free_layout.
  - destruct (neighbour_flags st1 pre post _ Hwf1) as [Hlf Hhf].
    rewrite <- Ep in Hlf, Hhf. cbn [blk_size] in Hhf.
    assert (Hc : chain (heap st1) (first_block st1)
                       (pre ++ mkBlock c true :: post)) by apply Hwf1.
    assert (Hin : In (p, mkBlock c true)
                     (positions (first_block st1) (pre ++ mkBlock c true :: post)))
      by (rewrite Ep; apply in_positions_mid).
    destruct (chain_at _ _ _ _ _ Hc Hin) as ([_ H8] & Hh & _).
    cbn [blk_size] in H8.
    unfold NEXT_BLKP. fold (HDRP p).
    rewrite (GET_SIZE_of_tag _ _ c (flag true) H8 Hh), Hlf, Hhf.
    destruct (last_free pre), (head_free post); auto; discriminate.
Qed.

Lemma mm_malloc_then_free_witness :
  well_formed (mm_free 4176 Run.after_realloc_malloc)
    (match first_fit (adjust_size 100) Run.four_blocks_layout with
     | Some _ => Run.four_blocks_layout
     | None => grown (Z.max (adjust_size 100) CHUNKSIZE) Run.four_blocks_layout
     end) /\
  (GET_ALLOC (heap Run.after_realloc_malloc) (4176 - DSIZE) = 1 \/
   GET_ALLOC (heap Run.after_realloc_malloc)
     (HDRP (NEXT_BLKP (heap Run.after_realloc_malloc) 4176)) = 1).
Proof.
  apply (mm_malloc_then_free 16 Run.four_blocks Run.after_realloc_malloc
           Run.four_blocks_layout 100 4176).
  - vm_compute. intuition congruence.
  - reflexivity.
  - lia.
  - vm_compute. reflexivity.
  - reflexivity.
Defined.

(** ** Words in memory *)

(** X19: a word stored with [PUT] is read back by [GET], truncated to the 32
    bits of a [size_t]; the store changes the four bytes at [p] only, so
    that a word read at four bytes or more from [p] is unchanged. *)
Theorem PUT_GET_word (m : mem) (p v : Z) :
  GET (PUT m p v) p = Word.to_size_t v /\
  0 <= GET (PUT m p v) p < Word.modulus /\
  (forall q, q + 4 <= p \/ p + 4 <= q -> GET (PUT m p v) q = GET m q) /\
  (forall a, a < p \/ p + 4 <= a -> PUT m p v a = m a).
Proof.
  split; [apply GET_PUT_same |]. split; [apply GET_range |].
  split; [intros q; apply GET_PUT_other | intros a; apply PUT_other].
Qed.
